(** * RetroFlow backend: the real-time session engine

    A shallow embedding of the socket handlers of
    [src/socket/socketHandler.ts] ([join_session], [change_phase], the
    typing indicators, [add_response], [update_response],
    [create_connection], [remove_connection], [cast_vote], the
    presentation commands and [disconnect]), of [generateInviteCode] and
    the routes [POST /], [POST /join] and [PATCH /:sessionId/phase] of
    [src/routes/sessionRoutes.ts], and of the routes
    [GET /:participantId/votes] and [PATCH /:participantId] of
    [src/routes/participantRoutes.ts], followed by their properties: the
    phase controller, the voting ledger, the group materializer, the
    board store and the session capacity first, then presence,
    presentation, the routes, and what every sequence of commands
    maintains.

    The relational store behind Prisma is one finite map per table, keyed
    by the primary key (by the compound unique key
    [(participantId, groupId)] for votes).  A handler is a state
    transformer over the store and the list of emitted socket events.
    An early [return] and a thrown exception are explicit completions;
    nothing is rolled back when a handler stops half way, as in the
    source, which uses no transaction.  Handlers run one at a time: the
    interleaving of concurrent commands is not modelled.

    What the source takes from its environment is a parameter of the
    handler: the primary key generated for a created row, the id of the
    socket, the current time and the random draws.  Numbers are integers;
    a vote count or a timer duration with a fractional part is not
    modelled, and a number is taken to fit the column it is written to.
    A date is a time value in milliseconds, valid within 8.64e15 ms of
    the epoch.  The calls to Redis are recorded among the events and are
    taken to succeed.  The Prisma schema is not part of the sources: the
    handler [delete_response] and the route [DELETE /:participantId],
    whose effect depends on the referential actions declared there, are
    left out. *)

From Stdlib Require Import ZArith NArith Ascii String.
From stdpp Require Import gmap strings list fin_maps.

Local Open Scope Z_scope.

(** ** JavaScript strings

    A JavaScript string is a sequence of UTF-16 code units; [length],
    [substring], [startsWith], [replace] and [split] all count code
    units. *)

Abbreviation jsstring := (list N) (only parsing).
Abbreviation Id := (list N) (only parsing).

Definition js (s : string) : jsstring :=
  N_of_ascii <$> list_ascii_of_string s.

(** [s.startsWith(p)] *)
Fixpoint startsWith (p s : jsstring) : bool :=
  match p, s with
  | [], _ => true
  | a :: p', b :: s' => (a =? b)%N && startsWith p' s'
  | _ :: _, [] => false
  end.

(** [s.replace(pat, rep)] with a string pattern: the first occurrence only. *)
Fixpoint replace (pat rep s : jsstring) : jsstring :=
  if startsWith pat s then rep ++ drop (length pat) s
  else match s with
       | [] => []
       | c :: s' => c :: replace pat rep s'
       end.

(** [s.split(sep)] for a non-empty separator.  [skip] counts the code
    units of a separator that has just been recognised and is still to be
    consumed; [cur] is the piece being read, in reverse. *)
Fixpoint split_go (sep : jsstring) (skip : nat) (cur s : jsstring)
  : list jsstring :=
  match s with
  | [] => [reverse cur]
  | c :: s' =>
      match skip with
      | S k => split_go sep k cur s'
      | O =>
          if startsWith sep s
          then reverse cur :: split_go sep (length sep - 1) [] s'
          else split_go sep 0 (c :: cur) s'
      end
  end.

Definition split (sep s : jsstring) : list jsstring := split_go sep 0 [] s.

(** [parts.join(sep)] *)
Fixpoint join (sep : jsstring) (parts : list jsstring) : jsstring :=
  match parts with
  | [] => []
  | [x] => x
  | x :: rest => x ++ sep ++ join sep rest
  end.

(** [s.substring(0, n)] *)
Definition substring0 (n : nat) (s : jsstring) : jsstring := take n s.

(** The pattern
    [/^[0-9a-f]{8}-[0-9a-f]{4}-[0-9a-f]{4}-[0-9a-f]{4}-[0-9a-f]{12}$/i];
    zod's [z.string().uuid()] is modelled by the same pattern. *)
Definition is_hex (c : N) : bool :=
  ((48 <=? c) && (c <=? 57) || (97 <=? c) && (c <=? 102)
   || (65 <=? c) && (c <=? 70))%N.

Fixpoint hex_run (n : nat) (s : jsstring) : option jsstring :=
  match n with
  | O => Some s
  | S k => match s with
           | c :: s' => if is_hex c then hex_run k s' else None
           | [] => None
           end
  end.

Definition dash (s : jsstring) : option jsstring :=
  match s with
  | c :: s' => if (c =? 45)%N then Some s' else None
  | [] => None
  end.

(** Groups of hexadecimal digits of the given lengths, separated by
    single dashes, and nothing after the last group. *)
Fixpoint hex_groups (lens : list nat) (s : jsstring) : bool :=
  match lens with
  | [] => false
  | [n] => match hex_run n s with Some [] => true | _ => false end
  | n :: rest =>
      match hex_run n s with
      | Some r => match dash r with
                  | Some r' => hex_groups rest r'
                  | None => false
                  end
      | None => false
      end
  end.

Definition is_uuid (s : jsstring) : bool :=
  hex_groups [8; 4; 4; 4; 12]%nat s.

(** String operations are computed on literals only when asked to. *)
Arguments js : simpl never.
Arguments startsWith : simpl never.
Arguments replace : simpl never.
Arguments split : simpl never.
Arguments join : simpl never.
Arguments is_uuid : simpl never.

(** ** The data model (the Prisma models the handlers read and write) *)

(** Modelled from the spec: the [SessionPhase] enum is declared in the
    Prisma schema, which is not part of the sources; a phase is an opaque
    tag, and every inhabitant passes [z.nativeEnum(SessionPhase)]. *)
Inductive SessionPhase := PhaseTag (tag : string).

Inductive Category := WENT_WELL | DIDNT_GO_WELL.

Record Session := {
  s_inviteCode : jsstring;
  s_hostId : Id;
  s_title : jsstring;
  s_currentPhase : SessionPhase;
  s_timerDuration : option Z;
  s_timerEndTime : option Z          (* milliseconds since the epoch *)
}.

Record Participant := {
  p_sessionId : Id;
  p_displayName : jsstring;
  p_avatarId : jsstring;
  p_isHost : bool;
  p_socketId : option Id;
  p_lastActive : Z
}.

Record Response := {
  r_sessionId : Id;
  r_participantId : Id;
  r_content : jsstring;
  r_category : Category;
  r_positionX : Z;
  r_positionY : Z;
  r_groupId : option Id
}.

Record Group := {
  g_sessionId : Id;
  g_label : jsstring;
  g_color : jsstring;
  g_positionX : Z;
  g_positionY : Z;
  g_voteCount : Z
}.

Record Connection := {
  c_sessionId : Id;
  c_fromResponseId : Id;
  c_toResponseId : Id
}.

Record Vote := {
  v_sessionId : Id;
  v_voteCount : Z
}.

#[global] Instance Category_eq_dec : EqDecision Category.
Proof. solve_decision. Defined.

(** One finite map per table.  Votes are keyed by the compound unique key
    [participantId_groupId]. *)
Record Db := {
  sessions : gmap Id Session;
  participants : gmap Id Participant;
  responses : gmap Id Response;
  groups : gmap Id Group;
  connections : gmap Id Connection;
  votes : gmap (Id * Id) Vote
}.

Definition empty_db : Db :=
  {| sessions := ∅; participants := ∅; responses := ∅; groups := ∅;
     connections := ∅; votes := ∅ |}.

Definition set_sessions (f : gmap Id Session → gmap Id Session) (d : Db) : Db :=
  {| sessions := f (sessions d); participants := participants d;
     responses := responses d; groups := groups d;
     connections := connections d; votes := votes d |}.

Definition set_participants
  (f : gmap Id Participant → gmap Id Participant) (d : Db) : Db :=
  {| sessions := sessions d; participants := f (participants d);
     responses := responses d; groups := groups d;
     connections := connections d; votes := votes d |}.

Definition set_responses (f : gmap Id Response → gmap Id Response) (d : Db) : Db :=
  {| sessions := sessions d; participants := participants d;
     responses := f (responses d); groups := groups d;
     connections := connections d; votes := votes d |}.

Definition set_groups (f : gmap Id Group → gmap Id Group) (d : Db) : Db :=
  {| sessions := sessions d; participants := participants d;
     responses := responses d; groups := f (groups d);
     connections := connections d; votes := votes d |}.

Definition set_connections
  (f : gmap Id Connection → gmap Id Connection) (d : Db) : Db :=
  {| sessions := sessions d; participants := participants d;
     responses := responses d; groups := groups d;
     connections := f (connections d); votes := votes d |}.

Definition set_votes (f : gmap (Id * Id) Vote → gmap (Id * Id) Vote) (d : Db) : Db :=
  {| sessions := sessions d; participants := participants d;
     responses := responses d; groups := groups d;
     connections := connections d; votes := f (votes d) |}.

(** ** Socket events *)

Inductive Emit :=
  | error (message : string)
      (* socket.emit('error', { message }): to the originating socket only *)
  | phase_changed (room : Id) (phase : SessionPhase) (timerEndTime : option Z)
  | response_added (id : Id) (response : Response)
      (* to the originating socket only *)
  | response_updated (id : Id) (response : Response)
      (* to the originating socket only *)
  | connection_created (room : Id) (id : Id) (connection : Connection)
  | connection_removed (room : Id) (connectionId : Id)
  | connected_group_created (room : Id) (groupId : Id) (responseIds : list Id)
  | votes_updated (room : Id) (groupId : jsstring) (totalVotes : Z)
      (participantProgress : gmap Id Z)
  | room_joined (room : Id)
      (* socket.join(room): the connection becomes a member of the room *)
  | session_joined (session : option Session) (participant : Id * Participant)
      (participants : list (Id * Participant))
      (* to the originating socket only *)
  | participant_joined (room : Id) (id : Id) (displayName avatarId : jsstring)
      (isHost : bool)
  | participant_left (room : Id) (participantId : Id)
  | participant_typing_start (room : Id) (participantId : Id)
  | participant_typing_stop (room : Id) (participantId : Id)
  | presentation_started (room : Id)
  | presentation_ended (room : Id)
  | presentation_navigate (room : Id) (itemIndex : Z)
  | redis_setEx (key : jsstring) (seconds : Z) (value : jsstring)
      (* redis.setEx(key, seconds, value) *)
  | redis_del (key : jsstring).

(** ** Handlers

    The state a handler runs in: the store and the events emitted so far. *)
Record World := { db : Db; emitted : list Emit }.

Inductive Completion (A : Type) :=
  | Done (a : A)      (* ran to the end of the statement *)
  | Returned          (* an early [return] *)
  | Threw.            (* an exception, caught at the handler's boundary *)
Arguments Done {A} a.
Arguments Returned {A}.
Arguments Threw {A}.

Definition Handler (A : Type) : Type := World → Completion A * World.

#[global] Instance Handler_ret : MRet Handler := λ A a w, (Done a, w).

#[global] Instance Handler_bind : MBind Handler := λ A B k m w,
  match m w with
  | (Done a, w') => k a w'
  | (Returned, w') => (Returned, w')
  | (Threw, w') => (Threw, w')
  end.

Definition read {A} (f : Db → A) : Handler A := λ w, (Done (f (db w)), w).

Definition write (f : Db → Db) : Handler unit := λ w,
  (Done tt, {| db := f (db w); emitted := emitted w |}).

Definition emit (e : Emit) : Handler unit := λ w,
  (Done tt, {| db := db w; emitted := emitted w ++ [e] |}).

Definition throw {A} : Handler A := λ w, (Threw, w).

Definition return_ {A} : Handler A := λ w, (Returned, w).

(** [socket.emit('error', { message }); return;] *)
Definition reject {A} (message : string) : Handler A :=
  emit (error message);; return_.

(** [if (!ok) throw]: a failed schema validation or store constraint. *)
Definition guard (ok : bool) : Handler unit :=
  if ok then mret tt else throw.

(** [try { body } catch (error) { socket.emit('error', { message }) }] *)
Definition try_catch (body : Handler unit) (message : string) (w : World) : World :=
  match body w with
  | (Threw, w') => {| db := db w'; emitted := emitted w' ++ [error message] |}
  | (_, w') => w'
  end.

(** ** The store interface (the Prisma client calls the handlers make) *)

Section store.
Context `{Countable K} {V : Type}.
Implicit Types (t : gmap K V) (P : K * V → Prop).

(** [findMany({ where })]: the rows that satisfy [where], in the order
    the store returns them (no [orderBy] is given anywhere). *)
Definition findMany P `{!∀ x, Decision (P x)} t : list (K * V) :=
  map_to_list (filter P t).

(** [findFirst({ where })] *)
Definition findFirst P `{!∀ x, Decision (P x)} t : option (K * V) :=
  head (findMany P t).

(** [updateMany({ where, data })] *)
Definition updateMany P `{!∀ x, Decision (P x)} (f : V → V) t : gmap K V :=
  map_imap (λ k v, Some (if decide (P (k, v)) then f v else v)) t.

(** [deleteMany({ where })] *)
Definition deleteMany P `{!∀ x, Decision (P x)} t : gmap K V :=
  filter (λ x, ¬ P x) t.
End store.

(** [create({ data })]: a primary key that is already taken violates the
    unique constraint and the call throws. *)
Definition create {V} (tbl : Db → gmap Id V)
    (set : (gmap Id V → gmap Id V) → Db → Db) (id : Id) (row : V) : Handler unit :=
  taken ← read (λ d, tbl d !! id);
  match taken with
  | Some _ => throw
  | None => write (set (insert id row))
  end.

(** [update({ where: { id }, data })]: throws when the record does not exist. *)
Definition update {V} (tbl : Db → gmap Id V)
    (set : (gmap Id V → gmap Id V) → Db → Db) (id : Id) (f : V → V) : Handler unit :=
  row ← read (λ d, tbl d !! id);
  match row with
  | None => throw
  | Some _ => write (set (alter f id))
  end.

(** A relation field of a created row must point to an existing row (the
    relations are the ones the handlers [include]); otherwise the store
    refuses the row and the call throws. *)
Definition references {V} (tbl : Db → gmap Id V) (id : Id) : Handler unit :=
  row ← read (λ d, tbl d !! id);
  match row with
  | None => throw
  | Some _ => mret tt
  end.

(** ** Phase controller: [socket.on('change_phase', ...)] *)

Record ChangePhaseData := {
  cp_sessionId : jsstring;
  cp_phase : SessionPhase;
  cp_timerDuration : option Z;      (* z.number().optional(), in seconds *)
  cp_stopTimer : option bool        (* z.boolean().optional() *)
}.

(** Truthiness of an optional number and of an optional boolean. *)
Definition truthy_number (x : option Z) : bool :=
  match x with
  | Some d => negb (d =? 0)
  | None => false
  end.

Definition truthy_boolean (x : option bool) : bool :=
  match x with
  | Some b => b
  | None => false
  end.

(** [new Date(ms)]: a time value beyond 8.64e15 ms on either side of the
    epoch gives an Invalid Date, which the store refuses to write
    ([update] throws) and on which [toISOString] throws. *)
Definition valid_date (ms : Z) : bool :=
  (-8640000000000000 <=? ms) && (ms <=? 8640000000000000).

Definition set_phase_and_timer
    (phase : SessionPhase) (duration endTime : option Z) (s : Session) : Session :=
  {| s_inviteCode := s_inviteCode s; s_hostId := s_hostId s;
     s_title := s_title s; s_currentPhase := phase;
     s_timerDuration := duration; s_timerEndTime := endTime |}.

Definition change_phase_body (socket_id : Id) (now : Z) (data : ChangePhaseData)
  : Handler unit :=
  (* changePhaseSchema.parse(data) *)
  guard (is_uuid (cp_sessionId data));;
  let sessionId := cp_sessionId data in
  let phase := cp_phase data in
  let timerDuration := cp_timerDuration data in
  let stopTimer := cp_stopTimer data in
  session ← read (λ d, sessions d !! sessionId);
  session_participants ← read (λ d,
    findMany (λ x, p_sessionId x.2 = sessionId ∧ p_socketId x.2 = Some socket_id)
             (participants d));
  match session with
  | None => reject "Unauthorized to change phase"
  | Some session =>
      if negb (from_option (λ x, p_isHost x.2) false (head session_participants))
      then reject "Unauthorized to change phase"
      else
        let timerEndTime :=
          if truthy_boolean stopTimer then None
          else if truthy_number timerDuration
               then (λ d, now + d * 1000) <$> timerDuration
               else None in
        guard (from_option valid_date true timerEndTime);;
        update sessions set_sessions sessionId
          (set_phase_and_timer phase
             (if truthy_number timerDuration then timerDuration
              else s_timerDuration session)
             (if truthy_boolean stopTimer then None else timerEndTime));;
        emit (phase_changed sessionId phase timerEndTime)
  end.

Definition change_phase (socket_id : Id) (now : Z) (data : ChangePhaseData)
  : World → World :=
  try_catch (change_phase_body socket_id now data) "Failed to change phase".

(** The requesting connection is bound to a host participant of the session. *)
Definition bound_to_host (d : Db) (sessionId socket_id : Id) : Prop :=
  ∃ pid p, participants d !! pid = Some p ∧ p_sessionId p = sessionId ∧
           p_socketId p = Some socket_id ∧ p_isHost p = true.

(** The command was answered with an [error] notification. *)
Definition rejected (w w' : World) : Prop :=
  ∃ message, emitted w' = emitted w ++ [error message].

(** Every participant of the session bound to the connection is a host,
    and there is one: whichever of them the store lists first, the
    request is authorised. *)
Definition authorized (d : Db) (sessionId socket_id : Id) : Prop :=
  bound_to_host d sessionId socket_id ∧
  ∀ pid p, participants d !! pid = Some p → p_sessionId p = sessionId →
           p_socketId p = Some socket_id → p_isHost p = true.


(** The end time a [change_phase] asks for: none with [stopTimer], and
    none without a duration. *)
Definition requested_end_time (now : Z) (data : ChangePhaseData) : option Z :=
  if truthy_boolean (cp_stopTimer data) then None
  else if truthy_number (cp_timerDuration data)
       then (λ d, now + d * 1000) <$> cp_timerDuration data
       else None.

(** ** Board store: [socket.on('create_connection', ...)] *)

Record CreateConnectionData := {
  cc_sessionId : jsstring;
  cc_fromResponseId : jsstring;
  cc_toResponseId : jsstring
}.

Definition create_connection_body (new_id : Id) (data : CreateConnectionData)
  : Handler unit :=
  (* createConnectionSchema.parse(data) *)
  guard (is_uuid (cc_sessionId data) && is_uuid (cc_fromResponseId data)
         && is_uuid (cc_toResponseId data));;
  let sessionId := cc_sessionId data in
  let fromResponseId := cc_fromResponseId data in
  let toResponseId := cc_toResponseId data in
  (* Check if connection already exists *)
  existingConnection ← read (λ d,
    findFirst (λ x, c_sessionId x.2 = sessionId ∧
                    (c_fromResponseId x.2 = fromResponseId ∧
                       c_toResponseId x.2 = toResponseId
                     ∨ c_fromResponseId x.2 = toResponseId ∧
                       c_toResponseId x.2 = fromResponseId))
              (connections d));
  match existingConnection with
  | Some _ => reject "Connection already exists"
  | None =>
      (* Verify both responses exist and belong to the session *)
      found ← read (λ d,
        findMany (λ x, x.1 ∈ [fromResponseId; toResponseId] ∧
                       r_sessionId x.2 = sessionId)
                 (responses d));
      if negb (length found =? 2)%nat
      then reject "Invalid responses for connection"
      else
        let connection :=
          {| c_sessionId := sessionId; c_fromResponseId := fromResponseId;
             c_toResponseId := toResponseId |} in
        create connections set_connections new_id connection;;
        emit (connection_created sessionId new_id connection)
  end.

(** [new_id] is the primary key the store generates for the new row. *)
Definition create_connection (new_id : Id) (data : CreateConnectionData)
  : World → World :=
  try_catch (create_connection_body new_id data) "Failed to create connection".

(** ** Board store: [socket.on('remove_connection', ...)] *)

Definition remove_connection_body (sessionId connectionId : jsstring)
  : Handler unit :=
  (* removeConnectionSchema.parse(data) *)
  guard (is_uuid sessionId && is_uuid connectionId);;
  (* Verify connection exists and belongs to session *)
  connection ← read (λ d,
    findFirst (λ x, x.1 = connectionId ∧ c_sessionId x.2 = sessionId)
              (connections d));
  match connection with
  | None => reject "Connection not found"
  | Some _ =>
      write (set_connections (delete connectionId));;
      emit (connection_removed sessionId connectionId)
  end.

Definition remove_connection (sessionId connectionId : jsstring)
  : World → World :=
  try_catch (remove_connection_body sessionId connectionId)
            "Failed to remove connection".

(** There is an edge between the two responses, in either declaration
    order. *)
Definition edge (d : Db) (a b : Id) : Prop :=
  ∃ cid c, connections d !! cid = Some c ∧
    (c_fromResponseId c = a ∧ c_toResponseId c = b
     ∨ c_fromResponseId c = b ∧ c_toResponseId c = a).

(** The response exists and belongs to the session. *)
Definition in_session (d : Db) (sessionId rid : Id) : Prop :=
  r_sessionId <$> responses d !! rid = Some sessionId.

#[global] Instance in_session_dec d sessionId rid :
  Decision (in_session d sessionId rid).
Proof. unfold in_session. apply _. Defined.

(** The connection of the session between the two responses that the
    handler looks for. *)
Definition existing_edge (sessionId a b : Id) (x : Id * Connection) : Prop :=
  c_sessionId x.2 = sessionId ∧
  (c_fromResponseId x.2 = a ∧ c_toResponseId x.2 = b
   ∨ c_fromResponseId x.2 = b ∧ c_toResponseId x.2 = a).

(** [createConnectionSchema.parse(data)] succeeds. *)
Definition valid_connection (data : CreateConnectionData) : bool :=
  is_uuid (cc_sessionId data) && is_uuid (cc_fromResponseId data)
  && is_uuid (cc_toResponseId data).

(** The world after a command that is refused with the given message. *)
Definition refused (message : string) (w : World) : World :=
  {| db := db w; emitted := emitted w ++ [error message] |}.

(** The connection a request stores, and the world after storing it. *)
Definition connection_of (data : CreateConnectionData) : Connection :=
  {| c_sessionId := cc_sessionId data;
     c_fromResponseId := cc_fromResponseId data;
     c_toResponseId := cc_toResponseId data |}.

Definition connected (new_id : Id) (data : CreateConnectionData) (w : World)
  : World :=
  {| db := set_connections (insert new_id (connection_of data)) (db w);
     emitted := emitted w ++
       [connection_created (cc_sessionId data) new_id (connection_of data)] |}.

(** The request with its endpoints exchanged. *)
Definition swap (data : CreateConnectionData) : CreateConnectionData :=
  {| cc_sessionId := cc_sessionId data;
     cc_fromResponseId := cc_toResponseId data;
     cc_toResponseId := cc_fromResponseId data |}.

(** A connection carries the session of its endpoints. *)
Definition connections_scoped (d : Db) : Prop :=
  ∀ cid c rid r, connections d !! cid = Some c →
    rid = c_fromResponseId c ∨ rid = c_toResponseId c →
    responses d !! rid = Some r → r_sessionId r = c_sessionId c.

(** At most one edge per unordered pair of responses. *)
Definition one_edge_per_pair (d : Db) : Prop :=
  ∀ cid1 c1 cid2 c2, connections d !! cid1 = Some c1 →
    connections d !! cid2 = Some c2 →
    (c_fromResponseId c1 = c_fromResponseId c2 ∧
       c_toResponseId c1 = c_toResponseId c2
     ∨ c_fromResponseId c1 = c_toResponseId c2 ∧
       c_toResponseId c1 = c_fromResponseId c2) →
    cid1 = cid2.

(** ** Group materializer and voting ledger: [socket.on('cast_vote', ...)] *)

Record VoteData := {
  vd_sessionId : jsstring;
  vd_participantId : jsstring;
  vd_groupId : jsstring;   (* a group UUID, "individual-..." or "connected-..." *)
  vd_voteCount : Z
}.

(** [s.length > n ? s.substring(0, n) + '...' : s] *)
Definition ellipsize (n : nat) (s : jsstring) : jsstring :=
  if (n <? length s)%nat then substring0 n s ++ js "..." else s.

(** The separator [' • '] of the label of a chain: a space, U+2022 and a
    space. *)
Definition bullet : jsstring := [32; 8226; 32]%N.

Definition category_color (c : Category) : jsstring :=
  if decide (c = WENT_WELL) then js "#10b981" else js "#ef4444".

(** [x || 0] on a number *)
Definition or_zero (x : Z) : Z := if x =? 0 then 0 else x.

Definition set_groupId (g : option Id) (r : Response) : Response :=
  {| r_sessionId := r_sessionId r; r_participantId := r_participantId r;
     r_content := r_content r; r_category := r_category r;
     r_positionX := r_positionX r; r_positionY := r_positionY r;
     r_groupId := g |}.

Definition set_voteCount (n : Z) (g : Group) : Group :=
  {| g_sessionId := g_sessionId g; g_label := g_label g; g_color := g_color g;
     g_positionX := g_positionX g; g_positionY := g_positionY g;
     g_voteCount := n |}.

(** [prisma.group.create]: the group's session must exist. *)
Definition group_create (new_id : Id) (g : Group) : Handler unit :=
  references sessions (g_sessionId g);;
  create groups set_groups new_id g.

(** The response ids of a chain identifier [connected-uuid1--uuid2--uuid3]. *)
Definition chain_ids (groupId : jsstring) : list Id :=
  split (js "--") (replace (js "connected-") [] groupId).

(** The ungrouped responses of the session among the given ids. *)
Definition ungrouped_in (sessionId : Id) (ids : list Id) (d : Db)
  : list (Id * Response) :=
  findMany (λ x, x.1 ∈ ids ∧ r_sessionId x.2 = sessionId ∧ r_groupId x.2 = None)
           (responses d).

(** The grouped responses of the session among the given ids. *)
Definition grouped_in (sessionId : Id) (ids : list Id) (d : Db)
  : list (Id * Response) :=
  findMany (λ x, x.1 ∈ ids ∧ r_sessionId x.2 = sessionId ∧ r_groupId x.2 ≠ None)
           (responses d).

Definition chain_label (found : list (Id * Response)) : jsstring :=
  ellipsize 80 (join bullet ((λ x, ellipsize 20 (r_content x.2)) <$> found)).

(** The first half of the handler: from the [groupId] of the command to
    [actualGroupId], creating a group for a chain or for an individual
    response that has none.  [new_id] is the primary key the store
    generates if a group is created. *)
Definition resolve_target (sessionId : Id) (groupId : jsstring) (new_id : Id)
  : Handler Id :=
  if startsWith (js "connected-") groupId then
    let responseIds := chain_ids groupId in
    (* Validate that we have valid UUIDs *)
    if (length responseIds =? 0)%nat
       || existsb (λ id, negb (is_uuid id)) responseIds
    then reject "Invalid connected group format"
    else
      (* First, check if any of these responses are already grouped *)
      existingGroupedResponses ← read (grouped_in sessionId responseIds);
      match existingGroupedResponses with
      | first :: _ =>
          (* Use the existing group from the first grouped response *)
          match r_groupId first.2 with
          | Some g => mret g
          | None => throw
          end
      | [] =>
          found ← read (ungrouped_in sessionId responseIds);
          match found with
          | [] => reject "Connected responses not found or already grouped"
          | first :: _ =>
              group_create new_id
                {| g_sessionId := sessionId;
                   g_label := chain_label found;
                   g_color := category_color (r_category first.2);
                   g_positionX := or_zero (r_positionX first.2);
                   g_positionY := or_zero (r_positionY first.2);
                   g_voteCount := 0 |};;
              (* Assign all connected responses to this group *)
              write (set_responses
                       (updateMany (λ x, x.1 ∈ responseIds)
                                   (set_groupId (Some new_id))));;
              emit (connected_group_created sessionId new_id responseIds);;
              mret new_id
          end
      end
  else if startsWith (js "individual-") groupId then
    let responseId := replace (js "individual-") [] groupId in
    (* Check if we already have a group for this individual response *)
    existingGroup ← read (λ d,
      findFirst (λ x, g_sessionId x.2 = sessionId ∧
                      responses d !! responseId ≫= r_groupId = Some x.1)
                (groups d));
    match existingGroup with
    | None =>
        response ← read (λ d, responses d !! responseId);
        match response with
        | None => reject "Response not found"
        | Some response =>
            group_create new_id
              {| g_sessionId := sessionId;
                 g_label := ellipsize 30 (r_content response);
                 g_color := category_color (r_category response);
                 g_positionX := r_positionX response;
                 g_positionY := r_positionY response;
                 g_voteCount := 0 |};;
            (* Assign the response to this group *)
            update responses set_responses responseId (set_groupId (Some new_id));;
            emit (connected_group_created sessionId new_id [responseId]);;
            mret new_id
        end
    | Some existingGroup => mret existingGroup.1
    end
  else mret groupId.

(** [prisma.vote.aggregate({ where, _sum: { voteCount: true } })] followed
    by [_sum.voteCount || 0]: the sum over the selected rows, 0 when
    there is none. *)
Definition sum_votes (P : (Id * Id) * Vote → Prop) `{!∀ x, Decision (P x)}
    (t : gmap (Id * Id) Vote) : Z :=
  map_fold (λ _ v acc, v_voteCount v + acc) 0 (filter P t).

(** [getExistingVoteCount]: [vote?.voteCount || 0] *)
Definition getExistingVoteCount (participantId groupId : Id) (d : Db) : Z :=
  from_option v_voteCount 0 (votes d !! (participantId, groupId)).

(** What a participant has allocated in the session, over all groups. *)
Definition allocated (sessionId participantId : Id) (d : Db) : Z :=
  sum_votes (λ x, v_sessionId x.2 = sessionId ∧ x.1.1 = participantId) (votes d).

(** The sum of the Vote rows of a group. *)
Definition group_total (groupId : Id) (d : Db) : Z :=
  sum_votes (λ x, x.1.2 = groupId) (votes d).

(** [prisma.vote.upsert], on the compound key [participantId_groupId];
    a new row must reference an existing session, participant and group. *)
Definition vote_upsert (sessionId participantId groupId : Id) (voteCount : Z)
  : Handler unit :=
  row ← read (λ d, votes d !! (participantId, groupId));
  match row with
  | Some v =>
      write (set_votes (insert (participantId, groupId)
               {| v_sessionId := v_sessionId v; v_voteCount := voteCount |}))
  | None =>
      references sessions sessionId;;
      references participants participantId;;
      references groups groupId;;
      write (set_votes (insert (participantId, groupId)
               {| v_sessionId := sessionId; v_voteCount := voteCount |}))
  end.

(** The remaining budget of every participant of the session:
    [4 - totalUsedVotes], from the Vote rows of the session. *)
Definition participantProgress (sessionId : Id) (d : Db) : gmap Id Z :=
  map_imap (λ pid p,
      if decide (p_sessionId p = sessionId)
      then Some (4 - sum_votes (λ x, v_sessionId x.2 = sessionId ∧ x.1.1 = pid)
                               (votes d))
      else None)
    (participants d).

(** The second half of the handler: the quota check, the write to the
    ledger, the recomputed total of the group and the broadcast. *)
Definition settle_vote (sessionId participantId : Id) (groupId : jsstring)
    (actualGroupId : Id) (voteCount : Z) : Handler unit :=
  currentTotal ← read (allocated sessionId participantId);
  existing ← read (getExistingVoteCount participantId actualGroupId);
  if currentTotal - existing + voteCount >? 4
  then reject "Insufficient votes remaining"
  else
    (if voteCount =? 0
     then write (set_votes
                   (deleteMany (λ x, x.1.1 = participantId ∧ x.1.2 = actualGroupId)))
     else vote_upsert sessionId participantId actualGroupId voteCount);;
    totalGroupVotes ← read (group_total actualGroupId);
    (* Update the group's vote count *)
    update groups set_groups actualGroupId (set_voteCount totalGroupVotes);;
    progress ← read (participantProgress sessionId);
    emit (votes_updated sessionId groupId totalGroupVotes progress).

(** [voteSchema.parse(data)] *)
Definition valid_vote (data : VoteData) : bool :=
  is_uuid (vd_sessionId data) && is_uuid (vd_participantId data)
  && (0 <=? vd_voteCount data) && (vd_voteCount data <=? 4).

Definition cast_vote_body (new_id : Id) (data : VoteData) : Handler unit :=
  guard (valid_vote data);;
  actualGroupId ← resolve_target (vd_sessionId data) (vd_groupId data) new_id;
  settle_vote (vd_sessionId data) (vd_participantId data) (vd_groupId data)
              actualGroupId (vd_voteCount data).

Definition cast_vote (new_id : Id) (data : VoteData) : World → World :=
  try_catch (cast_vote_body new_id data) "Failed to cast vote".


(** The ledger an accepted [cast_vote] leaves: the row of (participant,
    group) deleted for a count of 0, and otherwise holding exactly the
    count (a row that existed keeps its session). *)
Definition ledger_after (sessionId participantId groupId : Id) (voteCount : Z)
    (t : gmap (Id * Id) Vote) : gmap (Id * Id) Vote :=
  if voteCount =? 0 then delete (participantId, groupId) t
  else <[(participantId, groupId) :=
           {| v_sessionId := from_option v_sessionId sessionId
                               (t !! (participantId, groupId));
              v_voteCount := voteCount |}]> t.

(** The store an accepted [cast_vote] leaves, from the store in which the
    target was resolved. *)
Definition store_after (sessionId participantId groupId : Id) (voteCount : Z)
    (d : Db) : Db :=
  let d' := set_votes (ledger_after sessionId participantId groupId voteCount) d in
  set_groups (alter (set_voteCount (group_total groupId d')) groupId) d'.

(** The command ran to its end: its last event is the [votes_updated]
    broadcast. *)
Definition accepted (w w' : World) : Prop :=
  ∃ room groupId total progress,
    emitted w' = emitted w ++ [votes_updated room groupId total progress].


(** The command was answered with the given [error] message. *)
Definition rejected_with (message : string) (w w' : World) : Prop :=
  emitted w' = emitted w ++ [error message].


(** ** REST routes: [POST /api/sessions] and [POST /api/sessions/join] *)

Inductive HttpReply :=
  | http_created (participantId : Id)      (* res.status(201).json(...) *)
  | http_error (status : nat) (error : string).

Record CreateSessionData := {
  cs_title : option jsstring;
  cs_hostName : jsstring;
  cs_hostAvatar : jsstring
}.

Record JoinData := {
  j_inviteCode : jsstring;
  j_displayName : jsstring;
  j_avatarId : jsstring
}.

(** [z.string().min(lo).max(hi)] *)
Definition length_between (lo hi : nat) (s : jsstring) : bool :=
  (lo <=? length s)%nat && (length s <=? hi)%nat.

(** The participants of a session: [include: { participants: true }]. *)
Definition session_participants (d : Db) (sessionId : Id)
  : list (Id * Participant) :=
  findMany (λ x, p_sessionId x.2 = sessionId) (participants d).

Section routes.
(** [String.prototype.toLowerCase] is left abstract. *)
Variable toLowerCase : jsstring → jsstring.
(** The defaults of the columns of a new session are declared in the
    Prisma schema, which is not part of the sources. *)
Variable default_phase : SessionPhase.
Variable default_timerDuration : option Z.

(** [router.post('/')].  [sessionId] and [hostId] are the results of
    [uuidv4()], [inviteCode] is the result of [generateInviteCode()]; a
    primary key or an invite code that is already taken makes
    [prisma.session.create] throw, which is answered with 500. *)
Definition create_session_route (sessionId hostId : Id) (inviteCode : jsstring)
    (now : Z) (data : CreateSessionData) (d : Db) : HttpReply * Db :=
  if negb (from_option (length_between 1 255) true (cs_title data)
           && length_between 1 50 (cs_hostName data)
           && length_between 1 20 (cs_hostAvatar data))
  then (http_error 400 "Invalid request data", d)
  else
    let session :=
      {| s_inviteCode := inviteCode; s_hostId := hostId;
         s_title := from_option id (js "Retrospective") (cs_title data);
         s_currentPhase := default_phase;
         s_timerDuration := default_timerDuration;
         s_timerEndTime := None |} in
    let host :=
      {| p_sessionId := sessionId; p_displayName := cs_hostName data;
         p_avatarId := cs_hostAvatar data; p_isHost := true;
         p_socketId := None; p_lastActive := now |} in
    match sessions d !! sessionId, participants d !! hostId,
          findFirst (λ x, s_inviteCode x.2 = inviteCode) (sessions d) with
    | None, None, None =>
        (http_created hostId,
         set_participants (insert hostId host)
           (set_sessions (insert sessionId session) d))
    | _, _, _ => (http_error 500 "Failed to create session", d)
    end.

(** [router.post('/join')].  [new_id] is the primary key the store
    generates for the participant. *)
Definition join_route (new_id : Id) (now : Z) (data : JoinData) (d : Db)
  : HttpReply * Db :=
  if negb ((length (j_inviteCode data) =? 8)%nat
           && length_between 1 50 (j_displayName data)
           && length_between 1 20 (j_avatarId data))
  then (http_error 400 "Invalid request data", d)
  else
    match findFirst (λ x, s_inviteCode x.2 = j_inviteCode data) (sessions d) with
    | None => (http_error 404 "Session not found", d)
    | Some session =>
        let session_participants := session_participants d session.1 in
        if (15 <=? length session_participants)%nat
        then (http_error 400 "Session is full", d)
        else
          let existingParticipant :=
            List.find (λ x, bool_decide (toLowerCase (p_displayName x.2)
                                         = toLowerCase (j_displayName data)))
                      session_participants in
          match existingParticipant with
          | Some _ => (http_error 400 "Display name already taken", d)
          | None =>
              match participants d !! new_id with
              | Some _ => (http_error 500 "Failed to join session", d)
              | None =>
                  (http_created new_id,
                   set_participants
                     (insert new_id
                        {| p_sessionId := session.1;
                           p_displayName := j_displayName data;
                           p_avatarId := j_avatarId data; p_isHost := false;
                           p_socketId := None; p_lastActive := now |}) d)
              end
          end
    end.
End routes.


(** Every participant belongs to a session of the store. *)
Definition participants_have_session (d : Db) : Prop :=
  ∀ pid p, participants d !! pid = Some p → is_Some (sessions d !! p_sessionId p).


(** ** Board store: [socket.on('add_response', ...)] *)

Record ResponseData := {
  rd_sessionId : jsstring;
  rd_participantId : jsstring;
  rd_content : jsstring;
  rd_category : Category
}.

Section add_response.
(** The default position of a new response is declared in the Prisma
    schema, which is not part of the sources. *)
Variable default_positionX default_positionY : Z.

Definition add_response_body (new_id : Id) (data : ResponseData) : Handler unit :=
  (* responseSchema.parse(data) *)
  guard (is_uuid (rd_sessionId data) && is_uuid (rd_participantId data)
         && length_between 1 500 (rd_content data));;
  let response :=
    {| r_sessionId := rd_sessionId data;
       r_participantId := rd_participantId data;
       r_content := rd_content data; r_category := rd_category data;
       r_positionX := default_positionX; r_positionY := default_positionY;
       r_groupId := None |} in
  references sessions (rd_sessionId data);;
  references participants (rd_participantId data);;
  create responses set_responses new_id response;;
  emit (response_added new_id response).

Definition add_response (new_id : Id) (data : ResponseData) : World → World :=
  try_catch (add_response_body new_id data) "Failed to add response".
End add_response.

(** ** Board store: [socket.on('update_response', ...)] *)

Definition set_content (content : jsstring) (r : Response) : Response :=
  {| r_sessionId := r_sessionId r; r_participantId := r_participantId r;
     r_content := content; r_category := r_category r;
     r_positionX := r_positionX r; r_positionY := r_positionY r;
     r_groupId := r_groupId r |}.

(** The author of the response is bound to the connection: the relation
    filter [participant: { socketId: socket.id }]. *)
Definition authored_on (d : Db) (socket_id : Id) (r : Response) : Prop :=
  participants d !! r_participantId r ≫= p_socketId = Some socket_id.

#[global] Instance authored_on_dec d socket_id r : Decision (authored_on d socket_id r).
Proof. unfold authored_on. apply _. Defined.

Definition update_response_body (socket_id : Id) (responseId content : jsstring)
  : Handler unit :=
  guard (is_uuid responseId && length_between 1 500 content);;
  response ← read (λ d,
    findFirst (λ x, x.1 = responseId ∧ authored_on d socket_id x.2) (responses d));
  match response with
  | None => reject "Response not found or unauthorized"
  | Some response =>
      update responses set_responses responseId (set_content content);;
      emit (response_updated responseId (set_content content response.2))
  end.

Definition update_response (socket_id : Id) (responseId content : jsstring)
  : World → World :=
  try_catch (update_response_body socket_id responseId content)
            "Failed to update response".

(** ** Presence: [socket.on('join_session', ...)], [socket.on('disconnect', ...)]
    and the typing indicators *)

(** [try { body } catch (error) { console.error(...) }]: the handler
    answers nothing when the body throws. *)
Definition try_log (body : Handler unit) (w : World) : World := (body w).2.

Definition set_socket (socketId : option Id) (now : Z) (p : Participant)
  : Participant :=
  {| p_sessionId := p_sessionId p; p_displayName := p_displayName p;
     p_avatarId := p_avatarId p; p_isHost := p_isHost p;
     p_socketId := socketId; p_lastActive := now |}.

(** [socket_id] is [socket.id] and [now] the value of [new Date()].  The
    participant of the [session_joined] payload is the row read before
    the update. *)
Definition join_session_body (socket_id : Id) (now : Z)
    (sessionId participantId : jsstring) : Handler unit :=
  (* joinSessionSchema.parse(data) *)
  guard (is_uuid sessionId && is_uuid participantId);;
  participant ← read (λ d,
    findFirst (λ x, x.1 = participantId ∧ p_sessionId x.2 = sessionId)
              (participants d));
  match participant with
  | None => reject "Participant not found"
  | Some participant =>
      (* include: { session: true } *)
      session ← read (λ d, sessions d !! sessionId);
      update participants set_participants participantId
        (set_socket (Some socket_id) now);;
      emit (room_joined sessionId);;
      participants ← read (λ d, session_participants d sessionId);
      emit (session_joined session participant participants);;
      emit (participant_joined sessionId participant.1
              (p_displayName participant.2) (p_avatarId participant.2)
              (p_isHost participant.2));;
      emit (redis_setEx (js "participant:" ++ participantId) 3600 socket_id)
  end.

Definition join_session (socket_id : Id) (now : Z)
    (sessionId participantId : jsstring) : World → World :=
  try_catch (join_session_body socket_id now sessionId participantId)
            "Invalid session data".

Definition disconnect_body (socket_id : Id) (now : Z) : Handler unit :=
  participant ← read (λ d,
    findFirst (λ x, p_socketId x.2 = Some socket_id) (participants d));
  match participant with
  | None => mret tt
  | Some participant =>
      update participants set_participants participant.1 (set_socket None now);;
      emit (participant_left (p_sessionId participant.2) participant.1);;
      emit (redis_del (js "participant:" ++ participant.1));;
      emit (redis_del (js "typing:" ++ p_sessionId participant.2 ++ js ":"
                       ++ participant.1))
  end.

Definition disconnect (socket_id : Id) (now : Z) : World → World :=
  try_log (disconnect_body socket_id now).

Definition typing_start (socket_id : Id) (sessionId participantId : jsstring)
  : World → World :=
  try_log (
    guard (is_uuid sessionId && is_uuid participantId);;
    emit (participant_typing_start sessionId participantId);;
    emit (redis_setEx (js "typing:" ++ sessionId ++ js ":" ++ participantId)
            10 socket_id)).

Definition typing_stop (sessionId participantId : jsstring) : World → World :=
  try_log (
    guard (is_uuid sessionId && is_uuid participantId);;
    emit (participant_typing_stop sessionId participantId);;
    emit (redis_del (js "typing:" ++ sessionId ++ js ":" ++ participantId))).

(** ** Presentation: [start_presentation], [end_presentation] and
    [navigate_presentation] *)

(** [where: { socketId: socket.id, sessionId, isHost: true }] *)
Definition host_on (socket_id sessionId : Id) (x : Id * Participant) : Prop :=
  p_socketId x.2 = Some socket_id ∧ p_sessionId x.2 = sessionId
  ∧ p_isHost x.2 = true.

#[global] Instance host_on_dec socket_id sessionId x :
  Decision (host_on socket_id sessionId x).
Proof. unfold host_on. apply _. Defined.

Definition start_presentation_body (socket_id : Id) (sessionId : jsstring)
  : Handler unit :=
  (* presentationSchema.parse(data) *)
  guard (is_uuid sessionId);;
  (* Verify host permissions *)
  participant ← read (λ d, findFirst (host_on socket_id sessionId) (participants d));
  match participant with
  | None => reject "Unauthorized to start presentation"
  | Some _ => emit (presentation_started sessionId)
  end.

Definition start_presentation (socket_id : Id) (sessionId : jsstring)
  : World → World :=
  try_catch (start_presentation_body socket_id sessionId)
            "Failed to start presentation".

Definition end_presentation_body (socket_id : Id) (sessionId : jsstring)
  : Handler unit :=
  guard (is_uuid sessionId);;
  participant ← read (λ d, findFirst (host_on socket_id sessionId) (participants d));
  match participant with
  | None => reject "Unauthorized to end presentation"
  | Some _ => emit (presentation_ended sessionId)
  end.

Definition end_presentation (socket_id : Id) (sessionId : jsstring)
  : World → World :=
  try_catch (end_presentation_body socket_id sessionId)
            "Failed to end presentation".

Definition navigate_presentation_body (socket_id : Id) (sessionId : jsstring)
    (itemIndex : Z) : Handler unit :=
  (* navigatePresentationSchema.parse(data) *)
  guard (is_uuid sessionId && (0 <=? itemIndex));;
  participant ← read (λ d, findFirst (host_on socket_id sessionId) (participants d));
  match participant with
  | None => reject "Unauthorized to navigate presentation"
  | Some _ => emit (presentation_navigate sessionId itemIndex)
  end.

Definition navigate_presentation (socket_id : Id) (sessionId : jsstring)
    (itemIndex : Z) : World → World :=
  try_catch (navigate_presentation_body socket_id sessionId itemIndex)
            "Failed to navigate presentation".

(** ** REST routes: [generateInviteCode] and [PATCH /api/sessions/:sessionId/phase] *)

Definition chars : jsstring := js "ABCDEFGHIJKLMNPQRSTUVWXYZ123456789".

(** [s.charAt(i)]: the empty string when [i] is out of range. *)
Definition charAt (s : jsstring) (i : nat) : jsstring :=
  from_option (λ c, [c]) [] (s !! i).

(** The loop of [generateInviteCode] from iteration [i], with [n]
    iterations to go.  [random i] is the value of
    [Math.floor(Math.random() * chars.length)] at iteration [i]. *)
Fixpoint generateInviteCode_from (random : nat → nat) (i n : nat)
    (result : jsstring) : jsstring :=
  match n with
  | O => result
  | S n' =>
      generateInviteCode_from random (S i) n' (result ++ charAt chars (random i))
  end.

Definition generateInviteCode (random : nat → nat) : jsstring :=
  generateInviteCode_from random 0 8 [].

Inductive PhaseReply :=
  | phase_ok (session : Session)               (* res.json(session) *)
  | phase_error (status : nat) (error : string).

(** [router.patch('/:sessionId/phase')]: no participant is looked up. *)
Definition patch_phase_route (now : Z) (sessionId : jsstring)
    (phase : SessionPhase) (timerDuration : option Z) (d : Db) : PhaseReply * Db :=
  if negb (is_uuid sessionId) then (phase_error 400 "Invalid request data", d)
  else
    let timerEndTime :=
      if truthy_number timerDuration
      then (λ t, now + t * 1000) <$> timerDuration
      else None in
    match sessions d !! sessionId with
    | None => (phase_error 500 "Failed to update phase", d)
    | Some session =>
        if negb (from_option valid_date true timerEndTime)
        then (phase_error 500 "Failed to update phase", d)
        else
          let session :=
            set_phase_and_timer phase
              (if truthy_number timerDuration then timerDuration
               else s_timerDuration session)
              timerEndTime session in
          (phase_ok session, set_sessions (insert sessionId session) d)
    end.

(** ** REST routes: [GET /api/participants/:participantId/votes] and
    [PATCH /api/participants/:participantId] *)

Inductive VotesReply :=
  | votes_ok (votes : list ((Id * Id) * Vote)) (totalVotes remainingVotes : Z)
  | votes_error (status : nat) (error : string).

(** [router.get('/:participantId/votes')]: the participant is not looked
    up. *)
Definition get_votes_route (participantId : jsstring) (d : Db) : VotesReply :=
  if negb (is_uuid participantId) then votes_error 400 "Invalid participant ID"
  else
    let votes := findMany (λ x, x.1.1 = participantId) (votes d) in
    let totalVotes := foldl (λ sum vote, sum + v_voteCount vote.2) 0 votes in
    let remainingVotes := Z.max 0 (4 - totalVotes) in
    votes_ok votes totalVotes remainingVotes.

Record UpdateParticipantData := {
  up_displayName : option jsstring;
  up_avatarId : option jsstring
}.

Inductive ParticipantReply :=
  | participant_ok (participant : Participant)      (* res.json(updatedParticipant) *)
  | participant_error (status : nat) (error : string).

Definition set_profile (data : UpdateParticipantData) (p : Participant)
  : Participant :=
  {| p_sessionId := p_sessionId p;
     p_displayName := from_option id (p_displayName p) (up_displayName data);
     p_avatarId := from_option id (p_avatarId p) (up_avatarId data);
     p_isHost := p_isHost p; p_socketId := p_socketId p;
     p_lastActive := p_lastActive p |}.

Section participant_routes.
(** The comparison of the store under [mode: 'insensitive'] is left
    abstract. *)
Variable equals_insensitive : jsstring → jsstring → bool.

(** [router.patch('/:participantId')] *)
Definition patch_participant_route (participantId : jsstring)
    (data : UpdateParticipantData) (d : Db) : ParticipantReply * Db :=
  if negb (is_uuid participantId
           && from_option (length_between 1 50) true (up_displayName data)
           && from_option (length_between 1 20) true (up_avatarId data))
  then (participant_error 400 "Invalid request data", d)
  else
    let update :=
      match participants d !! participantId with
      | None => (participant_error 500 "Failed to update participant", d)
      | Some participant =>
          (participant_ok (set_profile data participant),
           set_participants (insert participantId (set_profile data participant)) d)
      end in
    match up_displayName data, up_avatarId data with
    | None, None => (participant_error 400 "No update data provided", d)
    | None, Some _ => update
    | Some displayName, _ =>
        match participants d !! participantId with
        | None => (participant_error 404 "Participant not found", d)
        | Some participant =>
            let existingParticipant :=
              findFirst (λ x, p_sessionId x.2 = p_sessionId participant ∧
                              equals_insensitive (p_displayName x.2) displayName
                                = true ∧
                              x.1 ≠ participantId)
                        (participants d) in
            match existingParticipant with
            | Some _ => (participant_error 400 "Display name already taken", d)
            | None => update
            end
        end
    end.
End participant_routes.


(** ** The commands, one at a time

    The socket commands and the routes of [sessionRoutes.ts] that write
    to the store. *)

Inductive Command :=
  | JoinSession (socket_id : Id) (now : Z) (sessionId participantId : jsstring)
  | ChangePhase (socket_id : Id) (now : Z) (data : ChangePhaseData)
  | TypingStart (socket_id : Id) (sessionId participantId : jsstring)
  | TypingStop (sessionId participantId : jsstring)
  | AddResponse (new_id : Id) (data : ResponseData)
  | UpdateResponse (socket_id : Id) (responseId content : jsstring)
  | CreateConnection (new_id : Id) (data : CreateConnectionData)
  | RemoveConnection (sessionId connectionId : jsstring)
  | CastVote (new_id : Id) (data : VoteData)
  | StartPresentation (socket_id : Id) (sessionId : jsstring)
  | EndPresentation (socket_id : Id) (sessionId : jsstring)
  | NavigatePresentation (socket_id : Id) (sessionId : jsstring) (itemIndex : Z)
  | Disconnect (socket_id : Id) (now : Z)
  | PostSession (sessionId hostId : Id) (inviteCode : jsstring) (now : Z)
      (data : CreateSessionData)
  | PostJoin (new_id : Id) (now : Z) (data : JoinData)
  | PatchPhase (now : Z) (sessionId : jsstring) (phase : SessionPhase)
      (timerDuration : option Z).

Section engine.
Variable toLowerCase : jsstring → jsstring.
Variable default_phase : SessionPhase.
Variable default_timerDuration : option Z.
Variable default_positionX default_positionY : Z.

(** The store after an HTTP request. *)
Definition served (d : Db) (w : World) : World :=
  {| db := d; emitted := emitted w |}.

Definition run (c : Command) (w : World) : World :=
  match c with
  | JoinSession socket_id now sessionId participantId =>
      join_session socket_id now sessionId participantId w
  | ChangePhase socket_id now data => change_phase socket_id now data w
  | TypingStart socket_id sessionId participantId =>
      typing_start socket_id sessionId participantId w
  | TypingStop sessionId participantId => typing_stop sessionId participantId w
  | AddResponse new_id data =>
      add_response default_positionX default_positionY new_id data w
  | UpdateResponse socket_id responseId content =>
      update_response socket_id responseId content w
  | CreateConnection new_id data => create_connection new_id data w
  | RemoveConnection sessionId connectionId =>
      remove_connection sessionId connectionId w
  | CastVote new_id data => cast_vote new_id data w
  | StartPresentation socket_id sessionId => start_presentation socket_id sessionId w
  | EndPresentation socket_id sessionId => end_presentation socket_id sessionId w
  | NavigatePresentation socket_id sessionId itemIndex =>
      navigate_presentation socket_id sessionId itemIndex w
  | Disconnect socket_id now => disconnect socket_id now w
  | PostSession sessionId hostId inviteCode now data =>
      served (create_session_route default_phase default_timerDuration
                sessionId hostId inviteCode now data (db w)).2 w
  | PostJoin new_id now data =>
      served (join_route toLowerCase new_id now data (db w)).2 w
  | PatchPhase now sessionId phase timerDuration =>
      served (patch_phase_route now sessionId phase timerDuration (db w)).2 w
  end.

(** The state after a sequence of commands on the empty store. *)
Definition run_all (cs : list Command) : World :=
  foldl (λ w c, run c w) {| db := empty_db; emitted := [] |} cs.
End engine.

(** ** What the commands maintain *)

(** Both endpoints of a connection are responses of the store. *)
Definition endpoints_exist (d : Db) : Prop :=
  ∀ cid c, connections d !! cid = Some c →
    is_Some (responses d !! c_fromResponseId c) ∧
    is_Some (responses d !! c_toResponseId c).

Definition board_invariant (d : Db) : Prop :=
  connections_scoped d ∧ endpoints_exist d ∧ one_edge_per_pair d.

(** The host of a session is the participant named by [hostId], and the
    only one. *)
Definition one_host (d : Db) : Prop :=
  ∀ sessionId s, sessions d !! sessionId = Some s →
    (∃ p, participants d !! s_hostId s = Some p ∧ p_sessionId p = sessionId) ∧
    ∀ pid p, participants d !! pid = Some p → p_sessionId p = sessionId →
             (p_isHost p = true ↔ pid = s_hostId s).

Definition invite_codes_unique (d : Db) : Prop :=
  ∀ id1 s1 id2 s2, sessions d !! id1 = Some s1 → sessions d !! id2 = Some s2 →
    s_inviteCode s1 = s_inviteCode s2 → id1 = id2.

(** No two participants of a session have the same name up to case. *)
Definition names_unique (toLowerCase : jsstring → jsstring) (d : Db) : Prop :=
  ∀ id1 p1 id2 p2, participants d !! id1 = Some p1 → participants d !! id2 = Some p2 →
    p_sessionId p1 = p_sessionId p2 →
    toLowerCase (p_displayName p1) = toLowerCase (p_displayName p2) → id1 = id2.

Definition people_invariant (toLowerCase : jsstring → jsstring) (d : Db) : Prop :=
  participants_have_session d ∧ one_host d ∧ invite_codes_unique d ∧
  names_unique toLowerCase d.

(** Every Vote row holds between one and four votes and references a
    group, a participant and a session of the store; every group counts
    the votes of its rows. *)
Definition ledger_invariant (d : Db) : Prop :=
  (∀ k v, votes d !! k = Some v →
     1 ≤ v_voteCount v ≤ 4 ∧ is_Some (groups d !! k.2) ∧
     is_Some (participants d !! k.1) ∧ is_Some (sessions d !! v_sessionId v)) ∧
  ∀ groupId g, groups d !! groupId = Some g → g_voteCount g = group_total groupId d.


(** What identifies a participant and a session: the connection and the
    time of last activity of the one, the phase and the timer of the
    other, are left out. *)
Definition identity (p : Participant) : Id * jsstring * jsstring * bool :=
  (p_sessionId p, p_displayName p, p_avatarId p, p_isHost p).

Definition session_identity (s : Session) : jsstring * Id * jsstring :=
  (s_inviteCode s, s_hostId s, s_title s).

(** The second store has the people of the first. *)
Definition same_people (d d' : Db) : Prop :=
  (∀ k, identity <$> participants d' !! k = identity <$> participants d !! k) ∧
  (∀ k, session_identity <$> sessions d' !! k = session_identity <$> sessions d !! k).

(** The second store has the connections of the first and the same
    responses, up to their group and content. *)
Definition same_board (d d' : Db) : Prop :=
  connections d' = connections d ∧
  ∀ k, set_content [] ∘ set_groupId None <$> responses d' !! k
       = set_content [] ∘ set_groupId None <$> responses d !! k.


(** The second store has the groups of the first up to their vote
    counts, and possibly more. *)
Definition groups_kept (d d' : Db) : Prop :=
  ∀ k g, groups d !! k = Some g →
    ∃ n, groups d' !! k = Some (set_voteCount n g).


(** The string has no two dashes in a row and does not end with a dash:
    it can be a piece of a string split on [--]. *)
Fixpoint dash_free (s : jsstring) : bool :=
  match s with
  | [] => true
  | c :: s' =>
      (if (c =? 45)%N
       then match s' with [] => false | d :: _ => negb (d =? 45)%N end
       else true) && dash_free s'
  end.


(** The participants bound to a connection. *)
Definition bound_to (socket_id : Id) (d : Db) : list (Id * Participant) :=
  findMany (λ x, p_socketId x.2 = Some socket_id) (participants d).






(** ** Concrete sessions used to run the handlers *)

Module Fixture.
Definition S1 : Id := js "11111111-1111-4111-8111-111111111111".
Definition S2 : Id := js "22222222-2222-4222-8222-222222222222".
Definition ALICE : Id := js "aaaaaaaa-aaaa-4aaa-8aaa-aaaaaaaaaaaa".
Definition BOB : Id := js "bbbbbbbb-bbbb-4bbb-8bbb-bbbbbbbbbbbb".
Definition R1 : Id := js "00000000-0000-4000-8000-000000000001".
Definition R2 : Id := js "00000000-0000-4000-8000-000000000002".
Definition R3 : Id := js "00000000-0000-4000-8000-000000000003".
Definition R4 : Id := js "00000000-0000-4000-8000-000000000004".
Definition G1 : Id := js "99999999-9999-4999-8999-000000000001".
Definition G2 : Id := js "99999999-9999-4999-8999-000000000002".
Definition NEW1 : Id := js "eeeeeeee-eeee-4eee-8eee-000000000001".
Definition NEW2 : Id := js "eeeeeeee-eeee-4eee-8eee-000000000002".
Definition alice_socket : Id := js "socket-of-alice".
Definition bob_socket : Id := js "socket-of-bob".

Definition session1 : Session :=
  {| s_inviteCode := js "ABCDEFGH"; s_hostId := ALICE;
     s_title := js "Retrospective"; s_currentPhase := PhaseTag "VOTE";
     s_timerDuration := Some 60; s_timerEndTime := Some 1700000060000 |}.

Definition alice : Participant :=
  {| p_sessionId := S1; p_displayName := js "Alice"; p_avatarId := js "fox";
     p_isHost := true; p_socketId := Some alice_socket; p_lastActive := 0 |}.

Definition bob : Participant :=
  {| p_sessionId := S1; p_displayName := js "Bob"; p_avatarId := js "owl";
     p_isHost := false; p_socketId := Some bob_socket; p_lastActive := 0 |}.

Definition response (author : Id) (content : string) (x y : Z) : Response :=
  {| r_sessionId := S1; r_participantId := author; r_content := js content;
     r_category := WENT_WELL; r_positionX := x; r_positionY := y;
     r_groupId := None |}.

Definition group (label : string) : Group :=
  {| g_sessionId := S1; g_label := js label; g_color := js "#10b981";
     g_positionX := 0; g_positionY := 0; g_voteCount := 0 |}.

(** One session, its host Alice and a second participant Bob, four
    ungrouped responses and two empty groups. *)
Definition board : Db :=
  {| sessions := {[ S1 := session1 ]};
     participants := {[ ALICE := alice; BOB := bob ]};
     responses := {[ R1 := response ALICE "Pairing on the release went well" 10 20;
                     R2 := response BOB "Stand-ups start on time" 30 40;
                     R3 := response BOB "Fewer flaky tests in the nightly build" 50 60;
                     R4 := response ALICE "Retro actions were followed up" 70 80 ]};
     groups := {[ G1 := group "Releases"; G2 := group "Meetings" ]};
     connections := ∅;
     votes := ∅ |}.

Definition world : World := {| db := board; emitted := [] |}.

Definition vote (participant : Id) (target : jsstring) (count : Z) : VoteData :=
  {| vd_sessionId := S1; vd_participantId := participant;
     vd_groupId := target; vd_voteCount := count |}.

(** The board after Alice has cast three votes on G1. *)
Definition board_voted : Db :=
  {| sessions := sessions board;
     participants := participants board;
     responses := responses board;
     groups := {[ G1 := set_voteCount 3 (group "Releases");
                  G2 := group "Meetings" ]};
     connections := ∅;
     votes := {[ (ALICE, G1) := {| v_sessionId := S1; v_voteCount := 3 |} ]} |}.

Definition voted : World :=
  {| db := board_voted;
     emitted := [votes_updated S1 G1 3 {[ ALICE := 1; BOB := 4 ]}] |}.

(** The initial board with the first response placed in G1. *)
Definition grouped : World :=
  {| db := set_responses (alter (set_groupId (Some G1)) R1) board;
     emitted := [] |}.



(** The chain identifier of the four responses. *)
Definition chain : jsstring :=
  js "connected-" ++ R1 ++ js "--" ++ R2 ++ js "--" ++ R3 ++ js "--" ++ R4.

(** The board after Alice's three votes on G1, with a stale count of
    nine on G1. *)
Definition drifted : World :=
  {| db := set_groups (alter (set_voteCount 9) G1) board_voted; emitted := [] |}.


(** A second session, with its host Carol. *)
Definition CAROL : Id := js "cccccccc-cccc-4ccc-8ccc-cccccccccccc".

Definition session2 : Session :=
  {| s_inviteCode := js "JKLMNPQR"; s_hostId := CAROL;
     s_title := js "Planning"; s_currentPhase := PhaseTag "VOTE";
     s_timerDuration := None; s_timerEndTime := None |}.

Definition carol : Participant :=
  {| p_sessionId := S2; p_displayName := js "Carol"; p_avatarId := js "bee";
     p_isHost := true; p_socketId := Some (js "socket-of-carol");
     p_lastActive := 0 |}.

Definition with_session2 (d : Db) : Db :=
  set_sessions (insert S2 session2) (set_participants (insert CAROL carol) d).

(** The two sessions, with R1 of the first session in G1. *)
Definition two_sessions_grouped : World :=
  {| db := with_session2 (db grouped); emitted := [] |}.


(** The two sessions, with the four responses of the first ungrouped. *)
Definition two_sessions : World :=
  {| db := with_session2 board; emitted := [] |}.

(** A vote that names the second session. *)
Definition vote_in_session2 (participant : Id) (target : jsstring) (count : Z)
  : VoteData :=
  {| vd_sessionId := S2; vd_participantId := participant;
     vd_groupId := target; vd_voteCount := count |}.
End Fixture.


(** * Properties *)

Ltac run_handler :=
  repeat (unfold mbind, mret, Handler_bind, Handler_ret, read, write, emit,
          throw, return_, reject, guard, create, update, references in *;
          simpl in *).

(** ** JavaScript strings, on examples *)

Example split_on_double_dash :
  split (js "--") (js "ab--cd----e") = [js "ab"; js "cd"; []; js "e"].
Proof. vm_compute. reflexivity. Qed.

Example split_empty_string : split (js "--") [] = [[]].
Proof. reflexivity. Qed.

Example replace_first_occurrence :
  replace (js "ab") (js "X") (js "cabab") = js "cXab".
Proof. vm_compute. reflexivity. Qed.

Example join_with_bullet :
  join bullet [js "a"; js "b"] = [97; 32; 8226; 32; 98]%N.
Proof. vm_compute. reflexivity. Qed.

Example uuid_accepted : is_uuid (js "550e8400-E29B-41d4-a716-446655440000") = true.
Proof. vm_compute. reflexivity. Qed.

Example uuid_refused : is_uuid (js "550e8400-e29b-41d4-a716-44665544000") = false.
Proof. vm_compute. reflexivity. Qed.

Example chain_ids_of_chain :
  chain_ids Fixture.chain = [Fixture.R1; Fixture.R2; Fixture.R3; Fixture.R4].
Proof. vm_compute. reflexivity. Qed.

(** ** The store interface *)

Section store_lemmas.
Context `{Countable K} {V : Type}.
Implicit Types (t : gmap K V) (P Q : K * V → Prop).

Lemma findMany_elem P `{!∀ x, Decision (P x)} t k v :
  (k, v) ∈ findMany P t ↔ t !! k = Some v ∧ P (k, v).
Proof.
  unfold findMany. rewrite elem_of_map_to_list.
  apply (map_lookup_filter_Some P t k v).
Qed.

Lemma findMany_head P `{!∀ x, Decision (P x)} t x :
  head (findMany P t) = Some x → t !! x.1 = Some x.2 ∧ P x.
Proof.
  intros Hh. destruct x as [k v]. simpl. apply (proj1 (findMany_elem P t k v)).
  destruct (findMany P t) as [|y l]; simplify_eq/=. left.
Qed.

Lemma findMany_nil P `{!∀ x, Decision (P x)} t :
  findMany P t = [] → ∀ k v, t !! k = Some v → ¬ P (k, v).
Proof.
  intros Hnil k v Hk HP.
  assert ((k, v) ∈ findMany P t) as Hin by by apply findMany_elem.
  rewrite Hnil in Hin. by apply elem_of_nil in Hin.
Qed.

Lemma findFirst_pinned P `{!∀ x, Decision (P x)} t k v :
  t !! k = Some v → P (k, v) → (∀ k' v', t !! k' = Some v' → P (k', v') → k' = k) →
  findFirst P t = Some (k, v).
Proof.
  intros Hk HP Hpin. unfold findFirst, findMany.
  assert (filter P t = {[ k := v ]}) as ->.
  { apply map_eq. intros k'. destruct (decide (k' = k)) as [->|Hne].
    - rewrite lookup_singleton_eq. by apply map_lookup_filter_Some.
    - rewrite lookup_singleton_ne by done. apply map_lookup_filter_None.
      destruct (t !! k') as [v'|] eqn:Hk'; [right|by left].
      intros v'' ? HP'. simplify_eq. apply Hne. by eapply Hpin. }
  by rewrite map_to_list_singleton.
Qed.

Lemma findFirst_None P `{!∀ x, Decision (P x)} t :
  (∀ k v, t !! k = Some v → ¬ P (k, v)) → findFirst P t = None.
Proof.
  intros Hno. unfold findFirst, findMany.
  assert (filter P t = ∅) as ->; [|by rewrite map_to_list_empty].
  apply map_empty. intros k. apply map_lookup_filter_None.
  destruct (t !! k) eqn:Hk; [right|by left]. intros v' ?. simplify_eq. eauto.
Qed.

Lemma findFirst_None_inv P `{!∀ x, Decision (P x)} t :
  findFirst P t = None → ∀ k v, t !! k = Some v → ¬ P (k, v).
Proof.
  unfold findFirst. intros Hnone.
  destruct (findMany P t) eqn:Hl; [|done]. exact (findMany_nil P t Hl).
Qed.

Lemma findFirst_ext P Q `{!∀ x, Decision (P x)} `{!∀ x, Decision (Q x)} t :
  (∀ k v, t !! k = Some v → P (k, v) ↔ Q (k, v)) → findFirst P t = findFirst Q t.
Proof.
  intros Hext. unfold findFirst, findMany. do 2 f_equal. by apply map_filter_ext.
Qed.

Lemma updateMany_lookup P `{!∀ x, Decision (P x)} (f : V → V) t k :
  updateMany P f t !! k = (λ v, if decide (P (k, v)) then f v else v) <$> t !! k.
Proof. unfold updateMany. rewrite map_lookup_imap. by destruct (t !! k). Qed.

Lemma size_le_one (m : gmap K V) k0 :
  (∀ k v, m !! k = Some v → k = k0) → (size m ≤ 1)%nat.
Proof.
  intros Hk. destruct (m !! k0) as [v0|] eqn:H0.
  - assert (m = {[ k0 := v0 ]}) as ->; [|rewrite map_size_singleton; lia].
    apply map_eq. intros k. destruct (decide (k = k0)) as [->|Hne].
    + by rewrite lookup_singleton_eq.
    + rewrite lookup_singleton_ne by done.
      destruct (m !! k) eqn:E; [|done]. by apply Hk in E.
  - assert (m = ∅) as ->; [|rewrite map_size_empty; lia].
    apply map_empty. intros k. destruct (m !! k) eqn:E; [|done].
    pose proof (Hk _ _ E). congruence.
Qed.

End store_lemmas.

Lemma alter_as_insert `{Countable K} {V} (f : V → V) (m : gmap K V) k v :
  m !! k = Some v → alter f k m = <[k := f v]> m.
Proof.
  intros Hk. apply map_eq. intros k'. destruct (decide (k' = k)) as [->|Hne].
  - by rewrite lookup_alter_eq, lookup_insert_eq, Hk.
  - by rewrite lookup_alter_ne, lookup_insert_ne.
Qed.

(** ** Phase controller *)

Section phase_controller.
Implicit Types (w : World) (data : ChangePhaseData).

(** C7: a [change_phase] request whose connection is not bound to a host
    participant of the session, or that names a session that does not
    exist, is answered with an [error] and leaves the whole store, hence
    the session's phase, timer duration and timer end time, unchanged. *)
Theorem change_phase_unauthorized w socket_id now data :
  sessions (db w) !! cp_sessionId data = None ∨
    ¬ bound_to_host (db w) (cp_sessionId data) socket_id →
  let w' := change_phase socket_id now data w in
  rejected w w' ∧ db w' = db w ∧
  sessions (db w') !! cp_sessionId data = sessions (db w) !! cp_sessionId data.
Proof.
  intros Hno w'. subst w'. unfold change_phase, try_catch, change_phase_body, rejected.
  run_handler.
  destruct (is_uuid (cp_sessionId data)); simpl; [|by eauto].
  destruct (sessions (db w) !! cp_sessionId data) as [s|] eqn:Hs; simpl; [|by eauto].
  destruct Hno as [?|Hno]; [done|].
  destruct (head (findMany _ _)) as [[pid p]|] eqn:Hh; simpl; [|by eauto].
  apply findMany_head in Hh as [Hp [Hsid Hsock]]; simpl in *.
  destruct (p_isHost p) eqn:Hhost; simpl; [|by eauto].
  exfalso. apply Hno. by exists pid, p.
Qed.

(** What an authorised [change_phase] persists and broadcasts: the end
    time is cleared by [stopTimer], set from a non-zero [timerDuration],
    and cleared as well when neither is given. *)
Lemma change_phase_timer w socket_id now data s :
  is_uuid (cp_sessionId data) = true →
  sessions (db w) !! cp_sessionId data = Some s →
  authorized (db w) (cp_sessionId data) socket_id →
  let w' := change_phase socket_id now data w in
  let endTime :=
    if truthy_boolean (cp_stopTimer data) then None
    else if truthy_number (cp_timerDuration data)
         then (λ d, now + d * 1000) <$> cp_timerDuration data
         else None in
  from_option valid_date true endTime = true →
  sessions (db w') !! cp_sessionId data =
    Some (set_phase_and_timer (cp_phase data)
            (if truthy_number (cp_timerDuration data)
             then cp_timerDuration data else s_timerDuration s)
            endTime s) ∧
  emitted w' = emitted w ++ [phase_changed (cp_sessionId data) (cp_phase data) endTime].
Proof.
  intros Hid Hs [(pid & p & Hp & Hsid & Hsock & Hhost) Hall] w' endTime Hdate.
  subst w' endTime. unfold change_phase, try_catch, change_phase_body.
  run_handler. rewrite Hid, Hs. simpl.
  destruct (head (findMany _ _)) as [[pid' p']|] eqn:Hh; simpl.
  - apply findMany_head in Hh as [Hp' [Hsid' Hsock']]; simpl in *.
    rewrite (Hall pid' p' Hp' Hsid' Hsock'). simpl. rewrite Hdate. simpl.
    rewrite Hs. simpl.
    split; [|by destruct (truthy_boolean _)].
    rewrite lookup_alter_eq, Hs. simpl.
    by destruct (truthy_boolean _).
  - exfalso. destruct (findMany _ _) as [|x l] eqn:Hl; [|done].
    by eapply (findMany_nil _ _ Hl pid p Hp).
Qed.

(** The end times that are dates: those within 8.64e15 ms of the epoch. *)
Lemma valid_date_bounds (endTime : option Z) :
  (from_option valid_date true endTime = true ↔
   ∀ t, endTime = Some t → -8640000000000000 ≤ t ≤ 8640000000000000) ∧
  (from_option valid_date true endTime = false ↔
   ∃ t, endTime = Some t ∧ (t < -8640000000000000 ∨ 8640000000000000 < t)).
Proof.
  destruct endTime as [t|]; simpl; unfold valid_date.
  - split; split.
    + intros H t' [= <-]. lia.
    + intros H. specialize (H t eq_refl). lia.
    + intros H. exists t. split; [done|]. lia.
    + intros (t' & [= <-] & H). lia.
  - split; split; try done.
    intros (t & Ht & _). discriminate.
Qed.

(** An end time that is not a date is refused, and nothing is written. *)
Lemma change_phase_invalid_date w socket_id now data s :
  is_uuid (cp_sessionId data) = true →
  sessions (db w) !! cp_sessionId data = Some s →
  authorized (db w) (cp_sessionId data) socket_id →
  from_option valid_date true (requested_end_time now data) = false →
  change_phase socket_id now data w = refused "Failed to change phase" w.
Proof.
  intros Hid Hs [(pid & p & Hp & Hsid & Hsock & Hhost) Hall] Hdate.
  unfold change_phase, try_catch, change_phase_body, refused.
  unfold requested_end_time in Hdate.
  run_handler. rewrite Hid, Hs. simpl.
  destruct (head (findMany _ _)) as [[pid' p']|] eqn:Hh; simpl.
  - apply findMany_head in Hh as [Hp' [Hsid' Hsock']]; simpl in *.
    rewrite (Hall pid' p' Hp' Hsid' Hsock'). simpl. by rewrite Hdate.
  - exfalso. destruct (findMany _ _) as [|x l] eqn:Hl; [|done].
    by eapply (findMany_nil _ _ Hl pid p Hp).
Qed.
End phase_controller.

(** C4, at the failing input: the host of a session whose timer ends at
    1700000060000 changes the phase giving neither [stopTimer] nor
    [timerDuration]; the comment in the handler says the existing timer
    is kept, but the end time that is persisted is null. *)
Theorem change_phase_forgets_timer :
  let data := {| cp_sessionId := Fixture.S1; cp_phase := PhaseTag "DISCUSS";
                 cp_timerDuration := None; cp_stopTimer := None |} in
  let w' := change_phase Fixture.alice_socket 1700000000000 data Fixture.world in
  s_timerEndTime <$> sessions (db Fixture.world) !! Fixture.S1
    = Some (Some 1700000060000) ∧
  s_timerEndTime <$> sessions (db w') !! Fixture.S1 = Some None ∧
  s_currentPhase <$> sessions (db w') !! Fixture.S1 = Some (PhaseTag "DISCUSS") ∧
  emitted w' = [phase_changed Fixture.S1 (PhaseTag "DISCUSS") None].
Proof. vm_compute. done. Qed.

(** A witness of [change_phase_unauthorized]: Bob, who is not the host,
    asks for a phase change. *)
Lemma change_phase_unauthorized_witness :
  let data := {| cp_sessionId := Fixture.S1; cp_phase := PhaseTag "DISCUSS";
                 cp_timerDuration := Some 60; cp_stopTimer := None |} in
  let w' := change_phase Fixture.bob_socket 1700000000000 data Fixture.world in
  rejected Fixture.world w' ∧ db w' = db Fixture.world ∧
  sessions (db w') !! Fixture.S1 = sessions (db Fixture.world) !! Fixture.S1.
Proof.
  apply (change_phase_unauthorized Fixture.world Fixture.bob_socket).
  right. intros (pid & p & Hp & _ & Hsock & Hhost).
  unfold Fixture.world, Fixture.board in Hp. simpl in Hp.
  apply lookup_insert_Some in Hp as [[_ <-]|[_ Hp]].
  - vm_compute in Hsock. discriminate.
  - apply lookup_singleton_Some in Hp as [_ <-]. vm_compute in Hhost. discriminate.
Defined.

(** ** Voting ledger *)

Section ledger.
Implicit Types (w : World) (d : Db) (t : gmap (list N * list N) Vote).

Lemma resolve_target_frame sessionId groupId new_id w c w1 :
  resolve_target sessionId groupId new_id w = (c, w1) →
  votes (db w1) = votes (db w) ∧ sessions (db w1) = sessions (db w) ∧
  participants (db w1) = participants (db w) ∧
  connections (db w1) = connections (db w).
Proof.
  unfold resolve_target, group_create. run_handler. intros Hr.
  repeat case_match; simplify_eq/=; done.
Qed.

Lemma deleteMany_key t participantId groupId :
  deleteMany (λ x, x.1.1 = participantId ∧ x.1.2 = groupId) t
  = delete (participantId, groupId) t.
Proof.
  apply map_eq. intros [p g]. unfold deleteMany.
  destruct (decide ((p, g) = (participantId, groupId))) as [->|Hne].
  - rewrite lookup_delete_eq. apply map_lookup_filter_None. right.
    intros v _ Hn. by apply Hn.
  - rewrite lookup_delete_ne by done.
    destruct (t !! (p, g)) as [v|] eqn:Hv.
    + apply map_lookup_filter_Some. split; [done|]. simpl. intros [-> ->]. done.
    + apply map_lookup_filter_None. by left.
Qed.




(** The three ways [settle_vote] ends. *)
Lemma settle_vote_cases sessionId participantId groupId g voteCount w :
  let over := allocated sessionId participantId (db w)
              - getExistingVoteCount participantId g (db w) + voteCount >? 4 in
  let d' := store_after sessionId participantId g voteCount (db w) in
  let r := settle_vote sessionId participantId groupId g voteCount w in
  (over = true ∧
   r = (Returned, {| db := db w;
                     emitted := emitted w ++ [error "Insufficient votes remaining"] |}))
  ∨ (over = false ∧ ∃ w2, r = (Threw, w2) ∧ emitted w2 = emitted w)
  ∨ (over = false ∧
     r = (Done tt, {| db := d';
                      emitted := emitted w ++
                        [votes_updated sessionId groupId (group_total g d')
                           (participantProgress sessionId d')] |})).
Proof.
  intros over d' r. subst r. unfold settle_vote. run_handler.
  fold over. destruct over eqn:Hover; [by left|]. right.
  unfold store_after, ledger_after in d'. subst d'.
  unfold set_groups, set_votes.
  destruct (voteCount =? 0) eqn:Hz; simpl.
  - rewrite !deleteMany_key.
    destruct (groups (db w) !! g) eqn:Hg; simpl; [right|left]; eauto.
  - unfold vote_upsert. run_handler. unfold set_votes; simpl.
    destruct (votes (db w) !! (participantId, g)) as [v|] eqn:Hv; simpl.
    + destruct (groups (db w) !! g) eqn:Hg; simpl; [right|left]; eauto.
    + destruct (sessions (db w) !! sessionId); simpl; [|left; eauto].
      destruct (participants (db w) !! participantId); simpl; [|left; eauto].
      destruct (groups (db w) !! g) eqn:Hg; simpl; [|left; eauto].
      rewrite Hg. simpl. right. eauto.
Qed.

Implicit Types (P : (list N * list N) * Vote → Prop).

Lemma sum_votes_delete P `{!∀ x, Decision (P x)} t k v :
  t !! k = Some v → P (k, v) →
  sum_votes P t = v_voteCount v + sum_votes P (delete k t).
Proof.
  intros Hk HP. unfold sum_votes. rewrite map_filter_delete.
  apply (map_fold_delete_L (λ _ v acc, v_voteCount v + acc)); [intros; lia|].
  by apply map_lookup_filter_Some.
Qed.

Lemma sum_votes_nonneg P `{!∀ x, Decision (P x)} t :
  (∀ k v, t !! k = Some v → 0 ≤ v_voteCount v) → 0 ≤ sum_votes P t.
Proof.
  intros Hpos. unfold sum_votes.
  assert (∀ k v, filter P t !! k = Some v → 0 ≤ v_voteCount v) as Hf.
  { intros k v [Hk _]%map_lookup_filter_Some. eauto. }
  revert Hf. generalize (filter P t). intros m.
  apply (map_fold_weak_ind
           (λ r m, (∀ k v, m !! k = Some v → 0 ≤ v_voteCount v) → 0 ≤ r)).
  - done.
  - intros k v m' r Hk IH Hall.
    assert (0 ≤ v_voteCount v) by (apply (Hall k); by rewrite lookup_insert_eq).
    assert (0 ≤ r); [|lia].
    apply IH. intros k' v' Hk'. apply (Hall k').
    rewrite lookup_insert_ne; [done|]. intros ->. congruence.
Qed.

Lemma sum_votes_insert P `{!∀ x, Decision (P x)} t k v :
  P (k, v) →
  sum_votes P (<[k:=v]> t) = v_voteCount v + sum_votes P (delete k t).
Proof.
  intros HP. rewrite (sum_votes_delete P (<[k:=v]> t) k v); [|by rewrite lookup_insert_eq|done].
  by rewrite delete_insert_eq.
Qed.

(** The aggregate is the sum of the counts over the list of the selected
    rows. *)
Lemma sum_votes_rows P `{!∀ x, Decision (P x)} t :
  sum_votes P t
  = foldr (λ row sum, v_voteCount row.2 + sum) 0 (map_to_list (filter P t)).
Proof.
  unfold sum_votes. rewrite map_fold_foldr.
  generalize (map_to_list (filter P t)). intros l.
  induction l as [|[k v] l IH]; simpl; [done|]. simpl in IH. lia.
Qed.

(** The rows of the list are the selected rows of the ledger, each once. *)
Lemma selected_rows P `{!∀ x, Decision (P x)} t :
  let rows := map_to_list (filter P t) in
  NoDup rows ∧ ∀ k v, (k, v) ∈ rows ↔ t !! k = Some v ∧ P (k, v).
Proof.
  split; [apply NoDup_map_to_list|]. intros k v.
  rewrite elem_of_map_to_list. apply map_lookup_filter_Some.
Qed.

End ledger.

Section cast_vote.
Implicit Types (w : World) (d : Db) (data : VoteData).

Lemma cast_vote_resolved new_id data w g w1 :
  valid_vote data = true →
  resolve_target (vd_sessionId data) (vd_groupId data) new_id w = (Done g, w1) →
  cast_vote new_id data w =
    try_catch (settle_vote (vd_sessionId data) (vd_participantId data)
                 (vd_groupId data) g (vd_voteCount data))
              "Failed to cast vote" w1.
Proof.
  intros Hvalid Hres. unfold cast_vote, try_catch, cast_vote_body.
  run_handler. rewrite Hvalid. simpl. by rewrite Hres.
Qed.

Lemma cast_vote_invalid new_id data w :
  valid_vote data = false →
  cast_vote new_id data w =
    {| db := db w; emitted := emitted w ++ [error "Failed to cast vote"] |}.
Proof.
  intros Hvalid. unfold cast_vote, try_catch, cast_vote_body.
  run_handler. by rewrite Hvalid.
Qed.

(** What an accepted command leaves behind. *)
Lemma cast_vote_accepted new_id data w g w1 :
  resolve_target (vd_sessionId data) (vd_groupId data) new_id w = (Done g, w1) →
  accepted w1 (cast_vote new_id data w) →
  let d' := store_after (vd_sessionId data) (vd_participantId data) g
              (vd_voteCount data) (db w1) in
  valid_vote data = true ∧
  allocated (vd_sessionId data) (vd_participantId data) (db w1)
    - getExistingVoteCount (vd_participantId data) g (db w1)
    + vd_voteCount data ≤ 4 ∧
  is_Some (groups (db w1) !! g) ∧
  cast_vote new_id data w =
    {| db := d';
       emitted := emitted w1 ++
         [votes_updated (vd_sessionId data) (vd_groupId data) (group_total g d')
            (participantProgress (vd_sessionId data) d')] |}.
Proof.
  intros Hres (room & gid & total & progress & Hacc) d'.
  destruct (valid_vote data) eqn:Hvalid.
  2:{ exfalso. rewrite (cast_vote_invalid _ _ _ Hvalid) in Hacc. simpl in Hacc.
      unfold resolve_target, group_create in Hres. run_handler.
      repeat (case_match; simplify_eq/=);
        repeat match goal with
               | H : _ ++ [_] = _ ++ [_] |- _ => apply app_inj_tail in H as [_ ?]
               | H : _ ++ [_] = (_ ++ [_]) ++ [_] |- _ => apply app_inj_tail in H as [_ ?]
               end; discriminate. }
  split; [done|].
  rewrite (cast_vote_resolved _ _ _ _ _ Hvalid Hres) in *.
  unfold try_catch in *.
  destruct (settle_vote_cases (vd_sessionId data) (vd_participantId data)
              (vd_groupId data) g (vd_voteCount data) w1)
    as [[Ho Hr]|[[Ho (w2 & Hr & He)]|[Ho Hr]]]; rewrite Hr in *; simpl in *.
  - apply app_inv_head in Hacc. discriminate.
  - rewrite He in Hacc. apply app_inv_head in Hacc. discriminate.
  - split; [lia|]. split; [|done].
    destruct (groups (db w1) !! g) eqn:Hg; [done|].
    exfalso. unfold settle_vote in Hr. run_handler.
    rewrite Ho in Hr. unfold vote_upsert in Hr. run_handler.
    unfold set_votes in Hr. simpl in Hr.
    repeat (case_match; simplify_eq/=).
Qed.

Lemma group_total_set_groups g f d :
  group_total g (set_groups f d) = group_total g d.
Proof. done. Qed.

(** The rows of a group after the write: the new count of the participant
    and the rows of everybody else. *)
Lemma group_total_after sessionId participantId g voteCount d :
  group_total g (set_votes (ledger_after sessionId participantId g voteCount) d)
  = voteCount + sum_votes (λ x, x.1.2 = g ∧ x.1.1 ≠ participantId) (votes d).
Proof.
  unfold group_total, ledger_after, set_votes. simpl.
  assert (sum_votes (λ x, x.1.2 = g) (delete (participantId, g) (votes d))
          = sum_votes (λ x, x.1.2 = g ∧ x.1.1 ≠ participantId) (votes d)) as Hrest.
  { unfold sum_votes. f_equal. apply map_eq. intros [p g'].
    destruct (decide ((p, g') = (participantId, g))) as [[= -> ->]|Hne].
    - rewrite (proj2 (map_lookup_filter_None _ _ _)).
      + symmetry. apply map_lookup_filter_None. right. intros v _ [_ Hp]. done.
      + left. apply lookup_delete_eq.
    - destruct (votes d !! (p, g')) as [v|] eqn:Hv.
      + destruct (decide (g' = g)) as [->|Hg].
        * rewrite (proj2 (map_lookup_filter_Some _ _ _ v)).
          -- symmetry. apply map_lookup_filter_Some. split; [done|]. simpl.
             split; [done|]. congruence.
          -- split; [by rewrite lookup_delete_ne|done].
        * rewrite (proj2 (map_lookup_filter_None _ _ _)).
          -- symmetry. apply map_lookup_filter_None. right.
             intros v' _ [Hg' _]. done.
          -- right. intros v' _ Hg'. done.
      + rewrite (proj2 (map_lookup_filter_None _ _ _)).
        * symmetry. apply map_lookup_filter_None. by left.
        * left. by rewrite lookup_delete_ne. }
  destruct (voteCount =? 0) eqn:Hz.
  - rewrite Hrest. lia.
  - rewrite sum_votes_insert by done. simpl. by rewrite Hrest.
Qed.

(** The group of an accepted command after the command: the group as it
    was when the target was resolved, with the sum of its Vote rows as
    vote count. *)
Lemma cast_vote_group new_id data w g w1 :
  resolve_target (vd_sessionId data) (vd_groupId data) new_id w = (Done g, w1) →
  let w' := cast_vote new_id data w in
  accepted w1 w' →
  ∃ G, groups (db w1) !! g = Some G ∧
       groups (db w') !! g = Some (set_voteCount (group_total g (db w')) G).
Proof.
  intros Hres w' Hacc.
  destruct (cast_vote_accepted _ _ _ _ _ Hres Hacc) as (_ & _ & [G HG] & Hw').
  exists G. split; [done|]. subst w'. rewrite Hw'. simpl. unfold store_after.
  rewrite group_total_set_groups. by rewrite lookup_alter_eq, HG.
Qed.


(** C5: after a completed [cast_vote] the vote count persisted on the
    target group is the sum of the [voteCount] of the Vote rows of the
    ledger that reference the group, each row counted once, whatever the
    count the group held before; it is also the total that is
    broadcast. *)
Theorem cast_vote_recomputes_group_total new_id data w g w1 :
  resolve_target (vd_sessionId data) (vd_groupId data) new_id w = (Done g, w1) →
  let w' := cast_vote new_id data w in
  accepted w1 w' →
  let rows := map_to_list (filter (λ row, row.1.2 = g) (votes (db w'))) in
  let total := foldr (λ row sum, v_voteCount row.2 + sum) 0 rows in
  NoDup rows ∧
  (∀ k v, (k, v) ∈ rows ↔ votes (db w') !! k = Some v ∧ k.2 = g) ∧
  g_voteCount <$> groups (db w') !! g = Some total ∧
  ∃ progress,
    emitted w' = emitted w1 ++
      [votes_updated (vd_sessionId data) (vd_groupId data) total progress].
Proof.
  intros Hres w' Hacc rows total.
  destruct (selected_rows (λ row, row.1.2 = g) (votes (db w'))) as [Hnodup Hrows].
  split; [exact Hnodup|]. split; [exact Hrows|].
  assert (total = group_total g (db w')) as ->.
  { unfold total, rows, group_total. symmetry. apply sum_votes_rows. }
  subst w'.
  destruct (cast_vote_group _ _ _ _ _ Hres Hacc) as (G & _ & HG').
  cbv zeta in HG'. rewrite HG'. split; [done|].
  destruct (cast_vote_accepted _ _ _ _ _ Hres Hacc) as (_ & _ & _ & Hw').
  rewrite Hw'. simpl. eauto.
Qed.

(** C6: an accepted [cast_vote] with count 0 deletes the row of
    (participant, target); with another count it leaves a row holding
    exactly that count, whatever was allocated before; no other row
    changes, and the total of the group is the count plus the rows of
    the other participants. *)
Theorem cast_vote_sets_allocation new_id data w g w1 :
  resolve_target (vd_sessionId data) (vd_groupId data) new_id w = (Done g, w1) →
  let participantId := vd_participantId data in
  let voteCount := vd_voteCount data in
  let w' := cast_vote new_id data w in
  accepted w1 w' →
  (voteCount = 0 → votes (db w') !! (participantId, g) = None) ∧
  (voteCount ≠ 0 →
     v_voteCount <$> votes (db w') !! (participantId, g) = Some voteCount) ∧
  getExistingVoteCount participantId g (db w') = voteCount ∧
  (∀ k, k ≠ (participantId, g) → votes (db w') !! k = votes (db w) !! k) ∧
  g_voteCount <$> groups (db w') !! g =
    Some (voteCount + sum_votes (λ x, x.1.2 = g ∧ x.1.1 ≠ participantId)
                                (votes (db w))).
Proof.
  intros Hres participantId voteCount w' Hacc.
  assert (g_voteCount <$> groups (db w') !! g = Some (group_total g (db w')))
    as Htot.
  { destruct (cast_vote_group _ _ _ _ _ Hres Hacc) as (G & _ & HG').
    subst w'. cbv zeta in HG'. by rewrite HG'. }
  destruct (cast_vote_accepted _ _ _ _ _ Hres Hacc) as (Hvalid & _ & _ & Hw').
  destruct (resolve_target_frame _ _ _ _ _ _ Hres) as (Hv & _).
  assert (0 ≤ voteCount) as Hc.
  { unfold valid_vote in Hvalid. subst voteCount.
    repeat (apply andb_prop in Hvalid as [Hvalid ?]). lia. }
  rewrite Htot.
  assert (votes (db w') = ledger_after (vd_sessionId data) participantId g
                            voteCount (votes (db w))) as Hl.
  { subst w'. rewrite Hw'. unfold store_after. simpl. by rewrite Hv. }
  assert (group_total g (db w') = group_total g
            (set_votes (ledger_after (vd_sessionId data) participantId g voteCount)
                       (db w))) as Hg.
  { unfold group_total. rewrite Hl. done. }
  rewrite Hg, group_total_after.
  unfold getExistingVoteCount. rewrite Hl. unfold ledger_after.
  destruct (voteCount =? 0) eqn:Hz.
  - assert (voteCount = 0) as H0 by lia.
    rewrite lookup_delete_eq. simpl. repeat split; try done.
    intros k Hk. by rewrite lookup_delete_ne.
  - assert (voteCount ≠ 0) as H0 by lia.
    rewrite lookup_insert_eq. simpl. repeat split; try done.
    intros k Hk. by rewrite lookup_insert_ne.
Qed.
End cast_vote.



(** On the board where G1 holds a stale count of nine and Alice's three
    votes, Bob casts one vote on G1: the group then counts four votes. *)
Lemma cast_vote_recomputes_group_total_witness :
  let data := Fixture.vote Fixture.BOB Fixture.G1 1 in
  let w' := cast_vote Fixture.NEW1 data Fixture.drifted in
  g_voteCount <$> groups (db Fixture.drifted) !! Fixture.G1 = Some 9 ∧
  g_voteCount <$> groups (db w') !! Fixture.G1 = Some 4 ∧
  ∃ progress,
    emitted w' = emitted Fixture.drifted ++
      [votes_updated Fixture.S1 Fixture.G1 4 progress].
Proof.
  intros data w'. split; [vm_compute; reflexivity|].
  destruct (cast_vote_recomputes_group_total Fixture.NEW1 data Fixture.drifted
              Fixture.G1 Fixture.drifted eq_refl)
    as (_ & _ & Hcount & Hemitted).
  - exists Fixture.S1, Fixture.G1, 4, {[ Fixture.ALICE := 1; Fixture.BOB := 3 ]}.
    vm_compute; reflexivity.
  - split; [etrans; [exact Hcount|]; vm_compute; reflexivity|].
    destruct Hemitted as [progress Hemitted]. exists progress.
    etrans; [exact Hemitted|]. vm_compute. reflexivity.
Defined.

(** Alice, with three votes on G1, casts two votes on G1: her allocation
    is two, and so is the total of the group. *)
Lemma cast_vote_sets_allocation_witness :
  let data := Fixture.vote Fixture.ALICE Fixture.G1 2 in
  let w' := cast_vote Fixture.NEW2 data Fixture.voted in
  getExistingVoteCount Fixture.ALICE Fixture.G1 (db Fixture.voted) = 3 ∧
  getExistingVoteCount Fixture.ALICE Fixture.G1 (db w') = 2 ∧
  g_voteCount <$> groups (db w') !! Fixture.G1 = Some 2.
Proof.
  intros data w'.
  split; [vm_compute; reflexivity|].
  assert (resolve_target Fixture.S1 Fixture.G1 Fixture.NEW2 Fixture.voted
          = (Done Fixture.G1, Fixture.voted)) as Hres
    by reflexivity.
  assert (accepted Fixture.voted w') as Hacc.
  { exists Fixture.S1, Fixture.G1, 2, {[ Fixture.ALICE := 2; Fixture.BOB := 4 ]}.
    vm_compute; reflexivity. }
  destruct (cast_vote_sets_allocation Fixture.NEW2 data Fixture.voted Fixture.G1
              Fixture.voted Hres Hacc) as (_ & _ & Hexisting & _ & Htotal).
  split; [exact Hexisting|].
  etrans; [exact Htotal|]. vm_compute; reflexivity.
Defined.

(** ** Group materializer *)

Section materializer.
Implicit Types (w : World) (d : Db).

Lemma individual_not_chain (rid : list N) :
  startsWith (js "connected-") (js "individual-" ++ rid) = false.
Proof. reflexivity. Qed.

Lemma individual_prefix (rid : list N) :
  startsWith (js "individual-") (js "individual-" ++ rid) = true.
Proof. reflexivity. Qed.

Lemma individual_id (rid : list N) :
  replace (js "individual-") [] (js "individual-" ++ rid) = rid.
Proof. reflexivity. Qed.

Lemma chain_prefix (rest : list N) :
  startsWith (js "connected-") (js "connected-" ++ rest) = true.
Proof. reflexivity. Qed.

Lemma chain_ids_connected (rest : list N) :
  chain_ids (js "connected-" ++ rest) = split (js "--") rest.
Proof. reflexivity. Qed.

Lemma valid_chain (ids : list (list N)) id :
  Forall (λ i, is_uuid i = true) ids → id ∈ ids →
  (length ids =? 0)%nat || existsb (λ i, negb (is_uuid i)) ids = false.
Proof.
  intros Hall Hin. apply orb_false_intro.
  - destruct ids; [by apply elem_of_nil in Hin|done].
  - apply not_true_is_false. intros (i & Hi & Hn)%existsb_exists.
    rewrite Forall_forall in Hall. apply list_elem_of_In in Hi.
    rewrite (Hall i Hi) in Hn. done.
Qed.

(** Once a target has been resolved, resolving it again in the same
    session gives the same group and changes nothing, as long as the
    responses and the sessions of the groups are what the first
    resolution left. *)
Lemma resolve_target_stable sessionId groupId new_id w g w1 :
  resolve_target sessionId groupId new_id w = (Done g, w1) →
  ∀ w' new_id',
    responses (db w') = responses (db w1) →
    (∀ k, g_sessionId <$> groups (db w') !! k = g_sessionId <$> groups (db w1) !! k) →
    resolve_target sessionId groupId new_id' w' = (Done g, w').
Proof.
  unfold resolve_target. intros Hres w' new_id' Hresp Hgrp.
  destruct (startsWith (js "connected-") groupId) eqn:Hc.
  - destruct (_ || _) eqn:Hvalid; [by run_handler|].
    unfold group_create in Hres. run_handler. unfold grouped_in in *.
    destruct (findMany _ (responses (db w))) as [|[k0 v0] l0] eqn:Hgrouped.
    + destruct (ungrouped_in sessionId (chain_ids groupId) (db w))
        as [|[k1 v1] l1] eqn:Hfound; [by simplify_eq/=|].
      destruct (sessions (db w) !! sessionId); simpl in Hres; [|done].
      destruct (groups (db w) !! new_id); simpl in Hres; [done|].
      simplify_eq/=. rewrite Hresp. clear Hresp Hgrp.
      assert ((k1, v1) ∈ ungrouped_in sessionId (chain_ids groupId) (db w)) as Hin
        by (rewrite Hfound; left).
      apply findMany_elem in Hin as (Hk1 & Hid & Hs & Hn). simpl in *.
      destruct (findMany _ (updateMany _ _ _)) as [|[k v] l] eqn:Hl.
      * exfalso.
        eapply (findMany_nil _ _ Hl k1 (set_groupId (Some g) v1)).
        -- rewrite updateMany_lookup, Hk1. simpl. by rewrite decide_True.
        -- done.
      * assert ((k, v) ∈ (k, v) :: l) as Hin by left.
        rewrite <- Hl in Hin. apply findMany_elem in Hin as (Hk & Hid' & _).
        rewrite updateMany_lookup in Hk. simpl in *.
        destruct (responses (db w) !! k) as [v'|]; simplify_eq/=.
        by rewrite decide_True.
    + simpl in Hres. destruct (r_groupId v0) eqn:Hg0; simplify_eq/=.
      rewrite Hresp, Hgrouped. simpl. by rewrite Hg0.
  - destruct (startsWith (js "individual-") groupId) eqn:Hi; [|by run_handler; simplify_eq].
    unfold group_create in Hres. run_handler.
    set (rid := replace (js "individual-") [] groupId) in *.
    destruct (findFirst _ (groups (db w))) as [[k0 G0]|] eqn:Hfirst.
    + simplify_eq/=. apply findMany_head in Hfirst as (HG0 & Hs0 & Hr0). simpl in *.
      pose proof (Hgrp g) as Hg. rewrite HG0 in Hg. simpl in Hg.
      destruct (groups (db w') !! g) as [G'|] eqn:HG'; [|done]. simplify_eq/=.
      rewrite (findFirst_pinned _ _ g G' HG').
      * done.
      * split; [done|]. by rewrite Hresp.
      * intros k' v' _ [_ Hk']. rewrite Hresp, Hr0 in Hk'. simpl in Hk'. congruence.
    + destruct (responses (db w) !! rid) as [r|] eqn:Hr; [|by simplify_eq/=].
      simpl in Hres.
      destruct (sessions (db w) !! sessionId); simpl in Hres; [|done].
      destruct (groups (db w) !! new_id) eqn:Hnew; simpl in Hres; [done|].
      rewrite Hr in Hres. simplify_eq/=.
      pose proof (Hgrp g) as Hg. rewrite lookup_insert_eq in Hg. simpl in Hg.
      destruct (groups (db w') !! g) as [G'|] eqn:HG'; [|done]. simplify_eq/=.
      assert (responses (db w') !! rid = Some (set_groupId (Some g) r)) as Hrid.
      { rewrite Hresp, lookup_alter_eq, Hr. done. }
      rewrite (findFirst_pinned _ _ g G' HG').
      * done.
      * split; [done|]. by rewrite Hrid.
      * intros k' v' _ [_ Hk']. rewrite Hrid in Hk'. simpl in Hk'. congruence.
Qed.

(** X28: within one session, a virtual identifier one of whose responses
    is already assigned to a group of the session named by the command
    resolves to that group, and neither a group nor an event is added;
    hence, after a completed [cast_vote], a second [cast_vote] naming the
    same session and the same identifier resolves to the same group and
    creates nothing. *)
Theorem resolve_target_reuses_group sessionId new_id w :
  (∀ rid r g G,
     responses (db w) !! rid = Some r → r_groupId r = Some g →
     groups (db w) !! g = Some G → g_sessionId G = sessionId →
     resolve_target sessionId (js "individual-" ++ rid) new_id w = (Done g, w)) ∧
  (∀ rest rid r,
     Forall (λ id, is_uuid id = true) (split (js "--") rest) →
     rid ∈ split (js "--") rest →
     responses (db w) !! rid = Some r →
     r_sessionId r = sessionId → r_groupId r ≠ None →
     ∃ rid' r' g,
       rid' ∈ split (js "--") rest ∧ responses (db w) !! rid' = Some r' ∧
       r_sessionId r' = sessionId ∧ r_groupId r' = Some g ∧
       resolve_target sessionId (js "connected-" ++ rest) new_id w = (Done g, w)) ∧
  (∀ data g w1 data' new_id',
     vd_sessionId data = sessionId → vd_sessionId data' = sessionId →
     vd_groupId data' = vd_groupId data →
     resolve_target sessionId (vd_groupId data) new_id w = (Done g, w1) →
     let w' := cast_vote new_id data w in
     accepted w1 w' →
     resolve_target sessionId (vd_groupId data') new_id' w' = (Done g, w') ∧
     dom (groups (db w')) = dom (groups (db w1))).
Proof.
  split; [|split].
  - intros rid r g G Hr Hg HG Hs. unfold resolve_target.
    rewrite individual_not_chain, individual_prefix, individual_id. run_handler.
    rewrite (findFirst_pinned _ _ g G HG); [done|..].
    + split; [done|]. by rewrite Hr.
    + intros k' v' _ [_ Hk']. rewrite Hr in Hk'. simpl in Hk'. congruence.
  - intros rest rid r Hall Hin Hr Hs Hg. unfold resolve_target.
    rewrite chain_prefix, chain_ids_connected, (valid_chain _ _ Hall Hin).
    run_handler. unfold grouped_in.
    destruct (findMany _ (responses (db w))) as [|[k v] l] eqn:Hl.
    + exfalso. by eapply (findMany_nil _ _ Hl rid r Hr).
    + assert ((k, v) ∈ (k, v) :: l) as Hkv by left.
      rewrite <- Hl in Hkv. apply findMany_elem in Hkv as (Hk & Hid & Hsk & Hgk).
      simpl in *. destruct (r_groupId v) as [g|] eqn:Hgv; [|done].
      by exists k, v, g.
  - intros data g w1 data' new_id' Hs Hs' Hgid Hres w' Hacc. rewrite Hgid.
    rewrite <- Hs in Hres.
    destruct (cast_vote_accepted _ _ _ _ _ Hres Hacc) as (_ & _ & _ & Hw').
    rewrite Hs in Hres. subst w'. rewrite Hw'. simpl.
    split.
    + eapply resolve_target_stable; [exact Hres|done|]. intros k. simpl.
      destruct (decide (k = g)) as [->|Hne].
      * rewrite lookup_alter_eq. by destruct (groups (db w1) !! g).
      * by rewrite lookup_alter_ne.
    + unfold store_after. simpl. apply dom_alter_L.
Qed.
End materializer.

Section labels.
Implicit Types (w : World) (d : Db).



End labels.



(** C3, at the failing input: Alice, with three votes on G1, casts two
    votes on the ungrouped response R1.  The command is refused for the
    quota after a group has been created for R1 and R1 has been assigned
    to it: the refused command leaves a new group and a changed
    assignment behind. *)
Theorem refused_vote_leaves_group :
  let data := Fixture.vote Fixture.ALICE (js "individual-" ++ Fixture.R1) 2 in
  let w' := cast_vote Fixture.NEW2 data Fixture.voted in
  last (emitted w') = Some (error "Insufficient votes remaining") ∧
  votes (db w') = votes (db Fixture.voted) ∧
  groups (db Fixture.voted) !! Fixture.NEW2 = None ∧
  g_label <$> groups (db w') !! Fixture.NEW2
    = Some (js "Pairing on the release went we...") ∧
  r_groupId <$> responses (db Fixture.voted) !! Fixture.R1 = Some None ∧
  r_groupId <$> responses (db w') !! Fixture.R1 = Some (Some Fixture.NEW2) ∧
  db w' ≠ db Fixture.voted.
Proof.
  repeat split; try (vm_compute; reflexivity).
  intros Heq.
  assert (groups (db (cast_vote Fixture.NEW2
            (Fixture.vote Fixture.ALICE (js "individual-" ++ Fixture.R1) 2)
            Fixture.voted)) !! Fixture.NEW2 = None) as Hnone.
  { rewrite Heq. vm_compute. reflexivity. }
  vm_compute in Hnone. discriminate.
Qed.

(** On the board where R1 is in G1, the identifier of R1 resolves to G1. *)
Lemma resolve_target_reuses_group_witness :
  resolve_target Fixture.S1 (js "individual-" ++ Fixture.R1) Fixture.NEW1
    Fixture.grouped = (Done Fixture.G1, Fixture.grouped).
Proof.
  apply (proj1 (resolve_target_reuses_group Fixture.S1 Fixture.NEW1 Fixture.grouped)
           Fixture.R1
           (set_groupId (Some Fixture.G1)
              (Fixture.response Fixture.ALICE "Pairing on the release went well" 10 20))
           Fixture.G1 (Fixture.group "Releases")).
  - vm_compute. reflexivity.
  - reflexivity.
  - vm_compute. reflexivity.
  - reflexivity.
Defined.

(** C2, at the failing input: response R1 of the first session is
    assigned to the persisted group G1.  Carol, of the second session,
    casts one vote on the identifier of R1 in a command that names her
    session.  G1 is not reused: the command is accepted, a group is
    created in the second session and R1 is moved from G1 to it.  The
    same identifier in a command that names the first session resolves
    to G1, and the chain identifier of R1 in a command that names the
    second session is refused and creates nothing.  Likewise, two
    completed [cast_vote] naming the identifier of the ungrouped R1, the
    first for the first session and the second for the second session,
    leave two groups. *)
Theorem vote_from_another_session_regroups :
  let target := js "individual-" ++ Fixture.R1 in
  (let data := Fixture.vote_in_session2 Fixture.CAROL target 1 in
   let w := Fixture.two_sessions_grouped in
   let resolved := resolve_target Fixture.S2 target Fixture.NEW1 w in
   let w' := cast_vote Fixture.NEW1 data w in
   r_groupId <$> responses (db w) !! Fixture.R1 = Some (Some Fixture.G1) ∧
   g_sessionId <$> groups (db w) !! Fixture.G1 = Some Fixture.S1 ∧
   groups (db w) !! Fixture.NEW1 = None ∧
   resolved.1 = Done Fixture.NEW1 ∧
   accepted resolved.2 w' ∧
   g_sessionId <$> groups (db w') !! Fixture.NEW1 = Some Fixture.S2 ∧
   r_groupId <$> responses (db w') !! Fixture.R1 = Some (Some Fixture.NEW1) ∧
   r_sessionId <$> responses (db w') !! Fixture.R1 = Some Fixture.S1 ∧
   resolve_target Fixture.S1 target Fixture.NEW1 w = (Done Fixture.G1, w) ∧
   resolve_target Fixture.S2 (js "connected-" ++ Fixture.R1) Fixture.NEW1 w
     = (Returned, refused "Connected responses not found or already grouped" w)) ∧
  (let w := Fixture.two_sessions in
   let first := cast_vote Fixture.NEW1 (Fixture.vote Fixture.ALICE target 1) w in
   let second :=
     cast_vote Fixture.NEW2
       (Fixture.vote_in_session2 Fixture.CAROL target 1) first in
   dom (groups (db w)) = {[ Fixture.G1; Fixture.G2 ]} ∧
   last (emitted first)
     = Some (votes_updated Fixture.S1 target 1
               {[ Fixture.ALICE := 3; Fixture.BOB := 4 ]}) ∧
   last (emitted second)
     = Some (votes_updated Fixture.S2 target 1 {[ Fixture.CAROL := 3 ]}) ∧
   g_sessionId <$> groups (db second) !! Fixture.NEW1 = Some Fixture.S1 ∧
   g_sessionId <$> groups (db second) !! Fixture.NEW2 = Some Fixture.S2 ∧
   r_groupId <$> responses (db first) !! Fixture.R1 = Some (Some Fixture.NEW1) ∧
   r_groupId <$> responses (db second) !! Fixture.R1 = Some (Some Fixture.NEW2)).
Proof.
  intros target. split.
  - intros data w resolved w'.
    repeat match goal with |- _ ∧ _ => split end;
      try (vm_compute; reflexivity).
    exists Fixture.S2, target, 1, {[ Fixture.CAROL := 3 ]}.
    vm_compute; reflexivity.
  - intros w first second.
    repeat match goal with |- _ ∧ _ => split end;
      vm_compute; reflexivity.
Qed.

(** ** Board store *)

Section board.
Implicit Types (w : World) (d : Db) (data : CreateConnectionData).

(** The handler finds two responses exactly when the endpoints are two
    different responses of the session. *)
Lemma endpoints_found sessionId (a b : list N) d :
  length (findMany (λ x, x.1 ∈ [a; b] ∧ r_sessionId x.2 = sessionId)
                   (responses d)) = 2%nat
  ↔ a ≠ b ∧ in_session d sessionId a ∧ in_session d sessionId b.
Proof.
  assert (∀ k, in_session d sessionId k
               ↔ ∃ r, responses d !! k = Some r ∧ r_sessionId r = sessionId) as Hin.
  { intros k. unfold in_session. destruct (responses d !! k) as [r|]; simpl.
    - split; [intros [=]; eauto|intros (r' & [= <-] & <-); done].
    - split; [done|intros (r' & [=] & _)]. }
  rewrite !Hin. clear Hin.
  unfold findMany. rewrite length_map_to_list.
  set (P := λ x : list N * Response, x.1 ∈ [a; b] ∧ r_sessionId x.2 = sessionId).
  assert (∀ k v, filter P (responses d) !! k = Some v
                 ↔ responses d !! k = Some v ∧ (k = a ∨ k = b)
                   ∧ r_sessionId v = sessionId) as Hlook.
  { intros k v. rewrite map_lookup_filter_Some. unfold P. simpl.
    rewrite !elem_of_cons, elem_of_nil. tauto. }
  split.
  - intros Hsize.
    destruct (decide (a = b)) as [->|Hne].
    { pose proof (size_le_one (filter P (responses d)) b) as Hle.
      rewrite Hsize in Hle. exfalso.
      assert (2 ≤ 1)%nat; [|lia]. apply Hle. intros k v Hk.
      by destruct (proj1 (Hlook k v) Hk) as (_ & [->| ->] & _). }
    split; [done|].
    destruct (filter P (responses d) !! a) as [ra|] eqn:Ha.
    2:{ pose proof (size_le_one (filter P (responses d)) b) as Hle.
        rewrite Hsize in Hle. exfalso.
        assert (2 ≤ 1)%nat; [|lia]. apply Hle. intros k v Hk.
        destruct (proj1 (Hlook k v) Hk) as (_ & [->| ->] & _); [congruence|done]. }
    destruct (filter P (responses d) !! b) as [rb|] eqn:Hb.
    2:{ pose proof (size_le_one (filter P (responses d)) a) as Hle.
        rewrite Hsize in Hle. exfalso.
        assert (2 ≤ 1)%nat; [|lia]. apply Hle. intros k v Hk.
        destruct (proj1 (Hlook k v) Hk) as (_ & [->| ->] & _); [done|congruence]. }
    apply Hlook in Ha as (Ha & _ & Hsa). apply Hlook in Hb as (Hb & _ & Hsb).
    split; eauto.
  - intros (Hne & (ra & Ha & Hsa) & (rb & Hb & Hsb)).
    assert (filter P (responses d) = <[a := ra]> {[ b := rb ]}) as ->.
    { apply map_eq. intros k.
      destruct (decide (k = a)) as [->|Hka].
      - rewrite lookup_insert_eq. apply Hlook. auto.
      - rewrite lookup_insert_ne by done.
        destruct (decide (k = b)) as [->|Hkb].
        + rewrite lookup_singleton_eq. apply Hlook. auto.
        + rewrite lookup_singleton_ne by done.
          destruct (filter P (responses d) !! k) eqn:E; [|done].
          apply Hlook in E as (_ & [?|?] & _); done. }
    rewrite map_size_insert_None, map_size_singleton; [done|].
    by rewrite lookup_singleton_ne.
Qed.

Lemma create_connection_invalid new_id data w :
  valid_connection data = false →
  create_connection new_id data w = refused "Failed to create connection" w.
Proof.
  unfold valid_connection, create_connection, try_catch, create_connection_body.
  intros Hv. run_handler. by rewrite Hv.
Qed.

Lemma create_connection_exists new_id data w cid c :
  valid_connection data = true →
  connections (db w) !! cid = Some c →
  existing_edge (cc_sessionId data) (cc_fromResponseId data)
                (cc_toResponseId data) (cid, c) →
  create_connection new_id data w = refused "Connection already exists" w.
Proof.
  unfold valid_connection, create_connection, try_catch, create_connection_body.
  intros Hv Hc He. run_handler. rewrite Hv. simpl. unfold findFirst.
  destruct (findMany _ _) as [|x l] eqn:Hl; [|done].
  exfalso. by eapply (findMany_nil _ _ Hl cid c Hc).
Qed.

Lemma create_connection_no_edge new_id data w :
  valid_connection data = true →
  (∀ cid c, connections (db w) !! cid = Some c →
     ¬ existing_edge (cc_sessionId data) (cc_fromResponseId data)
                     (cc_toResponseId data) (cid, c)) →
  create_connection new_id data w =
    if decide (cc_fromResponseId data ≠ cc_toResponseId data
               ∧ in_session (db w) (cc_sessionId data) (cc_fromResponseId data)
               ∧ in_session (db w) (cc_sessionId data) (cc_toResponseId data))
    then match connections (db w) !! new_id with
         | Some _ => refused "Failed to create connection" w
         | None =>
             let connection :=
               {| c_sessionId := cc_sessionId data;
                  c_fromResponseId := cc_fromResponseId data;
                  c_toResponseId := cc_toResponseId data |} in
             {| db := set_connections (insert new_id connection) (db w);
                emitted := emitted w ++
                  [connection_created (cc_sessionId data) new_id connection] |}
         end
    else refused "Invalid responses for connection" w.
Proof.
  unfold valid_connection, create_connection, try_catch, create_connection_body.
  intros Hv Hno. run_handler. rewrite Hv. simpl.
  rewrite (findFirst_None _ _ Hno). simpl.
  destruct (length _ =? 2)%nat eqn:Hlen; simpl.
  - apply Nat.eqb_eq, endpoints_found in Hlen. rewrite decide_True by done.
    by destruct (connections (db w) !! new_id).
  - apply Nat.eqb_neq in Hlen. rewrite decide_False; [done|].
    intros H. by apply Hlen, endpoints_found.
Qed.

Lemma existing_edge_sym sessionId (a b : list N) x :
  existing_edge sessionId a b x ↔ existing_edge sessionId b a x.
Proof. unfold existing_edge. tauto. Qed.

(** Under [connections_scoped], an edge between two responses one of
    which belongs to the session is an edge of that session. *)
Lemma scoped_edge d sessionId (a b : list N) cid c :
  connections_scoped d → in_session d sessionId a →
  connections d !! cid = Some c →
  (c_fromResponseId c = a ∧ c_toResponseId c = b
   ∨ c_fromResponseId c = b ∧ c_toResponseId c = a) →
  existing_edge sessionId a b (cid, c).
Proof.
  intros Hsc Ha Hc Hends. split; [|done]. simpl.
  unfold in_session in Ha.
  destruct (responses d !! a) as [r|] eqn:Hr; [|done]. simplify_eq/=.
  symmetry. apply (Hsc cid c a r Hc); [|done].
  destruct Hends as [[<- _]|[_ <-]]; auto.
Qed.

(** The handler, decision by decision. *)
Lemma create_connection_run new_id data w :
  create_connection new_id data w =
    if valid_connection data then
      match findFirst (existing_edge (cc_sessionId data) (cc_fromResponseId data)
                         (cc_toResponseId data)) (connections (db w)) with
      | Some _ => refused "Connection already exists" w
      | None =>
          if decide (cc_fromResponseId data ≠ cc_toResponseId data
                     ∧ in_session (db w) (cc_sessionId data) (cc_fromResponseId data)
                     ∧ in_session (db w) (cc_sessionId data) (cc_toResponseId data))
          then match connections (db w) !! new_id with
               | Some _ => refused "Failed to create connection" w
               | None => connected new_id data w
               end
          else refused "Invalid responses for connection" w
      end
    else refused "Failed to create connection" w.
Proof.
  destruct (valid_connection data) eqn:Hv;
    [|by apply create_connection_invalid].
  destruct (findFirst _ _) as [[cid c]|] eqn:Hfirst.
  - apply findMany_head in Hfirst as [Hc He].
    by eapply create_connection_exists.
  - apply create_connection_no_edge; [done|].
    exact (findFirst_None_inv _ _ Hfirst).
Qed.

(** The request with its endpoints exchanged is refused when and as the
    request is, and stored when the request is. *)
Lemma create_connection_swap new_id data w :
  (∃ message, create_connection new_id data w = refused message w ∧
              create_connection new_id (swap data) w = refused message w)
  ∨ (create_connection new_id data w = connected new_id data w ∧
     create_connection new_id (swap data) w = connected new_id (swap data) w).
Proof.
  rewrite !create_connection_run.
  assert (valid_connection (swap data) = valid_connection data) as ->.
  { unfold valid_connection, swap. simpl.
    destruct (is_uuid (cc_sessionId data)), (is_uuid (cc_fromResponseId data)),
      (is_uuid (cc_toResponseId data)); done. }
  destruct (valid_connection data); [|left; eauto].
  rewrite (findFirst_ext
             (existing_edge (cc_sessionId (swap data)) (cc_fromResponseId (swap data))
                (cc_toResponseId (swap data)))
             (existing_edge (cc_sessionId data) (cc_fromResponseId data)
                (cc_toResponseId data)))
    by (intros; apply existing_edge_sym).
  destruct (findFirst _ _); [left; eauto|]. simpl.
  destruct (decide (cc_fromResponseId data ≠ cc_toResponseId data ∧ _))
    as [(Hne & Ha & Hb)|Hbad].
  - rewrite decide_True by done.
    destruct (connections (db w) !! new_id); [left|right]; eauto.
  - rewrite decide_False; [left; eauto|]. intros (Hne & Ha & Hb).
    apply Hbad. done.
Qed.

(** Either the request is refused and the store is untouched, or the
    connection is stored; in the second case the session has no edge
    between the endpoints, which are two responses of the session. *)
Lemma create_connection_outcome new_id data w :
  (∃ message, create_connection new_id data w = refused message w)
  ∨ (create_connection new_id data w = connected new_id data w ∧
     valid_connection data = true ∧
     (∀ cid c, connections (db w) !! cid = Some c →
        ¬ existing_edge (cc_sessionId data) (cc_fromResponseId data)
                        (cc_toResponseId data) (cid, c)) ∧
     cc_fromResponseId data ≠ cc_toResponseId data ∧
     in_session (db w) (cc_sessionId data) (cc_fromResponseId data) ∧
     in_session (db w) (cc_sessionId data) (cc_toResponseId data) ∧
     connections (db w) !! new_id = None).
Proof.
  rewrite create_connection_run.
  destruct (valid_connection data); [|left; eauto].
  destruct (findFirst _ _) as [x|] eqn:Hfirst; [left; eauto|].
  destruct (decide _) as [(Hne & Ha & Hb)|Hbad]; [|left; eauto].
  destruct (connections (db w) !! new_id) eqn:Hnew; [left; eauto|].
  right. repeat split; try done. exact (findFirst_None_inv _ _ Hfirst).
Qed.

Lemma connected_preserves new_id data w :
  connections_scoped (db w) →
  (∀ cid c, connections (db w) !! cid = Some c →
     ¬ existing_edge (cc_sessionId data) (cc_fromResponseId data)
                     (cc_toResponseId data) (cid, c)) →
  in_session (db w) (cc_sessionId data) (cc_fromResponseId data) →
  in_session (db w) (cc_sessionId data) (cc_toResponseId data) →
  connections_scoped (db (connected new_id data w)) ∧
  (one_edge_per_pair (db w) → one_edge_per_pair (db (connected new_id data w))).
Proof.
  intros Hsc Hno Ha Hb. unfold connected. simpl. split.
  - intros cid c rid r Hc Hrid Hr. simpl in *.
    apply lookup_insert_Some in Hc as [[<- <-]|[_ Hc]]; [|by eapply Hsc].
    unfold in_session in Ha, Hb. simpl in *.
    destruct Hrid as [->| ->]; [rewrite Hr in Ha|rewrite Hr in Hb];
      simpl in *; congruence.
  - intros Hone cid1 c1 cid2 c2 H1 H2 Hsame. simpl in *.
    apply lookup_insert_Some in H1 as [[<- <-]|[Hn1 H1]];
      apply lookup_insert_Some in H2 as [[<- <-]|[Hn2 H2]]; simpl in *.
    + done.
    + exfalso. apply (Hno cid2 c2 H2).
      apply (scoped_edge (db w)); [done|done|done|]. destruct Hsame as [[-> ->]|[-> ->]]; auto.
    + exfalso. apply (Hno cid1 c1 H1).
      apply (scoped_edge (db w)); [done|done|done|]. destruct Hsame as [[<- <-]|[<- <-]]; auto.
    + by eapply Hone.
Qed.

Lemma remove_connection_outcome sessionId connectionId w :
  db (remove_connection sessionId connectionId w) = db w
  ∨ db (remove_connection sessionId connectionId w)
    = set_connections (delete connectionId) (db w).
Proof.
  unfold remove_connection, try_catch, remove_connection_body. run_handler.
  destruct (_ && _); simpl; [|by left].
  destruct (findFirst _ _); simpl; [by right|by left].
Qed.

Lemma not_rejected_connected message new_id data w :
  ¬ rejected_with message w (connected new_id data w).
Proof.
  unfold rejected_with, connected. simpl. intros H.
  apply app_inv_head in H. discriminate.
Qed.

(** C9, as the code has it: [create_connection] treats its two endpoints
    alike.  It is refused, with the store untouched, when an edge between
    the two responses exists in either order, when an endpoint is not a
    response of the stated session, and when both endpoints are the same
    response; a well-formed request between two different responses of
    the session that have no edge is stored.  The request with the
    endpoints exchanged is refused with the same message or stored as
    well, and the edges afterwards are the same.  Connections keep the
    session of their endpoints and there is at most one edge per
    unordered pair, also after [remove_connection]. *)
Theorem create_connection_symmetric new_id data w :
  connections_scoped (db w) →
  let sessionId := cc_sessionId data in
  let a := cc_fromResponseId data in
  let b := cc_toResponseId data in
  let w1 := create_connection new_id data w in
  let w2 := create_connection new_id (swap data) w in
  (edge (db w) a b → rejected w w1 ∧ db w1 = db w) ∧
  (¬ in_session (db w) sessionId a ∨ ¬ in_session (db w) sessionId b →
     rejected w w1 ∧ db w1 = db w) ∧
  (a = b → rejected w w1 ∧ db w1 = db w) ∧
  (valid_connection data = true → ¬ edge (db w) a b → a ≠ b →
   in_session (db w) sessionId a → in_session (db w) sessionId b →
   connections (db w) !! new_id = None →
     w1 = connected new_id data w) ∧
  (∀ message, rejected_with message w w1 ↔ rejected_with message w w2) ∧
  (∀ x y, edge (db w1) x y ↔ edge (db w2) x y) ∧
  connections_scoped (db w1) ∧
  (one_edge_per_pair (db w) → one_edge_per_pair (db w1)) ∧
  (∀ sid cid,
     connections_scoped (db (remove_connection sid cid w)) ∧
     (one_edge_per_pair (db w) →
      one_edge_per_pair (db (remove_connection sid cid w)))).
Proof.
  intros Hsc sessionId a b w1 w2.
  assert (∀ m, rejected w (refused m w) ∧ db (refused m w) = db w) as Hrefused.
  { intros m. split; [by exists m|done]. }
  split; [|split; [|split; [|split; [|split; [|split; [|split; [|split]]]]]]].
  - intros (cid & c & Hc & Hends). subst w1.
    destruct (create_connection_outcome new_id data w)
      as [[m ->]|(_ & _ & Hno & _ & Ha & _)]; [done|].
    exfalso. apply (Hno cid c Hc). by apply (scoped_edge (db w)).
  - intros Hout. subst w1.
    destruct (create_connection_outcome new_id data w)
      as [[m ->]|(_ & _ & _ & _ & Ha & Hb & _)]; [done|].
    exfalso. destruct Hout as [Hout|Hout]; by apply Hout.
  - intros Hab. subst w1.
    destruct (create_connection_outcome new_id data w)
      as [[m ->]|(_ & _ & _ & Hne & _)]; [done|].
    by destruct Hne.
  - intros Hv Hedge Hne Ha Hb Hnew. subst w1. rewrite create_connection_run, Hv.
    rewrite (findFirst_None (existing_edge (cc_sessionId data)
               (cc_fromResponseId data) (cc_toResponseId data))).
    + rewrite decide_True by done. by rewrite Hnew.
    + intros cid c Hc [_ He]. apply Hedge. by exists cid, c.
  - intros message. subst w1 w2.
    destruct (create_connection_swap new_id data w)
      as [(m & -> & ->)|[-> ->]]; [done|].
    split; intros H; by apply not_rejected_connected in H.
  - intros x y. subst w1 w2.
    destruct (create_connection_swap new_id data w)
      as [(m & -> & ->)|[-> ->]]; [done|].
    unfold edge, connected, connection_of, swap. simpl.
    split; intros (cid & c & Hc & Hends);
      apply lookup_insert_Some in Hc as [[<- <-]|[Hn Hc]]; simpl in *.
    + eexists new_id, _. rewrite lookup_insert_eq. split; [done|]. simpl. tauto.
    + exists cid, c. by rewrite lookup_insert_ne.
    + eexists new_id, _. rewrite lookup_insert_eq. split; [done|]. simpl. tauto.
    + exists cid, c. by rewrite lookup_insert_ne.
  - subst w1.
    destruct (create_connection_outcome new_id data w)
      as [[m ->]|(-> & _ & Hno & _ & Ha & Hb & _)]; [done|].
    by apply connected_preserves.
  - intros Hone. subst w1.
    destruct (create_connection_outcome new_id data w)
      as [[m ->]|(-> & _ & Hno & _ & Ha & Hb & _)]; [done|].
    by apply connected_preserves.
  - intros sid cid.
    destruct (remove_connection_outcome sid cid w) as [-> | ->]; [done|].
    unfold set_connections. split.
    + intros cid' c rid r Hc. simpl in *.
      apply lookup_delete_Some in Hc as [_ Hc]. by eapply Hsc.
    + intros Hone cid1 c1 cid2 c2 H1 H2. simpl in *.
      apply lookup_delete_Some in H1 as [_ H1].
      apply lookup_delete_Some in H2 as [_ H2]. by eapply Hone.
Qed.
End board.
(** C9, the last clause as stated fails: on the initial board, which
    has no connection, the response R1 belongs to the session S1, and yet
    the well-formed request to connect R1 with itself is not stored: it
    is refused and the store is left as it was. *)
Lemma same_endpoint_refused :
  let data := {| cc_sessionId := Fixture.S1; cc_fromResponseId := Fixture.R1;
                 cc_toResponseId := Fixture.R1 |} in
  let w1 := create_connection Fixture.NEW1 data Fixture.world in
  valid_connection data = true ∧
  ¬ edge (db Fixture.world) Fixture.R1 Fixture.R1 ∧
  in_session (db Fixture.world) Fixture.S1 Fixture.R1 ∧
  connections (db Fixture.world) !! Fixture.NEW1 = None ∧
  emitted w1 = [error "Invalid responses for connection"] ∧
  connections (db w1) = ∅.
Proof.
  repeat split; try (vm_compute; reflexivity).
  intros (cid & c & Hc & _). simpl in Hc. by rewrite lookup_empty in Hc.
Qed.

(** On the initial board a connection from R1 to R2 is stored; the
    connection from R2 to R1 is then refused. *)
Lemma create_connection_symmetric_witness :
  let data := {| cc_sessionId := Fixture.S1; cc_fromResponseId := Fixture.R1;
                 cc_toResponseId := Fixture.R2 |} in
  let w1 := create_connection Fixture.NEW1 data Fixture.world in
  w1 = connected Fixture.NEW1 data Fixture.world ∧
  connections_scoped (db w1) ∧ one_edge_per_pair (db w1) ∧
  rejected w1 (create_connection Fixture.NEW2 (swap data) w1).
Proof.
  intros data w1.
  assert (connections_scoped (db Fixture.world)) as Hsc.
  { intros cid c rid r Hc. simpl in Hc. by rewrite lookup_empty in Hc. }
  assert (one_edge_per_pair (db Fixture.world)) as Hone.
  { intros cid1 c1 cid2 c2 Hc. simpl in Hc. by rewrite lookup_empty in Hc. }
  destruct (create_connection_symmetric Fixture.NEW1 data Fixture.world Hsc)
    as (_ & _ & _ & Hstored & _ & _ & Hsc1 & Hone1 & _).
  assert (w1 = connected Fixture.NEW1 data Fixture.world) as Hw1.
  { apply Hstored.
    - vm_compute. reflexivity.
    - intros (cid & c & Hc & _). simpl in Hc. by rewrite lookup_empty in Hc.
    - vm_compute. discriminate.
    - vm_compute. reflexivity.
    - vm_compute. reflexivity.
    - apply lookup_empty. }
  split; [exact Hw1|]. split; [exact Hsc1|]. split; [exact (Hone1 Hone)|].
  destruct (create_connection_symmetric Fixture.NEW2 (swap data) w1 Hsc1)
    as (Hedge & _).
  apply Hedge. exists Fixture.NEW1, (connection_of data).
  split; [|right; split; reflexivity].
  rewrite Hw1. apply lookup_insert_eq.
Defined.

(** ** Session capacity *)

Section capacity.
Implicit Types (d : Db).

Lemma session_participants_insert d new_id p sessionId :
  participants d !! new_id = None →
  length (session_participants (set_participants (insert new_id p) d) sessionId)
  = if decide (p_sessionId p = sessionId)
    then S (length (session_participants d sessionId))
    else length (session_participants d sessionId).
Proof.
  intros Hnew. unfold session_participants, findMany, set_participants. simpl.
  rewrite !length_map_to_list.
  destruct (decide (p_sessionId p = sessionId)) as [Hs|Hs].
  - rewrite map_filter_insert_True by done.
    apply map_size_insert_None, map_lookup_filter_None. by left.
  - rewrite map_filter_insert_False by done. by rewrite delete_id.
Qed.

Lemma session_participants_fresh d sessionId :
  participants_have_session d → sessions d !! sessionId = None →
  session_participants d sessionId = [].
Proof.
  intros Hhave Hnone. unfold session_participants, findMany.
  assert (filter (λ x, p_sessionId x.2 = sessionId) (participants d) = ∅) as ->;
    [|by rewrite map_to_list_empty].
  apply map_empty. intros k. apply map_lookup_filter_None.
  destruct (participants d !! k) as [p|] eqn:Hp; [right|by left].
  intros p' ? Hs. simplify_eq/=. destruct (Hhave k p' Hp) as [s Hsome]. congruence.
Qed.

End capacity.


(** * Further properties of the handlers

    ** Virtual identifiers *)

Section virtual_identifiers.
Implicit Types (s cur rest : list N) (ids : list (list N)).

Lemma startsWith_dd c s :
  startsWith (js "--") (c :: s)
  = (45 =? c)%N && match s with [] => false | d :: _ => (45 =? d)%N end.
Proof.
  change (js "--") with [45%N; 45%N]. unfold startsWith.
  destruct s as [|d s']; [by rewrite andb_false_r|].
  by rewrite andb_true_r.
Qed.

Lemma dash_free_no_separator c s rest :
  dash_free (c :: s) = true →
  startsWith (js "--") (c :: s ++ js "--" ++ rest) = false.
Proof.
  intros Hs. cbn [dash_free] in Hs. apply andb_prop in Hs as [Hc _].
  rewrite startsWith_dd.
  destruct (c =? 45)%N eqn:E.
  - destruct s as [|d s']; [done|]. apply negb_true_iff in Hc.
    cbn [app]. rewrite (N.eqb_sym 45 d), Hc. apply andb_false_r.
  - by rewrite N.eqb_sym, E.
Qed.

Lemma split_go_piece s cur rest :
  dash_free s = true →
  split_go (js "--") 0 cur (s ++ js "--" ++ rest)
  = (reverse cur ++ s) :: split_go (js "--") 0 [] rest.
Proof.
  revert cur. induction s as [|c s IH]; intros cur Hs.
  - rewrite app_nil_r. reflexivity.
  - pose proof (dash_free_no_separator c s rest Hs) as Hno.
    cbn [dash_free] in Hs. apply andb_prop in Hs as [_ Hs].
    change ((c :: s) ++ js "--" ++ rest) with (c :: (s ++ js "--" ++ rest)).
    cbn [split_go]. rewrite Hno, (IH _ Hs), reverse_cons, <- app_assoc. done.
Qed.

Lemma split_go_last s cur :
  dash_free s = true → split_go (js "--") 0 cur s = [reverse cur ++ s].
Proof.
  revert cur. induction s as [|c s IH]; intros cur Hs.
  - by rewrite app_nil_r.
  - assert (startsWith (js "--") (c :: s) = false) as Hno.
    { cbn [dash_free] in Hs. apply andb_prop in Hs as [Hc _]. rewrite startsWith_dd.
      destruct (c =? 45)%N eqn:E.
      - destruct s as [|d s']; [done|]. apply negb_true_iff in Hc.
        rewrite (N.eqb_sym 45 d), Hc. apply andb_false_r.
      - by rewrite N.eqb_sym, E. }
    cbn [dash_free] in Hs. apply andb_prop in Hs as [_ Hs].
    cbn [split_go]. rewrite Hno, (IH _ Hs), reverse_cons, <- app_assoc. done.
Qed.

Lemma split_join ids :
  ids ≠ [] → Forall (λ s, dash_free s = true) ids →
  split (js "--") (join (js "--") ids) = ids.
Proof.
  intros Hne Hall. unfold split.
  induction Hall as [|x ids Hx Hall IH]; [done|].
  destruct ids as [|y ids].
  - change (join (js "--") [x]) with x. by rewrite split_go_last.
  - change (join (js "--") (x :: y :: ids))
      with (x ++ js "--" ++ join (js "--") (y :: ids)).
    rewrite split_go_piece by done. rewrite IH by done. done.
Qed.
Lemma is_hex_not_dash c : is_hex c = true → (c =? 45)%N = false.
Proof.
  unfold is_hex. intros H. apply N.eqb_neq. intros ->. vm_compute in H. done.
Qed.

Lemma hex_run_spec n s rest :
  hex_run n s = Some rest →
  ∃ h, s = h ++ rest ∧ length h = n ∧ Forall (λ c, is_hex c = true) h.
Proof.
  revert s. induction n as [|n IH]; intros s Hrun; simpl in Hrun.
  - exists []. by simplify_eq.
  - destruct s as [|c s]; [done|]. destruct (is_hex c) eqn:Hc; [|done].
    destruct (IH s Hrun) as (h & -> & Hlen & Hall).
    exists (c :: h). repeat split; [by rewrite <- Hlen|by constructor].
Qed.

Lemma dash_spec s rest : dash s = Some rest → s = 45%N :: rest.
Proof.
  unfold dash. destruct s as [|c s]; [done|].
  destruct (c =? 45)%N eqn:E; [|done]. apply N.eqb_eq in E. congruence.
Qed.

Lemma dash_free_hex h s :
  Forall (λ c, is_hex c = true) h → dash_free (h ++ s) = dash_free s.
Proof.
  induction 1 as [|c h Hc _ IH]; [done|].
  cbn [app dash_free]. by rewrite (is_hex_not_dash c Hc), IH.
Qed.

Lemma hex_groups_head n lens s :
  hex_groups (S n :: lens) s = true → ∃ c t, s = c :: t ∧ is_hex c = true.
Proof.
  intros H. destruct s as [|c t].
  - destruct lens; simpl in H; done.
  - exists c, t. split; [done|].
    destruct (is_hex c) eqn:Hc; [done|].
    destruct lens; simpl in H; by rewrite Hc in H.
Qed.

Lemma hex_groups_dash_free lens s :
  Forall (λ n, 0 < n)%nat lens → hex_groups lens s = true → dash_free s = true.
Proof.
  intros Hpos. revert s. induction Hpos as [|n lens Hn Hpos IH]; intros s H.
  - done.
  - destruct lens as [|m lens].
    + simpl in H. destruct (hex_run n s) as [[|]|] eqn:Hrun; try done.
      apply hex_run_spec in Hrun as (h & -> & _ & Hall).
      by rewrite dash_free_hex.
    + cbn [hex_groups] in H.
      destruct (hex_run n s) as [r|] eqn:Hrun; [|done].
      destruct (dash r) as [r'|] eqn:Hdash; [|done].
      apply hex_run_spec in Hrun as (h & -> & _ & Hall).
      apply dash_spec in Hdash as ->. rewrite dash_free_hex by done.
      inversion Hpos as [|? ? Hm _]; subst.
      destruct m as [|m]; [lia|].
      destruct (hex_groups_head _ _ _ H) as (c & t & -> & Hc).
      change (dash_free (45%N :: c :: t))
        with (negb (c =? 45)%N && dash_free (c :: t)).
      rewrite (is_hex_not_dash c Hc). apply (IH _ H).
Qed.

Lemma uuid_dash_free s : is_uuid s = true → dash_free s = true.
Proof.
  apply hex_groups_dash_free. repeat constructor; lia.
Qed.

(** X1: a chain identifier written from a non-empty list of UUIDs is
    read back as exactly that list, and passes the format check of the
    handler. *)
Theorem chain_identifier_round_trip ids :
  ids ≠ [] → Forall (λ id, is_uuid id = true) ids →
  let groupId := js "connected-" ++ join (js "--") ids in
  startsWith (js "connected-") groupId = true ∧
  chain_ids groupId = ids ∧
  (length (chain_ids groupId) =? 0)%nat
    || existsb (λ id, negb (is_uuid id)) (chain_ids groupId) = false.
Proof.
  intros Hne Hall groupId. subst groupId.
  assert (chain_ids (js "connected-" ++ join (js "--") ids) = ids) as Hids.
  { rewrite chain_ids_connected. apply split_join; [done|].
    eapply Forall_impl; [exact Hall|]. apply uuid_dash_free. }
  split; [apply chain_prefix|]. split; [done|]. rewrite Hids.
  destruct ids as [|id ids]; [done|].
  apply (valid_chain _ id Hall). left.
Qed.

Lemma chain_identifier_round_trip_witness :
  chain_ids Fixture.chain = [Fixture.R1; Fixture.R2; Fixture.R3; Fixture.R4].
Proof.
  apply (chain_identifier_round_trip
           [Fixture.R1; Fixture.R2; Fixture.R3; Fixture.R4]).
  - done.
  - repeat constructor.
Defined.
End virtual_identifiers.

(** ** Votes that are not counted, and votes that are *)

Section unresolved.
Implicit Types (w : World) (d : Db) (data : VoteData).

Lemma completion_of {A} (r : Completion A * World) c : r.1 = c → r = (c, r.2).
Proof. destruct r. simpl. by intros ->. Qed.

Lemma resolve_target_failure sessionId groupId new_id w c w1 :
  resolve_target sessionId groupId new_id w = (c, w1) →
  (∀ g, c ≠ Done g) →
  db w1 = db w ∧
  (c = Returned → rejected w w1) ∧ (c = Threw → emitted w1 = emitted w).
Proof.
  unfold resolve_target, group_create, rejected. run_handler. intros Hr Hc.
  repeat case_match; simplify_eq/=;
    try (exfalso; by eapply Hc);
    (split; [done|split; [intros; simplify_eq; eauto|intros; by simplify_eq]]).
Qed.

(** X2: when the target of a [cast_vote] cannot be resolved (the chain
    identifier is malformed, no response is found, or the store refuses
    the new group), the command is answered with one [error] and nothing
    is written. *)
Theorem unresolved_vote_writes_nothing new_id data w c w1 :
  valid_vote data = true →
  resolve_target (vd_sessionId data) (vd_groupId data) new_id w = (c, w1) →
  (∀ g, c ≠ Done g) →
  let w' := cast_vote new_id data w in
  db w' = db w ∧ rejected w w'.
Proof.
  intros Hvalid Hres Hc w'. subst w'.
  destruct (resolve_target_failure _ _ _ _ _ _ Hres Hc) as (Hdb & Hret & Hthrew).
  unfold cast_vote, try_catch, cast_vote_body. run_handler.
  rewrite Hvalid. simpl. rewrite Hres.
  destruct c as [g| |]; simpl.
  - by destruct (Hc g).
  - split; [done|]. by apply Hret.
  - split; [done|]. exists "Failed to cast vote"%string. by rewrite Hthrew.
Qed.

(** Alice votes for a single response that is not on the board. *)
Lemma unresolved_vote_writes_nothing_witness :
  let data := Fixture.vote Fixture.ALICE (js "individual-" ++ Fixture.NEW2) 1 in
  let w' := cast_vote Fixture.NEW1 data Fixture.world in
  db w' = db Fixture.world ∧ rejected Fixture.world w'.
Proof.
  intros data.
  apply (unresolved_vote_writes_nothing Fixture.NEW1 data Fixture.world Returned
           (resolve_target Fixture.S1 (js "individual-" ++ Fixture.NEW2)
              Fixture.NEW1 Fixture.world).2).
  - vm_compute. reflexivity.
  - apply completion_of. vm_compute. reflexivity.
  - intros g. discriminate.
Defined.
End unresolved.

Section budget.
Implicit Types (w : World) (d : Db) (data : VoteData).
Implicit Types (t : gmap (list N * list N) Vote).
Implicit Types (P : (list N * list N) * Vote → Prop).

Lemma sum_votes_delete_other P `{!∀ x, Decision (P x)} t k :
  (∀ v, ¬ P (k, v)) → sum_votes P (delete k t) = sum_votes P t.
Proof.
  intros Hk. unfold sum_votes. rewrite map_filter_delete.
  rewrite delete_id; [done|]. apply map_lookup_filter_None.
  destruct (t !! k) eqn:E; [right|by left]. intros v' _. apply Hk.
Qed.

Lemma sum_votes_insert_other P `{!∀ x, Decision (P x)} t k v :
  (∀ v, ¬ P (k, v)) → sum_votes P (<[k:=v]> t) = sum_votes P t.
Proof.
  intros Hk. unfold sum_votes.
  rewrite map_filter_insert_False by apply Hk.
  fold (sum_votes P (delete k t)). by apply sum_votes_delete_other.
Qed.

Lemma sum_votes_without P `{!∀ x, Decision (P x)} t k :
  (∀ v, t !! k = Some v → P (k, v)) →
  sum_votes P (delete k t) = sum_votes P t - from_option v_voteCount 0 (t !! k).
Proof.
  intros Hk. destruct (t !! k) as [v|] eqn:E; simpl.
  - rewrite (sum_votes_delete P t k v) by auto. lia.
  - rewrite delete_id by done. lia.
Qed.

(** X3: after an accepted [cast_vote] the participant's allocation in
    the session is the former allocation, less the votes the participant
    had on the target, plus the requested count; it is at most 4, and the
    allocation of every other participant is what it was.  The row of
    (participant, target), if there is one, is a row of the session. *)
Theorem accepted_vote_within_budget new_id data w g w1 :
  resolve_target (vd_sessionId data) (vd_groupId data) new_id w = (Done g, w1) →
  let sessionId := vd_sessionId data in
  let participantId := vd_participantId data in
  let w' := cast_vote new_id data w in
  accepted w1 w' →
  (∀ v, votes (db w) !! (participantId, g) = Some v → v_sessionId v = sessionId) →
  allocated sessionId participantId (db w')
    = allocated sessionId participantId (db w)
      - getExistingVoteCount participantId g (db w) + vd_voteCount data ∧
  allocated sessionId participantId (db w') ≤ 4 ∧
  ∀ session other, other ≠ participantId →
    allocated session other (db w') = allocated session other (db w).
Proof.
  intros Hres sessionId participantId w' Hacc Hrow.
  destruct (cast_vote_accepted _ _ _ _ _ Hres Hacc) as (_ & Hle & _ & Hw').
  destruct (resolve_target_frame _ _ _ _ _ _ Hres) as (Hv & _).
  assert (votes (db w') = ledger_after sessionId participantId g
                            (vd_voteCount data) (votes (db w))) as Hl.
  { subst w'. rewrite Hw'. unfold store_after. simpl. by rewrite Hv. }
  unfold allocated, getExistingVoteCount in *. rewrite Hv in Hle.
  fold sessionId participantId in Hle. rewrite Hl. unfold ledger_after.
  assert (sum_votes (λ x, v_sessionId x.2 = sessionId ∧ x.1.1 = participantId)
            (delete (participantId, g) (votes (db w)))
          = sum_votes (λ x, v_sessionId x.2 = sessionId ∧ x.1.1 = participantId)
              (votes (db w))
            - from_option v_voteCount 0 (votes (db w) !! (participantId, g)))
    as Hrest.
  { apply sum_votes_without. intros v Hv'. split; [by apply Hrow|done]. }
  assert (sum_votes (λ x, v_sessionId x.2 = sessionId ∧ x.1.1 = participantId)
            (if vd_voteCount data =? 0
             then delete (participantId, g) (votes (db w))
             else <[(participantId, g) :=
                      {| v_sessionId := from_option v_sessionId sessionId
                                          (votes (db w) !! (participantId, g));
                         v_voteCount := vd_voteCount data |}]> (votes (db w)))
          = sum_votes (λ x, v_sessionId x.2 = sessionId ∧ x.1.1 = participantId)
              (votes (db w))
            - from_option v_voteCount 0 (votes (db w) !! (participantId, g))
            + vd_voteCount data) as Hnew.
  { destruct (vd_voteCount data =? 0) eqn:Hz.
    - rewrite Hrest. lia.
    - rewrite sum_votes_insert.
      + rewrite Hrest. simpl. lia.
      + simpl. split; [|done].
        destruct (votes (db w) !! (participantId, g)) as [v|] eqn:E; simpl; auto. }
  split; [exact Hnew|]. split; [rewrite Hnew; exact Hle|].
  intros session other Hother.
  destruct (vd_voteCount data =? 0).
  - apply sum_votes_delete_other. intros v [_ Hk]. by apply Hother.
  - apply sum_votes_insert_other. intros v [_ Hk]. by apply Hother.
Qed.

(** Alice, with three votes on G1, sets her votes on G1 to two: her
    allocation is then two. *)
Lemma accepted_vote_within_budget_witness :
  let data := Fixture.vote Fixture.ALICE Fixture.G1 2 in
  let w' := cast_vote Fixture.NEW2 data Fixture.voted in
  allocated Fixture.S1 Fixture.ALICE (db w') = 2.
Proof.
  intros data w'.
  assert (accepted Fixture.voted w') as Hacc.
  { exists Fixture.S1, Fixture.G1, 2, {[ Fixture.ALICE := 2; Fixture.BOB := 4 ]}.
    vm_compute; reflexivity. }
  destruct (accepted_vote_within_budget Fixture.NEW2 data Fixture.voted Fixture.G1
              Fixture.voted eq_refl Hacc) as (Hnew & _).
  - intros v Hv. vm_compute in Hv. injection Hv as <-. reflexivity.
  - etrans; [exact Hnew|]. vm_compute. reflexivity.
Defined.
End budget.

(** ** Presence *)

Section presence.
Implicit Types (w : World) (d : Db) (p : Participant).

Lemma find_participant d sessionId participantId :
  findFirst (λ x, x.1 = participantId ∧ p_sessionId x.2 = sessionId) (participants d)
  = match participants d !! participantId with
    | Some p => if decide (p_sessionId p = sessionId)
                then Some (participantId, p) else None
    | None => None
    end.
Proof.
  destruct (participants d !! participantId) as [p|] eqn:Hp.
  - case_decide as Hs.
    + apply findFirst_pinned; [done..|]. by intros k' v' _ [? _].
    + apply findFirst_None. intros k v Hk [? ?]. simplify_eq/=.
  - apply findFirst_None. intros k v Hk [? ?]. simplify_eq/=.
Qed.

(** X4: [join_session] for an identifier that is not a participant of the
    named session is answered with one [error] and writes nothing: the
    connection is not bound and joins no room. *)
Theorem join_session_unknown_participant socket_id now sessionId participantId w :
  (∀ p, participants (db w) !! participantId = Some p → p_sessionId p ≠ sessionId) →
  let w' := join_session socket_id now sessionId participantId w in
  db w' = db w ∧ rejected w w'.
Proof.
  intros Hno w'. subst w'.
  unfold join_session, try_catch, join_session_body, rejected. run_handler.
  destruct (is_uuid sessionId && is_uuid participantId); simpl; [|by eauto].
  rewrite find_participant.
  destruct (participants (db w) !! participantId) as [p|] eqn:Hp; simpl; [|by eauto].
  case_decide as Hs; simpl; [|by eauto]. by destruct (Hno p).
Qed.

(** Bob names the session S2, of which he is no participant. *)
Lemma join_session_unknown_participant_witness :
  let w' := join_session Fixture.bob_socket 5 Fixture.S2 Fixture.BOB Fixture.world in
  db w' = db Fixture.world ∧ rejected Fixture.world w'.
Proof.
  apply (join_session_unknown_participant Fixture.bob_socket 5 Fixture.S2
           Fixture.BOB Fixture.world).
  intros p Hp. vm_compute in Hp. injection Hp as <-. vm_compute. discriminate.
Defined.

(** What a [join_session] of a participant of the session leaves. *)
Lemma join_session_run socket_id now sessionId participantId w p :
  is_uuid sessionId = true → is_uuid participantId = true →
  participants (db w) !! participantId = Some p → p_sessionId p = sessionId →
  let d' := set_participants (alter (set_socket (Some socket_id) now) participantId)
                             (db w) in
  join_session socket_id now sessionId participantId w =
    {| db := d';
       emitted := emitted w ++
         [room_joined sessionId;
          session_joined (sessions (db w) !! sessionId) (participantId, p)
            (session_participants d' sessionId);
          participant_joined sessionId participantId (p_displayName p)
            (p_avatarId p) (p_isHost p);
          redis_setEx (js "participant:" ++ participantId) 3600 socket_id] |}.
Proof.
  intros Hs Hp Hrow Hsid d'. subst d'.
  unfold join_session, try_catch, join_session_body. run_handler.
  rewrite Hs, Hp. simpl. rewrite find_participant, Hrow. simpl.
  rewrite decide_True by done. simpl. rewrite Hrow. simpl.
  by rewrite <- !app_assoc.
Qed.

(** The participants bound to a connection. *)
Lemma bound_after_join socket_id now participantId d p :
  participants d !! participantId = Some p →
  (∀ pid' p', participants d !! pid' = Some p' → p_socketId p' = Some socket_id →
              pid' = participantId) →
  findFirst (λ x, p_socketId x.2 = Some socket_id)
    (alter (set_socket (Some socket_id) now) participantId (participants d))
  = Some (participantId, set_socket (Some socket_id) now p).
Proof.
  intros Hp Honly. apply findFirst_pinned.
  - by rewrite lookup_alter_eq, Hp.
  - done.
  - intros k' v' Hk' Hsock. destruct (decide (k' = participantId)) as [|Hne]; [done|].
    rewrite lookup_alter_ne in Hk' by done. eauto.
Qed.

(** X5: a participant of the session joins on a connection that is bound
    to nobody else and the connection is then closed: the participant is
    bound to the connection in between and bound to none afterwards, the
    only change to the store between the beginning and the end being the
    participant's socket and time of last activity. *)
Theorem join_then_disconnect socket_id now now' sessionId participantId w p :
  is_uuid sessionId = true → is_uuid participantId = true →
  participants (db w) !! participantId = Some p → p_sessionId p = sessionId →
  (∀ pid' p', participants (db w) !! pid' = Some p' →
              p_socketId p' = Some socket_id → pid' = participantId) →
  let w1 := join_session socket_id now sessionId participantId w in
  let w2 := disconnect socket_id now' w1 in
  p_socketId <$> participants (db w1) !! participantId = Some (Some socket_id) ∧
  db w2 = set_participants (insert participantId (set_socket None now' p)) (db w) ∧
  ∃ events, emitted w2 = emitted w1 ++ participant_left sessionId participantId :: events.
Proof.
  intros Hs Hp Hrow Hsid Honly w1 w2. subst w2 w1.
  rewrite (join_session_run _ _ _ _ _ _ Hs Hp Hrow Hsid).
  split; [simpl; by rewrite lookup_alter_eq, Hrow|].
  unfold disconnect, try_log, disconnect_body. run_handler.
  rewrite (bound_after_join _ _ _ _ _ Hrow Honly). simpl.
  rewrite lookup_alter_eq, Hrow. simpl. split.
  - unfold set_participants. simpl. f_equal.
    apply map_eq. intros k. destruct (decide (k = participantId)) as [->|Hne].
    + by rewrite lookup_alter_eq, lookup_alter_eq, Hrow, lookup_insert_eq.
    + by rewrite !lookup_alter_ne, lookup_insert_ne.
  - rewrite Hsid. eexists. rewrite <- !app_assoc. simpl. reflexivity.
Qed.

(** Bob joins on a new connection, which is then closed. *)
Lemma join_then_disconnect_witness :
  let socket := js "socket-2" in
  let w1 := join_session socket 5 Fixture.S1 Fixture.BOB Fixture.world in
  let w2 := disconnect socket 9 w1 in
  p_socketId <$> participants (db w1) !! Fixture.BOB = Some (Some socket) ∧
  p_socketId <$> participants (db w2) !! Fixture.BOB = Some None.
Proof.
  intros socket w1 w2.
  destruct (join_then_disconnect socket 5 9 Fixture.S1 Fixture.BOB Fixture.world
              Fixture.bob eq_refl eq_refl eq_refl eq_refl) as (H1 & H2 & _).
  - intros pid' p' Hp' Hsock. unfold Fixture.world, Fixture.board in Hp'.
    simpl in Hp'. apply lookup_insert_Some in Hp' as [[_ <-]|[_ Hp']].
    + vm_compute in Hsock. discriminate.
    + apply lookup_singleton_Some in Hp' as [_ <-]. vm_compute in Hsock. discriminate.
  - split; [exact H1|]. fold w1 w2 in H2. rewrite H2. simpl.
    by rewrite lookup_insert_eq.
Defined.
Lemma find_host_on socket_id sessionId d :
  is_Some (findFirst (host_on socket_id sessionId) (participants d))
  ↔ bound_to_host d sessionId socket_id.
Proof.
  split.
  - intros [[pid p] Hf]. apply findMany_head in Hf as [Hp (Hsock & Hsid & Hhost)].
    by exists pid, p.
  - intros (pid & p & Hp & Hsid & Hsock & Hhost).
    destruct (findFirst _ _) as [x|] eqn:Hf; [done|].
    by destruct (findFirst_None_inv _ _ Hf pid p Hp).
Qed.

(** X6: once the host of a session has joined on a connection that is
    bound to no other participant of the session, the connection is
    authorised: a [change_phase] from it whose end time is a date is
    persisted and broadcast, one whose end time is not a date is answered
    "Failed to change phase" and writes nothing, and a
    [start_presentation] from it is broadcast. *)
Theorem host_join_authorizes socket_id now sessionId participantId w p s :
  is_uuid sessionId = true → is_uuid participantId = true →
  sessions (db w) !! sessionId = Some s →
  participants (db w) !! participantId = Some p →
  p_sessionId p = sessionId → p_isHost p = true →
  (∀ pid' p', participants (db w) !! pid' = Some p' → p_sessionId p' = sessionId →
              p_socketId p' = Some socket_id → pid' = participantId) →
  let w1 := join_session socket_id now sessionId participantId w in
  authorized (db w1) sessionId socket_id ∧
  (∀ now' data, cp_sessionId data = sessionId →
     let w2 := change_phase socket_id now' data w1 in
     let endTime :=
       if truthy_boolean (cp_stopTimer data) then None
       else if truthy_number (cp_timerDuration data)
            then (λ t, now' + t * 1000) <$> cp_timerDuration data
            else None in
     ((∀ t, endTime = Some t → -8640000000000000 ≤ t ≤ 8640000000000000) →
      s_currentPhase <$> sessions (db w2) !! sessionId = Some (cp_phase data) ∧
      s_timerEndTime <$> sessions (db w2) !! sessionId = Some endTime ∧
      emitted w2 = emitted w1 ++ [phase_changed sessionId (cp_phase data) endTime]) ∧
     ((∃ t, endTime = Some t ∧ (t < -8640000000000000 ∨ 8640000000000000 < t)) →
      db w2 = db w1 ∧ rejected_with "Failed to change phase" w1 w2)) ∧
  emitted (start_presentation socket_id sessionId w1)
    = emitted w1 ++ [presentation_started sessionId].
Proof.
  intros Hs Hp Hsession Hrow Hsid Hhost Honly w1.
  assert (db w1 = set_participants
                    (alter (set_socket (Some socket_id) now) participantId) (db w))
    as Hdb.
  { subst w1. by rewrite (join_session_run _ _ _ _ _ _ Hs Hp Hrow Hsid). }
  assert (authorized (db w1) sessionId socket_id) as Hauth.
  { rewrite Hdb. split.
    - exists participantId, (set_socket (Some socket_id) now p). simpl.
      by rewrite lookup_alter_eq, Hrow.
    - intros pid' p' Hp' Hsid' Hsock'. simpl in Hp'.
      destruct (decide (pid' = participantId)) as [->|Hne].
      + rewrite lookup_alter_eq, Hrow in Hp'. by simplify_eq/=.
      + rewrite lookup_alter_ne in Hp' by done. by destruct (Hne (Honly _ _ Hp' Hsid' Hsock')). }
  split; [done|]. split.
  - intros now' data <- w2 endTime.
    assert (sessions (db w1) !! cp_sessionId data = Some s) as Hs1
      by by rewrite Hdb.
    split.
    + intros Hdate%(valid_date_bounds endTime).
      destruct (change_phase_timer w1 socket_id now' data s Hs Hs1 Hauth Hdate)
        as [Hrow' Hev].
      fold w2 in Hrow', Hev. rewrite Hrow'. done.
    + intros Hdate%(valid_date_bounds endTime). subst w2.
      by rewrite (change_phase_invalid_date w1 socket_id now' data s Hs Hs1 Hauth Hdate).
  - unfold start_presentation, try_catch, start_presentation_body. run_handler.
    rewrite Hs. simpl.
    destruct (proj2 (find_host_on socket_id sessionId (db w1)) (proj1 Hauth))
      as [x ->]. done.
Qed.

(** Alice, the host, joins on a new connection and changes the phase;
    her request for a timer of 1e13 seconds is refused. *)
Lemma host_join_authorizes_witness :
  let socket := js "socket-2" in
  let w1 := join_session socket 5 Fixture.S1 Fixture.ALICE Fixture.world in
  let data := {| cp_sessionId := Fixture.S1; cp_phase := PhaseTag "DISCUSS";
                 cp_timerDuration := None; cp_stopTimer := None |} in
  let endless := {| cp_sessionId := Fixture.S1; cp_phase := PhaseTag "DISCUSS";
                    cp_timerDuration := Some 10000000000000;
                    cp_stopTimer := None |} in
  s_currentPhase <$> sessions (db (change_phase socket 9 data w1)) !! Fixture.S1
  = Some (PhaseTag "DISCUSS") ∧
  rejected_with "Failed to change phase" w1 (change_phase socket 9 endless w1).
Proof.
  intros socket w1 data endless.
  destruct (host_join_authorizes socket 5 Fixture.S1 Fixture.ALICE Fixture.world
              Fixture.alice Fixture.session1 eq_refl eq_refl eq_refl eq_refl
              eq_refl eq_refl) as (_ & Hphase & _).
  - intros pid' p' Hp' _ Hsock. unfold Fixture.world, Fixture.board in Hp'.
    simpl in Hp'. apply lookup_insert_Some in Hp' as [[_ <-]|[_ Hp']].
    + vm_compute in Hsock. discriminate.
    + apply lookup_singleton_Some in Hp' as [_ <-]. vm_compute in Hsock. discriminate.
  - split.
    + apply (proj1 (Hphase 9 data eq_refl)). intros t Ht. discriminate.
    + apply (proj2 (Hphase 9 endless eq_refl)).
      exists 10000000000000009. split; [reflexivity|lia].
Defined.

(** X7: closing a connection unbinds exactly one of the participants
    bound to it, the one the store lists first: its socket is cleared and
    its time of last activity set, [participant_left] is sent to its
    session and its keys are deleted from Redis.  Every other row of
    every table is left as it is, so that the other participants bound
    to the connection stay bound.  Nothing at all happens when nobody is
    bound. *)
Theorem disconnect_unbinds_one socket_id now w :
  let w' := disconnect socket_id now w in
  match head (bound_to socket_id (db w)) with
  | None => w' = w
  | Some (pid, p) =>
      participants (db w) !! pid = Some p ∧ p_socketId p = Some socket_id ∧
      db w' = set_participants
                (insert pid {| p_sessionId := p_sessionId p;
                               p_displayName := p_displayName p;
                               p_avatarId := p_avatarId p; p_isHost := p_isHost p;
                               p_socketId := None; p_lastActive := now |}) (db w) ∧
      emitted w' = emitted w ++
        [participant_left (p_sessionId p) pid;
         redis_del (js "participant:" ++ pid);
         redis_del (js "typing:" ++ p_sessionId p ++ js ":" ++ pid)] ∧
      (∀ k, k ≠ pid → participants (db w') !! k = participants (db w) !! k)
  end ∧
  length (bound_to socket_id (db w')) = pred (length (bound_to socket_id (db w))).
Proof.
  intros w'. subst w'. unfold disconnect, try_log, disconnect_body, bound_to.
  run_handler. unfold findFirst.
  destruct (findMany _ (participants (db w))) as [|[pid p] l] eqn:Hl; simpl.
  { by rewrite Hl. }
  assert (head (findMany (λ x, p_socketId x.2 = Some socket_id)
                         (participants (db w))) = Some (pid, p)) as Hh
    by by rewrite Hl.
  apply findMany_head in Hh as [Hp Hsock]. simpl in Hp, Hsock.
  rewrite Hp. simpl. split.
  - split; [done|]. split; [done|]. split; [|split].
    + unfold set_participants. f_equal.
      exact (alter_as_insert (set_socket None now) _ pid p Hp).
    + by rewrite <- !app_assoc.
    + intros k Hk. by rewrite lookup_alter_ne.
  - unfold findMany in *. rewrite !length_map_to_list.
    assert (filter (λ x, p_socketId x.2 = Some socket_id)
              (alter (set_socket None now) pid (participants (db w)))
            = delete pid (filter (λ x, p_socketId x.2 = Some socket_id)
                            (participants (db w)))) as ->.
    { apply map_eq. intros k. destruct (decide (k = pid)) as [->|Hne].
      - rewrite lookup_delete_eq. apply map_lookup_filter_None. right.
        intros p'. rewrite lookup_alter_eq, Hp. simpl. intros [= <-]. done.
      - rewrite lookup_delete_ne by done.
        rewrite !map_lookup_filter, lookup_alter_ne by done. done. }
    rewrite map_size_delete.
    rewrite (proj2 (map_lookup_filter_Some _ _ pid p)) by done.
    apply (f_equal length) in Hl. rewrite length_map_to_list in Hl. simpl in Hl. lia.
Qed.

(** Alice's connection is closed: nobody is bound to it any more. *)
Lemma disconnect_unbinds_one_witness :
  bound_to Fixture.alice_socket (db (disconnect Fixture.alice_socket 9 Fixture.world))
  = [].
Proof.
  apply nil_length_inv.
  etrans; [exact (proj2 (disconnect_unbinds_one Fixture.alice_socket 9 Fixture.world))|].
  vm_compute. reflexivity.
Defined.
End presence.

(** ** Presentation *)

Section presentation.
Implicit Types (w : World) (d : Db).

Lemma start_presentation_by_host socket_id sessionId w :
  is_uuid sessionId = true → bound_to_host (db w) sessionId socket_id →
  start_presentation socket_id sessionId w
  = {| db := db w; emitted := emitted w ++ [presentation_started sessionId] |}.
Proof.
  intros Hs Hb. unfold start_presentation, try_catch, start_presentation_body.
  run_handler. rewrite Hs. simpl.
  by destruct (proj2 (find_host_on socket_id sessionId (db w)) Hb) as [x ->].
Qed.

(** X8: the three presentation commands never write to the store; from a
    connection bound to a host of the session they are broadcast to the
    room, and from any other connection they are answered with an
    [error]. *)
Theorem presentation_requires_host socket_id sessionId itemIndex w :
  let started := start_presentation socket_id sessionId w in
  let ended := end_presentation socket_id sessionId w in
  let navigated := navigate_presentation socket_id sessionId itemIndex w in
  (db started = db w ∧ db ended = db w ∧ db navigated = db w) ∧
  (is_uuid sessionId = true → 0 ≤ itemIndex →
   bound_to_host (db w) sessionId socket_id →
   emitted started = emitted w ++ [presentation_started sessionId] ∧
   emitted ended = emitted w ++ [presentation_ended sessionId] ∧
   emitted navigated = emitted w ++ [presentation_navigate sessionId itemIndex]) ∧
  (¬ bound_to_host (db w) sessionId socket_id →
   rejected w started ∧ rejected w ended ∧ rejected w navigated).
Proof.
  intros started ended navigated. subst started ended navigated.
  unfold start_presentation, end_presentation, navigate_presentation, try_catch,
    start_presentation_body, end_presentation_body, navigate_presentation_body,
    rejected.
  run_handler.
  pose proof (find_host_on socket_id sessionId (db w)) as Hfind.
  destruct (findFirst (host_on socket_id sessionId) (participants (db w)))
    as [x|] eqn:Hf.
  - assert (bound_to_host (db w) sessionId socket_id) as Hb by (apply Hfind; eauto).
    split; [|split].
    + destruct (is_uuid sessionId), (0 <=? itemIndex); simpl; rewrite ?Hf; done.
    + intros -> Hi _. apply Z.leb_le in Hi. rewrite Hi. simpl. by rewrite Hf.
    + intros Hno. by destruct (Hno Hb).
  - split; [|split].
    + destruct (is_uuid sessionId), (0 <=? itemIndex); simpl; rewrite ?Hf; done.
    + intros _ _ Hb. apply Hfind in Hb as [? ?]. done.
    + intros _.
      destruct (is_uuid sessionId), (0 <=? itemIndex); simpl; rewrite ?Hf; simpl;
        repeat split; eexists; reflexivity.
Qed.

(** Alice, the host, starts the presentation and moves to the third item. *)
Lemma presentation_requires_host_witness :
  emitted (start_presentation Fixture.alice_socket Fixture.S1 Fixture.world)
    = [presentation_started Fixture.S1] ∧
  emitted (navigate_presentation Fixture.alice_socket Fixture.S1 2 Fixture.world)
    = [presentation_navigate Fixture.S1 2].
Proof.
  destruct (proj1 (proj2 (presentation_requires_host Fixture.alice_socket Fixture.S1 2
                            Fixture.world)) eq_refl ltac:(lia))
    as (Hs & _ & Hn).
  - exists Fixture.ALICE, Fixture.alice. repeat split; reflexivity.
  - exact (conj Hs Hn).
Defined.

(** X9: the connection whose [change_phase] is accepted is one whose
    [start_presentation] is accepted: the phase controller asks that the
    first participant of the session bound to the connection be a host,
    the presentation commands that one of them be. *)
Theorem change_phase_implies_presentation socket_id now data w phase endTime room :
  emitted (change_phase socket_id now data w)
    = emitted w ++ [phase_changed room phase endTime] →
  emitted (start_presentation socket_id (cp_sessionId data) w)
    = emitted w ++ [presentation_started (cp_sessionId data)].
Proof.
  unfold change_phase, try_catch, change_phase_body. run_handler.
  intros Hacc.
  assert (is_uuid (cp_sessionId data) = true ∧
          bound_to_host (db w) (cp_sessionId data) socket_id) as [Hs Hb].
  { destruct (is_uuid (cp_sessionId data)); simpl in Hacc;
      [|by apply app_inv_head in Hacc].
    split; [done|].
    destruct (sessions (db w) !! cp_sessionId data) as [s|] eqn:Hses; simpl in Hacc;
      [|by apply app_inv_head in Hacc].
    destruct (head (findMany _ _)) as [[pid p]|] eqn:Hh; simpl in Hacc;
      [|by apply app_inv_head in Hacc].
    apply findMany_head in Hh as [Hp [Hsid Hsock]]; simpl in *.
    destruct (p_isHost p) eqn:Hhost; simpl in Hacc;
      [|by apply app_inv_head in Hacc].
    by exists pid, p. }
  by rewrite start_presentation_by_host.
Qed.

(** Alice changes the phase of her session. *)
Lemma change_phase_implies_presentation_witness :
  emitted (start_presentation Fixture.alice_socket Fixture.S1 Fixture.world)
    = [presentation_started Fixture.S1].
Proof.
  apply (change_phase_implies_presentation Fixture.alice_socket 1700000000000
           {| cp_sessionId := Fixture.S1; cp_phase := PhaseTag "DISCUSS";
              cp_timerDuration := None; cp_stopTimer := None |}
           Fixture.world (PhaseTag "DISCUSS") None Fixture.S1).
  vm_compute. reflexivity.
Defined.
End presentation.

(** ** Responses *)

Section responses.
Implicit Types (w : World) (d : Db) (r : Response).

Lemma find_authored d socket_id responseId :
  findFirst (λ x, x.1 = responseId ∧ authored_on d socket_id x.2) (responses d)
  = match responses d !! responseId with
    | Some r => if decide (authored_on d socket_id r)
                then Some (responseId, r) else None
    | None => None
    end.
Proof.
  destruct (responses d !! responseId) as [r|] eqn:Hr.
  - case_decide as Ha.
    + apply findFirst_pinned; [done..|]. by intros k' v' _ [? _].
    + apply findFirst_None. intros k v Hk [? ?]. by simplify_eq/=.
  - apply findFirst_None. intros k v Hk [? ?]. simplify_eq/=.
Qed.

(** X10: [update_response] writes when the response exists, its author is
    bound to the requesting connection and the payload is valid: the
    content of that response is replaced, nothing else in the store
    changes, and [response_updated] is sent.  Every other request is
    answered with an [error] and writes nothing. *)
Theorem update_response_by_author socket_id responseId content w :
  let w' := update_response socket_id responseId content w in
  let allowed r :=
    responses (db w) !! responseId = Some r ∧
    (∃ author, participants (db w) !! r_participantId r = Some author ∧
               p_socketId author = Some socket_id) ∧
    is_uuid responseId = true ∧ (1 ≤ length content ≤ 500)%nat in
  (∀ r, allowed r →
     db w' = set_responses
               (insert responseId
                  {| r_sessionId := r_sessionId r;
                     r_participantId := r_participantId r;
                     r_content := content; r_category := r_category r;
                     r_positionX := r_positionX r; r_positionY := r_positionY r;
                     r_groupId := r_groupId r |}) (db w) ∧
     emitted w' = emitted w ++
                  [response_updated responseId (set_content content r)]) ∧
  ((∀ r, ¬ allowed r) → db w' = db w ∧ rejected w w') ∧
  (∀ k, k ≠ responseId → responses (db w') !! k = responses (db w) !! k) ∧
  sessions (db w') = sessions (db w) ∧ participants (db w') = participants (db w) ∧
  groups (db w') = groups (db w) ∧ connections (db w') = connections (db w) ∧
  votes (db w') = votes (db w).
Proof.
  intros w' allowed. subst w'.
  assert (∀ r, authored_on (db w) socket_id r
               ↔ ∃ author, participants (db w) !! r_participantId r = Some author ∧
                           p_socketId author = Some socket_id) as Hauthor.
  { intros r. unfold authored_on.
    destruct (participants (db w) !! r_participantId r) as [author|]; simpl.
    - split; [by exists author|]. by intros (a & [= <-] & ?).
    - split; [done|]. by intros (a & ? & ?). }
  unfold update_response, try_catch, update_response_body, rejected. run_handler.
  destruct (is_uuid responseId) eqn:Hid; simpl.
  2:{ split; [by intros r (_ & _ & ? & _)|]. repeat split; eauto. }
  unfold length_between.
  destruct (1 <=? length content)%nat eqn:Hlo; simpl.
  2:{ apply Nat.leb_gt in Hlo. split; [intros r (_ & _ & _ & ?); lia|].
      repeat split; eauto. }
  destruct (length content <=? 500)%nat eqn:Hhi; simpl.
  2:{ apply Nat.leb_gt in Hhi. split; [intros r (_ & _ & _ & ?); lia|].
      repeat split; eauto. }
  apply Nat.leb_le in Hlo, Hhi.
  rewrite find_authored.
  destruct (responses (db w) !! responseId) as [r|] eqn:Hr; simpl.
  2:{ split; [by intros r (? & _)|]. repeat split; eauto. }
  case_decide as Ha; simpl.
  2:{ split; [intros r' ([= <-] & Hb & _); by apply Hauthor in Hb|].
      repeat split; eauto. }
  rewrite Hr. simpl. split; [|split; [|split; [|done]]].
  - intros r' ([= <-] & _). split; [|done].
    unfold set_responses. f_equal.
    exact (alter_as_insert (set_content content) _ responseId r Hr).
  - intros Hno. destruct (Hno r). repeat split; try done; try lia.
    by apply Hauthor.
  - intros k Hk. by rewrite lookup_alter_ne.
Qed.

(** Bob, on his connection, rewrites his response R2; Alice's connection
    cannot. *)
Lemma update_response_by_author_witness :
  r_content <$> responses (db (update_response Fixture.bob_socket Fixture.R2
                                 (js "Stand-ups are short") Fixture.world))
                !! Fixture.R2
    = Some (js "Stand-ups are short") ∧
  db (update_response Fixture.alice_socket Fixture.R2 (js "Stand-ups are short")
        Fixture.world) = db Fixture.world.
Proof.
  split.
  - destruct (proj1 (update_response_by_author Fixture.bob_socket Fixture.R2
                       (js "Stand-ups are short") Fixture.world)
                (Fixture.response Fixture.BOB "Stand-ups start on time" 30 40))
      as [Hdb _].
    + split; [reflexivity|]. split; [by exists Fixture.bob|].
      split; [reflexivity|]. vm_compute. split; apply Nat.leb_le; reflexivity.
    + rewrite Hdb. reflexivity.
  - apply (proj1 (proj2 (update_response_by_author Fixture.alice_socket Fixture.R2
                           (js "Stand-ups are short") Fixture.world))).
    intros r (Hr & (author & Ha & Hsock) & _).
    vm_compute in Hr. injection Hr as <-. vm_compute in Ha. injection Ha as <-.
    vm_compute in Hsock. discriminate.
Defined.

(** X11: the typing indicators never write to the store and never answer
    with an [error]; a payload that fails validation is dropped without
    any event. *)
Theorem typing_never_answers socket_id sessionId participantId w :
  let started := typing_start socket_id sessionId participantId w in
  let stopped := typing_stop sessionId participantId w in
  db started = db w ∧ db stopped = db w ∧
  (∃ events, emitted started = emitted w ++ events ∧ ∀ m, error m ∉ events) ∧
  (∃ events, emitted stopped = emitted w ++ events ∧ ∀ m, error m ∉ events) ∧
  (is_uuid sessionId && is_uuid participantId = false →
   emitted started = emitted w ∧ emitted stopped = emitted w) ∧
  (is_uuid sessionId && is_uuid participantId = true →
   emitted started = emitted w ++
     [participant_typing_start sessionId participantId;
      redis_setEx (js "typing:" ++ sessionId ++ js ":" ++ participantId) 10 socket_id] ∧
   emitted stopped = emitted w ++
     [participant_typing_stop sessionId participantId;
      redis_del (js "typing:" ++ sessionId ++ js ":" ++ participantId)]).
Proof.
  intros started stopped. subst started stopped.
  unfold typing_start, typing_stop, try_log. run_handler.
  destruct (is_uuid sessionId && is_uuid participantId); simpl.
  - split; [done|]. split; [done|]. rewrite <- !app_assoc. simpl.
    split; [|split; [|split; [done|done]]].
    + eexists. split; [done|]. intros m Hm.
      apply elem_of_cons in Hm as [Hm|Hm]; [done|].
      apply elem_of_cons in Hm as [Hm|Hm]; [done|]. by apply elem_of_nil in Hm.
    + eexists. split; [done|]. intros m Hm.
      apply elem_of_cons in Hm as [Hm|Hm]; [done|].
      apply elem_of_cons in Hm as [Hm|Hm]; [done|]. by apply elem_of_nil in Hm.
  - split; [done|]. split; [done|].
    split; [|split; [|split; [done|done]]].
    + exists []. rewrite app_nil_r. split; [done|]. intros m Hm. by apply elem_of_nil in Hm.
    + exists []. rewrite app_nil_r. split; [done|]. intros m Hm. by apply elem_of_nil in Hm.
Qed.

(** Bob starts typing; a payload without a session is dropped. *)
Lemma typing_never_answers_witness :
  emitted (typing_start Fixture.bob_socket Fixture.S1 Fixture.BOB Fixture.world)
    = [participant_typing_start Fixture.S1 Fixture.BOB;
       redis_setEx (js "typing:" ++ Fixture.S1 ++ js ":" ++ Fixture.BOB) 10
         Fixture.bob_socket] ∧
  emitted (typing_start Fixture.bob_socket [] Fixture.BOB Fixture.world) = [].
Proof.
  split.
  - exact (proj1 (proj2 (proj2 (proj2 (proj2 (proj2
             (typing_never_answers Fixture.bob_socket Fixture.S1 Fixture.BOB
                Fixture.world))))) eq_refl)).
  - exact (proj1 (proj1 (proj2 (proj2 (proj2 (proj2
             (typing_never_answers Fixture.bob_socket [] Fixture.BOB
                Fixture.world))))) eq_refl)).
Defined.
End responses.

(** ** REST routes *)

Section rest.
Implicit Types (w : World) (d : Db).

(** X12: [PATCH /api/sessions/:sessionId/phase] looks up no participant:
    for any caller it persists the phase of an existing session when the
    end time of the timer is a date, and is answered 500 with nothing
    written when it is not; in both cases the store it leaves is the one
    the socket command [change_phase] leaves for the host with the same
    phase and duration and without [stopTimer]. *)
Theorem patch_phase_unguarded now sessionId phase timerDuration d s :
  is_uuid sessionId = true → sessions d !! sessionId = Some s →
  let result := patch_phase_route now sessionId phase timerDuration d in
  let endTime :=
    if truthy_number timerDuration then (λ t, now + t * 1000) <$> timerDuration
    else None in
  ((∀ t, endTime = Some t → -8640000000000000 ≤ t ≤ 8640000000000000) →
   ∃ s', result.1 = phase_ok s' ∧ sessions result.2 !! sessionId = Some s' ∧
         s_currentPhase s' = phase ∧ s_timerEndTime s' = endTime) ∧
  ((∃ t, endTime = Some t ∧ (t < -8640000000000000 ∨ 8640000000000000 < t)) →
   result = (phase_error 500 "Failed to update phase", d)) ∧
  ∀ socket_id w stopTimer, db w = d → authorized d sessionId socket_id →
    truthy_boolean stopTimer = false →
    db (change_phase socket_id now
          {| cp_sessionId := sessionId; cp_phase := phase;
             cp_timerDuration := timerDuration; cp_stopTimer := stopTimer |} w)
    = result.2.
Proof.
  intros Hid Hs result endTime. subst result. unfold patch_phase_route.
  rewrite Hid, Hs. simpl. fold endTime.
  destruct (valid_date_bounds endTime) as [Hvalid Hinvalid].
  destruct (from_option valid_date true endTime) eqn:Hdate; simpl.
  - split; [|split; [intros Hdate'%Hinvalid; discriminate|]].
    + intros _. eexists. split; [done|]. by rewrite lookup_insert_eq.
    + intros socket_id w stopTimer <- [(pid & p & Hp & Hsid & Hsock & Hhost) Hall]
        Hstop.
      unfold change_phase, try_catch, change_phase_body. run_handler.
      rewrite Hid, Hs. simpl.
      destruct (head (findMany _ _)) as [[pid' p']|] eqn:Hh; simpl.
      * apply findMany_head in Hh as [Hp' [Hsid' Hsock']]; simpl in *.
        rewrite (Hall pid' p' Hp' Hsid' Hsock'). simpl. rewrite Hstop.
        fold endTime. rewrite Hdate. simpl. rewrite Hs. simpl.
        unfold set_sessions. f_equal. by apply alter_as_insert.
      * exfalso. destruct (findMany _ _) as [|x l] eqn:Hl; [|done].
        by eapply (findMany_nil _ _ Hl pid p Hp).
  - split; [|split; [done|]].
    { intros Hdate'%Hvalid. discriminate. }
    intros socket_id w stopTimer <- Hauth Hstop.
    rewrite (change_phase_invalid_date w socket_id now _ s); [done..|].
    unfold requested_end_time. simpl. by rewrite Hstop.
Qed.

(** The phase of the session S1 is changed over HTTP. *)
Lemma patch_phase_unguarded_witness :
  let result := patch_phase_route 1700000000000 Fixture.S1 (PhaseTag "DISCUSS")
                  (Some 30) Fixture.board in
  db (change_phase Fixture.alice_socket 1700000000000
        {| cp_sessionId := Fixture.S1; cp_phase := PhaseTag "DISCUSS";
           cp_timerDuration := Some 30; cp_stopTimer := None |} Fixture.world)
  = result.2.
Proof.
  intros result.
  apply (proj2 (proj2 (patch_phase_unguarded 1700000000000 Fixture.S1
                         (PhaseTag "DISCUSS") (Some 30) Fixture.board
                         Fixture.session1 eq_refl eq_refl))
           Fixture.alice_socket Fixture.world None eq_refl); [|reflexivity].
  split.
  - exists Fixture.ALICE, Fixture.alice. repeat split; reflexivity.
  - intros pid p Hp _ Hsock. unfold Fixture.board in Hp. simpl in Hp.
    apply lookup_insert_Some in Hp as [[_ <-]|[_ Hp]]; [reflexivity|].
    apply lookup_singleton_Some in Hp as [_ <-]. vm_compute in Hsock. discriminate.
Defined.

Lemma generateInviteCode_from_spec random i n result :
  generateInviteCode_from random i n result
  = result ++ mjoin ((λ j, charAt chars (random j)) <$> seq i n).
Proof.
  revert i result. induction n as [|n IH]; intros i result; simpl.
  - by rewrite app_nil_r.
  - by rewrite IH, <- app_assoc.
Qed.

Lemma charAt_in_range (s : list N) i :
  (i < length s)%nat → ∃ c, s !! i = Some c ∧ charAt s i = [c].
Proof.
  intros Hi. destruct (lookup_lt_is_Some_2 s i Hi) as [c Hc].
  exists c. split; [done|]. unfold charAt. by rewrite Hc.
Qed.

Lemma generateInviteCode_draws random :
  (∀ i, (random i < length chars)%nat) →
  generateInviteCode random = (λ j, default 0%N (chars !! random j)) <$> seq 0 8.
Proof.
  intros Hr. unfold generateInviteCode.
  rewrite generateInviteCode_from_spec. simpl.
  repeat match goal with
         | |- context [charAt chars (random ?i)] =>
             let c := fresh "c" in let Hc := fresh "Hc" in let He := fresh "He" in
             destruct (charAt_in_range chars (random i) (Hr i)) as (c & Hc & He);
             rewrite He, Hc
         end.
  reflexivity.
Qed.

(** X13: [generateInviteCode] returns eight characters of its alphabet,
    the character at each position being the one drawn for it; the letter
    O and the digit 0 never occur, and the code has the length that
    [POST /join] asks of an invite code. *)
Theorem generateInviteCode_format random :
  (∀ i, (random i < length chars)%nat) →
  let code := generateInviteCode random in
  (∀ i, (i < 8)%nat → code !! i = chars !! random i) ∧
  (length code =? 8)%nat = true ∧
  Forall (λ c, c ∈ chars ∧ c ≠ 79%N ∧ c ≠ 48%N) code.
Proof.
  intros Hr code. subst code. rewrite (generateInviteCode_draws random Hr).
  assert (Forall (λ c, c ≠ 79%N ∧ c ≠ 48%N) chars) as Hnot.
  { apply (bool_decide_unpack _). vm_compute. exact I. }
  split; [|split].
  - intros i Hi. rewrite list_lookup_fmap, lookup_seq_lt by done. simpl.
    by destruct (lookup_lt_is_Some_2 chars (random i) (Hr i)) as [c ->].
  - done.
  - apply Forall_fmap, Forall_forall. intros j _. simpl.
    destruct (lookup_lt_is_Some_2 chars (random j) (Hr j)) as [c Hc].
    rewrite Hc. simpl. split; [by eapply list_elem_of_lookup_2|].
    exact (proj1 (Forall_lookup _ _) Hnot (random j) c Hc).
Qed.

(** The draws 0, 1, ..., 7 give the code ABCDEFGH. *)
Lemma generateInviteCode_format_witness :
  generateInviteCode (λ i, i `min` 7)%nat = js "ABCDEFGH" ∧
  (length (generateInviteCode (λ i, i `min` 7)%nat) =? 8)%nat = true.
Proof.
  split; [vm_compute; reflexivity|].
  apply (generateInviteCode_format (λ i, i `min` 7)%nat).
  intros i. change (length chars) with 34%nat. lia.
Defined.

(** X14: a session created by [POST /] with a generated invite code can be
    joined with that code: a [POST /join] under a name that differs from
    the host's up to case is answered 201 and adds a participant who is
    not a host; the session then has two participants. *)
Theorem created_session_can_be_joined (toLowerCase : jsstring → jsstring)
    default_phase default_timerDuration sessionId hostId random now created d d1
    new_id now' joining :
  participants_have_session d →
  (∀ i, (random i < length chars)%nat) →
  create_session_route default_phase default_timerDuration sessionId hostId
    (generateInviteCode random) now created d = (http_created hostId, d1) →
  j_inviteCode joining = generateInviteCode random →
  length_between 1 50 (j_displayName joining) = true →
  length_between 1 20 (j_avatarId joining) = true →
  toLowerCase (cs_hostName created) ≠ toLowerCase (j_displayName joining) →
  participants d1 !! new_id = None →
  ∃ d2, join_route toLowerCase new_id now' joining d1 = (http_created new_id, d2) ∧
        participants d2 !! new_id
        = Some {| p_sessionId := sessionId; p_displayName := j_displayName joining;
                  p_avatarId := j_avatarId joining; p_isHost := false;
                  p_socketId := None; p_lastActive := now' |} ∧
        length (session_participants d2 sessionId) = 2%nat.
Proof.
  intros Hhave Hr Hcreate Hcode Hname Havatar Hdiff Hnew.
  unfold create_session_route in Hcreate.
  destruct (negb _); [done|].
  destruct (sessions d !! sessionId) eqn:Hsid; [done|].
  destruct (participants d !! hostId) eqn:Hhid; [done|].
  destruct (findFirst _ (sessions d)) eqn:Hfree; [done|].
  injection Hcreate as <-.
  set (session := {| s_inviteCode := generateInviteCode random; s_hostId := hostId;
                     s_title := from_option id (js "Retrospective") (cs_title created);
                     s_currentPhase := default_phase;
                     s_timerDuration := default_timerDuration;
                     s_timerEndTime := None |}) in *.
  set (host := {| p_sessionId := sessionId; p_displayName := cs_hostName created;
                  p_avatarId := cs_hostAvatar created; p_isHost := true;
                  p_socketId := None; p_lastActive := now |}) in *.
  unfold join_route. rewrite Hcode, Hname, Havatar.
  assert (length (generateInviteCode random) = 8%nat) as Hlen
    by by rewrite (generateInviteCode_draws random Hr).
  rewrite Hlen. change (negb _) with false. cbv iota.
  rewrite (findFirst_pinned _ _ sessionId session); cycle 1.
  { simpl. by rewrite lookup_insert_eq. }
  { done. }
  { intros k' v' Hk' Hc. simpl in Hk', Hc.
    destruct (decide (k' = sessionId)) as [|Hne]; [done|].
    rewrite lookup_insert_ne in Hk' by done.
    by destruct (findFirst_None_inv _ _ Hfree k' v' Hk'). }
  cbv zeta. cbn [fst snd].
  assert (session_participants
            (set_participants (insert hostId host)
               (set_sessions (insert sessionId session) d)) sessionId
          = [(hostId, host)]) as Hps.
  { pose proof (session_participants_fresh d sessionId Hhave Hsid) as Hfresh.
    unfold session_participants, findMany in *. simpl.
    apply map_to_list_empty_iff in Hfresh.
    rewrite map_filter_insert_True by done. rewrite Hfresh, insert_empty.
    apply map_to_list_singleton. }
  rewrite Hps. simpl. rewrite bool_decide_eq_false_2 by done.
  simpl in Hnew. rewrite Hnew. eexists. split; [done|]. simpl.
  split; [by rewrite lookup_insert_eq|].
  rewrite (session_participants_insert
             (set_participants (insert hostId host)
                (set_sessions (insert sessionId session) d))) by done.
  simpl. rewrite decide_True by done. by rewrite Hps.
Qed.

(** On the empty store Alice creates a session, which Bob joins. *)
Lemma created_session_can_be_joined_witness :
  let created := {| cs_title := None; cs_hostName := js "Alice";
                    cs_hostAvatar := js "fox" |} in
  let joining := {| j_inviteCode := js "ABCDEFGH"; j_displayName := js "Bob";
                    j_avatarId := js "owl" |} in
  let d1 := (create_session_route (PhaseTag "INPUT") None Fixture.S1 Fixture.ALICE
               (js "ABCDEFGH") 1 created empty_db).2 in
  (join_route (λ s, s) Fixture.BOB 2 joining d1).1 = http_created Fixture.BOB.
Proof.
  intros created joining d1.
  destruct (created_session_can_be_joined (λ s, s) (PhaseTag "INPUT") None
              Fixture.S1 Fixture.ALICE (λ i, i `min` 7)%nat 1 created empty_db d1
              Fixture.BOB 2 joining) as (d2 & -> & _).
  - intros pid p Hp. vm_compute in Hp. discriminate.
  - intros i. change (length chars) with 34%nat. lia.
  - vm_compute. reflexivity.
  - vm_compute. reflexivity.
  - reflexivity.
  - reflexivity.
  - vm_compute. discriminate.
  - vm_compute. reflexivity.
  - reflexivity.
Defined.
End rest.

(** ** What the commands leave alone *)

Section footprints.
Implicit Types (w : World) (d : Db).

Lemma lookup_alter_proj `{Countable K} {V B} (g : V → B) (f : V → V)
    (m : gmap K V) k k' :
  (∀ v, g (f v) = g v) → g <$> alter f k' m !! k = g <$> m !! k.
Proof.
  intros Hg. destruct (decide (k = k')) as [->|Hne].
  - rewrite lookup_alter_eq. destruct (m !! k'); simpl; [|done]. by rewrite Hg.
  - by rewrite lookup_alter_ne.
Qed.

Lemma lookup_updateMany_proj `{Countable K} {V B} (g : V → B) (f : V → V)
    (P : K * V → Prop) `{!∀ x, Decision (P x)} (m : gmap K V) k :
  (∀ v, g (f v) = g v) → g <$> updateMany P f m !! k = g <$> m !! k.
Proof.
  intros Hg. rewrite updateMany_lookup. destruct (m !! k); simpl; [|done].
  case_decide; [by rewrite Hg|done].
Qed.

Lemma same_people_refl d : same_people d d.
Proof. by split. Qed.

Lemma same_board_refl d : same_board d d.
Proof. by split. Qed.


Lemma groups_kept_refl d : groups_kept d d.
Proof. intros k g Hg. exists (g_voteCount g). rewrite Hg. by destruct g. Qed.

Lemma same_people_trans d1 d2 d3 :
  same_people d1 d2 → same_people d2 d3 → same_people d1 d3.
Proof.
  intros [Hp Hs] [Hp' Hs']. split; intros k; [by rewrite Hp', Hp|by rewrite Hs', Hs].
Qed.

Lemma same_board_trans d1 d2 d3 :
  same_board d1 d2 → same_board d2 d3 → same_board d1 d3.
Proof.
  intros [Hc Hr] [Hc' Hr']. split; [congruence|]. intros k. by rewrite Hr', Hr.
Qed.

Lemma groups_kept_trans d1 d2 d3 :
  groups_kept d1 d2 → groups_kept d2 d3 → groups_kept d1 d3.
Proof.
  intros H12 H23 k g Hg. destruct (H12 k g Hg) as [n Hn].
  destruct (H23 k _ Hn) as [n' Hn']. exists n'. by rewrite Hn'.
Qed.

Lemma resolve_target_footprint sessionId groupId new_id w c w1 :
  resolve_target sessionId groupId new_id w = (c, w1) →
  (∀ k, set_groupId None <$> responses (db w1) !! k
        = set_groupId None <$> responses (db w) !! k) ∧
  groups_kept (db w) (db w1).
Proof.
  unfold resolve_target, group_create. run_handler. intros Hr.
  repeat case_match; simplify_eq/=; (split; [intros k; simpl|]);
    try done; try apply groups_kept_refl.
  - by apply lookup_updateMany_proj.
  - intros k g Hg. exists (g_voteCount g). simpl.
    rewrite lookup_insert_ne by congruence. rewrite Hg. by destruct g.
  - by apply lookup_alter_proj.
  - intros k g Hg. exists (g_voteCount g). simpl.
    rewrite lookup_insert_ne by congruence. rewrite Hg. by destruct g.
Qed.

Lemma settle_vote_footprint sessionId participantId groupId g voteCount w c w2 :
  settle_vote sessionId participantId groupId g voteCount w = (c, w2) →
  sessions (db w2) = sessions (db w) ∧ participants (db w2) = participants (db w) ∧
  responses (db w2) = responses (db w) ∧ connections (db w2) = connections (db w) ∧
  groups_kept (db w) (db w2).
Proof.
  unfold settle_vote, vote_upsert. run_handler. intros Hr.
  repeat case_match; simplify_eq/=; (do 4 (split; [done|]));
    try apply groups_kept_refl;
    intros k G HG; simpl;
    try (by exists (g_voteCount G); rewrite HG; destruct G);
    (destruct (decide (k = g)) as [->|Hne];
     [rewrite lookup_alter_eq, HG; simpl; eauto
     |rewrite lookup_alter_ne by done; exists (g_voteCount G); rewrite HG;
      by destruct G]).
Qed.

Lemma cast_vote_frames new_id data w :
  let w' := cast_vote new_id data w in
  sessions (db w') = sessions (db w) ∧
  participants (db w') = participants (db w) ∧
  connections (db w') = connections (db w) ∧
  (∀ k, set_groupId None <$> responses (db w') !! k
        = set_groupId None <$> responses (db w) !! k) ∧
  groups_kept (db w) (db w').
Proof.
  intros w'. subst w'.
  unfold cast_vote, try_catch, cast_vote_body. run_handler.
  destruct (valid_vote data); simpl;
    [|do 4 (split; [done|]); apply groups_kept_refl].
  destruct (resolve_target _ _ _ w) as [c w1] eqn:Hres.
  destruct (resolve_target_frame _ _ _ _ _ _ Hres) as (_ & Hs1 & Hp1 & Hc1).
  destruct (resolve_target_footprint _ _ _ _ _ _ Hres) as (Hr1 & Hg1).
  destruct c as [g| |]; simpl; try done.
  destruct (settle_vote _ _ _ g _ w1) as [c2 w2] eqn:Hset.
  destruct (settle_vote_footprint _ _ _ _ _ _ _ _ Hset)
    as (Hs2 & Hp2 & Hr2 & Hc2 & Hg2).
  assert (groups_kept (db w) (db w2)) by by eapply groups_kept_trans.
  destruct c2; simpl; rewrite ?Hs2, ?Hp2, ?Hr2, ?Hc2; done.
Qed.

(** X15: a [cast_vote], whatever its payload and outcome, leaves the
    sessions, the participants and the connections as they are; it
    deletes no response and no group; a response keeps its session,
    author, content, category and position, a group its session, label,
    colour and position. *)
Theorem cast_vote_footprint new_id data w :
  let w' := cast_vote new_id data w in
  sessions (db w') = sessions (db w) ∧
  participants (db w') = participants (db w) ∧
  connections (db w') = connections (db w) ∧
  (∀ k r, responses (db w) !! k = Some r →
     ∃ g, responses (db w') !! k = Some (set_groupId g r)) ∧
  (∀ k r', responses (db w') !! k = Some r' → is_Some (responses (db w) !! k)) ∧
  (∀ k G, groups (db w) !! k = Some G →
     ∃ n, groups (db w') !! k = Some (set_voteCount n G)).
Proof.
  intros w'. subst w'.
  destruct (cast_vote_frames new_id data w) as (Hs & Hp & Hc & Hr & Hg).
  do 3 (split; [done|]). split; [|split; [|done]].
  - intros k r Hk. pose proof (Hr k) as Hrk. rewrite Hk in Hrk.
    destruct (responses (db (cast_vote new_id data w)) !! k) as [r'|]; [|done].
    exists (r_groupId r'). f_equal. simpl in Hrk.
    destruct r, r'. unfold set_groupId in Hrk |- *. simpl in Hrk |- *.
    by injection Hrk as -> -> -> -> -> ->.
  - intros k r' Hk. pose proof (Hr k) as Hrk. rewrite Hk in Hrk.
    by destruct (responses (db w) !! k).
Qed.
End footprints.

(** ** What the commands maintain *)

Section invariants.
Variable toLowerCase : jsstring → jsstring.
Variable default_phase : SessionPhase.
Variable default_timerDuration : option Z.
Variable default_positionX default_positionY : Z.
Implicit Types (w : World) (d : Db) (c : Command).

Lemma run_all_snoc cs c :
  run_all toLowerCase default_phase default_timerDuration default_positionX
    default_positionY (cs ++ [c])
  = run toLowerCase default_phase default_timerDuration default_positionX
      default_positionY c
      (run_all toLowerCase default_phase default_timerDuration default_positionX
         default_positionY cs).
Proof. unfold run_all. by rewrite foldl_app. Qed.

Local Abbreviation run :=
  (run toLowerCase default_phase default_timerDuration default_positionX
       default_positionY).
Local Abbreviation run_all :=
  (run_all toLowerCase default_phase default_timerDuration default_positionX
           default_positionY).

Lemma lookup_insert_proj `{Countable K} {V B} (g : V → B) (m : gmap K V) k k' v v' :
  m !! k' = Some v → g v' = g v → g <$> <[k':=v']> m !! k = g <$> m !! k.
Proof.
  intros Hk Hg. destruct (decide (k = k')) as [->|Hne].
  - by rewrite lookup_insert_eq, Hk; simpl; rewrite Hg.
  - by rewrite lookup_insert_ne.
Qed.

Ltac unfold_handlers :=
  unfold join_session, change_phase, typing_start, typing_stop, add_response,
    update_response, create_connection, remove_connection, start_presentation,
    end_presentation, navigate_presentation, disconnect, served, try_catch, try_log,
    join_session_body, change_phase_body, add_response_body, update_response_body,
    create_connection_body, remove_connection_body, start_presentation_body,
    end_presentation_body, navigate_presentation_body, disconnect_body,
    patch_phase_route, create_session_route, join_route in *;
  run_handler.

Lemma run_same_people c w :
  match c with
  | PostSession _ _ _ _ _ | PostJoin _ _ _ => True
  | _ => same_people (db w) (db (run c w))
  end.
Proof.
  destruct c; try done; simpl;
    try (destruct (cast_vote_frames new_id data w) as (Hs & Hp & _);
         split; intros k; by rewrite ?Hs, ?Hp);
    unfold_handlers; repeat case_match; simplify_eq/=;
    try apply same_people_refl;
    (split; intros k; simpl; try done).
  all: try by apply lookup_alter_proj.
  all: by eapply lookup_insert_proj.
Qed.

Lemma run_same_board c w :
  match c with
  | AddResponse _ _ | CreateConnection _ _ | RemoveConnection _ _ => True
  | _ => same_board (db w) (db (run c w))
  end.
Proof.
  destruct c; try done; simpl;
    try (destruct (cast_vote_frames new_id data w) as (_ & _ & Hc & Hr & _);
         split; [done|]; intros k; rewrite !option_fmap_compose; by rewrite Hr);
    unfold_handlers; repeat case_match; simplify_eq/=;
    try apply same_board_refl;
    (split; [done|]; intros k; simpl; try done).
  all: by apply lookup_alter_proj.
Qed.


Lemma same_people_sym d d' : same_people d d' → same_people d' d.
Proof. intros [Hp Hs]. split; intros k; by rewrite ?Hp, ?Hs. Qed.

Lemma same_people_participant d d' k p' :
  same_people d d' → participants d' !! k = Some p' →
  ∃ p, participants d !! k = Some p ∧ p_sessionId p = p_sessionId p' ∧
       p_displayName p = p_displayName p' ∧ p_isHost p = p_isHost p'.
Proof.
  intros [Hp _] Hk. pose proof (Hp k) as Hi. rewrite Hk in Hi.
  destruct (participants d !! k) as [p|]; [|done].
  exists p. split; [done|]. unfold identity in Hi. simpl in Hi. by simplify_eq.
Qed.

Lemma same_people_session d d' k s' :
  same_people d d' → sessions d' !! k = Some s' →
  ∃ s, sessions d !! k = Some s ∧ s_inviteCode s = s_inviteCode s' ∧
       s_hostId s = s_hostId s'.
Proof.
  intros [_ Hs] Hk. pose proof (Hs k) as Hi. rewrite Hk in Hi.
  destruct (sessions d !! k) as [s|]; [|done].
  exists s. split; [done|]. unfold session_identity in Hi. simpl in Hi.
  by simplify_eq.
Qed.

Lemma same_people_invariant d d' :
  same_people d d' → people_invariant toLowerCase d → people_invariant toLowerCase d'.
Proof.
  intros Hsame (Hhave & Hhost & Hcodes & Hnames).
  pose proof (same_people_sym _ _ Hsame) as Hback.
  split; [|split; [|split]].
  - intros pid p' Hp'.
    destruct (same_people_participant _ _ _ _ Hsame Hp') as (p & Hp & Hsid & _).
    destruct (Hhave pid p Hp) as [s Hs]. rewrite Hsid in Hs.
    destruct (same_people_session _ _ _ _ Hback Hs) as (s' & -> & _). done.
  - intros sid s' Hs'.
    destruct (same_people_session _ _ _ _ Hsame Hs') as (s & Hs & _ & Hh).
    destruct (Hhost sid s Hs) as [(p & Hp & Hsid) Honly]. split.
    + destruct (same_people_participant _ _ _ _ Hback Hp) as (p' & Hp' & Hsid' & _).
      exists p'. rewrite <- Hh. split; [done|congruence].
    + intros pid p' Hp' Hsid'.
      destruct (same_people_participant _ _ _ _ Hsame Hp') as (p0 & Hp0 & Hs0 & _ & Hi0).
      rewrite <- Hh, <- Hi0. apply (Honly pid p0 Hp0). congruence.
  - intros id1 s1 id2 s2 H1 H2 Hcode.
    destruct (same_people_session _ _ _ _ Hsame H1) as (s1' & H1' & Hc1 & _).
    destruct (same_people_session _ _ _ _ Hsame H2) as (s2' & H2' & Hc2 & _).
    apply (Hcodes id1 s1' id2 s2' H1' H2'). congruence.
  - intros id1 p1 id2 p2 H1 H2 Hsid Hname.
    destruct (same_people_participant _ _ _ _ Hsame H1) as (p1' & H1' & Hs1 & Hn1 & _).
    destruct (same_people_participant _ _ _ _ Hsame H2) as (p2' & H2' & Hs2 & Hn2 & _).
    apply (Hnames id1 p1' id2 p2' H1' H2'); congruence.
Qed.

Lemma create_session_route_people sessionId hostId inviteCode now data d :
  people_invariant toLowerCase d →
  people_invariant toLowerCase
    (create_session_route default_phase default_timerDuration sessionId hostId
       inviteCode now data d).2.
Proof.
  intros Hinv. pose proof Hinv as (Hhave & Hhost & Hcodes & Hnames).
  unfold create_session_route.
  destruct (negb _); [done|].
  destruct (sessions d !! sessionId) eqn:Hsid; [done|].
  destruct (participants d !! hostId) eqn:Hhid; [done|].
  destruct (findFirst _ _) eqn:Hfree; [done|]. simpl.
  assert (∀ pid p, participants d !! pid = Some p → p_sessionId p ≠ sessionId)
    as Hfresh.
  { intros pid p Hp <-. destruct (Hhave pid p Hp) as [s Hs]. congruence. }
  split; [|split; [|split]].
  - intros pid p Hp. simpl in *.
    apply lookup_insert_Some in Hp as [[_ <-]|[_ Hp]]; simpl.
    + rewrite lookup_insert_eq. by eexists.
    + rewrite lookup_insert_is_Some'. right. by eapply Hhave.
  - intros sid s Hs. simpl in *.
    apply lookup_insert_Some in Hs as [[<- <-]|[Hne Hs]]; simpl.
    + split; [eexists; by rewrite lookup_insert_eq|].
      intros pid p Hp Hsid'.
      apply lookup_insert_Some in Hp as [[<- <-]|[_ Hp]]; [done|].
      by destruct (Hfresh pid p Hp).
    + destruct (Hhost sid s Hs) as [(p & Hp & Hsid') Honly]. split.
      * exists p. split; [|done]. rewrite lookup_insert_ne; [done|]. congruence.
      * intros pid p' Hp' Hsid''.
        apply lookup_insert_Some in Hp' as [[<- <-]|[_ Hp']]; [done|].
        by apply Honly.
  - intros id1 s1 id2 s2 H1 H2 Hcode. simpl in *.
    apply lookup_insert_Some in H1 as [[<- <-]|[Hn1 H1]];
      apply lookup_insert_Some in H2 as [[<- <-]|[Hn2 H2]]; simpl in *.
    + done.
    + by destruct (findFirst_None_inv _ _ Hfree id2 s2 H2).
    + by destruct (findFirst_None_inv _ _ Hfree id1 s1 H1).
    + by eapply Hcodes.
  - intros id1 p1 id2 p2 H1 H2 Hsid' Hname. simpl in *.
    apply lookup_insert_Some in H1 as [[<- <-]|[Hn1 H1]];
      apply lookup_insert_Some in H2 as [[<- <-]|[Hn2 H2]]; simpl in *.
    + done.
    + by destruct (Hfresh id2 p2 H2).
    + by destruct (Hfresh id1 p1 H1).
    + by eapply Hnames.
Qed.

Lemma join_route_people new_id now data d :
  people_invariant toLowerCase d →
  people_invariant toLowerCase (join_route toLowerCase new_id now data d).2.
Proof.
  intros Hinv. pose proof Hinv as (Hhave & Hhost & Hcodes & Hnames).
  unfold join_route.
  destruct (negb _); [done|].
  destruct (findFirst _ _) as [[sid session]|] eqn:Hfound; [|done].
  cbv zeta. cbn [fst snd].
  destruct (15 <=? length (session_participants d sid))%nat; [done|].
  destruct (List.find _ _) eqn:Hfind; [done|].
  destruct (participants d !! new_id) eqn:Hnew; [done|]. simpl.
  apply findMany_head in Hfound as [Hs _]. simpl in Hs.
  assert (∀ pid p, participants d !! pid = Some p → p_sessionId p = sid →
            toLowerCase (p_displayName p) ≠ toLowerCase (j_displayName data))
    as Hfree.
  { intros pid p Hp Hsid Hname.
    assert (In (pid, p) (session_participants d sid)) as Hin.
    { apply list_elem_of_In. by apply findMany_elem. }
    pose proof (find_none _ _ Hfind (pid, p) Hin) as Hb. simpl in Hb.
    by apply bool_decide_eq_false in Hb. }
  split; [|split; [|split]].
  - intros pid p Hp. simpl in *.
    apply lookup_insert_Some in Hp as [[_ <-]|[_ Hp]]; [by eexists|by eapply Hhave].
  - intros sid' s Hs'. simpl in *.
    destruct (Hhost sid' s Hs') as [(p & Hp & Hsid') Honly]. split.
    + exists p. split; [|done]. rewrite lookup_insert_ne; [done|]. congruence.
    + intros pid p' Hp' Hsid''.
      apply lookup_insert_Some in Hp' as [[<- <-]|[_ Hp']]; [|by apply Honly].
      simpl. split; [done|]. intros ->. congruence.
  - done.
  - intros id1 p1 id2 p2 H1 H2 Hsid' Hname. simpl in *.
    apply lookup_insert_Some in H1 as [[<- <-]|[Hn1 H1]];
      apply lookup_insert_Some in H2 as [[<- <-]|[Hn2 H2]]; simpl in *.
    + done.
    + by destruct (Hfree id2 p2 H2).
    + by destruct (Hfree id1 p1 H1).
    + by eapply Hnames.
Qed.

Lemma run_people c w :
  people_invariant toLowerCase (db w) → people_invariant toLowerCase (db (run c w)).
Proof.
  intros Hinv. pose proof (run_same_people c w) as Hsame.
  destruct c; try (by eapply same_people_invariant).
  - by apply create_session_route_people.
  - by apply join_route_people.
Qed.

(** X16: after any sequence of commands on the empty store, every
    participant belongs to a session of the store; every session has a
    host, the participant named by its [hostId], and no other; no two
    sessions have the same invite code; and no two participants of a
    session have the same name up to case. *)
Theorem people_maintained cs : people_invariant toLowerCase (db (run_all cs)).
Proof.
  induction cs as [|c cs IH] using rev_ind.
  - split; [|split; [|split]].
    + intros pid p Hp. done.
    + intros sid s Hs. done.
    + intros id1 s1 id2 s2 H1. done.
    + intros id1 p1 id2 p2 H1. done.
  - rewrite run_all_snoc. by apply run_people.
Qed.

Lemma same_board_invariant d d' :
  same_board d d' → board_invariant d → board_invariant d'.
Proof.
  intros [Hc Hr] (Hsc & He & Hone).
  assert (∀ k r', responses d' !! k = Some r' →
            ∃ r, responses d !! k = Some r ∧ r_sessionId r = r_sessionId r')
    as Hback.
  { intros k r' Hk. pose proof (Hr k) as Hi. rewrite Hk in Hi.
    destruct (responses d !! k) as [r|]; [|done]. exists r. split; [done|].
    simpl in Hi. by simplify_eq. }
  assert (∀ k, is_Some (responses d !! k) → is_Some (responses d' !! k)) as Hdom.
  { intros k [r Hk]. pose proof (Hr k) as Hi. rewrite Hk in Hi.
    by destruct (responses d' !! k). }
  split; [|split].
  - intros cid c rid r' Hcid Hrid Hresp. rewrite Hc in Hcid.
    destruct (Hback rid r' Hresp) as (r & Hk & <-). by eapply Hsc.
  - intros cid c Hcid. rewrite Hc in Hcid.
    destruct (He cid c Hcid) as [H1 H2]. split; by apply Hdom.
  - intros cid1 c1 cid2 c2. rewrite Hc. apply Hone.
Qed.

Lemma add_response_board new_id data w :
  board_invariant (db w) →
  board_invariant (db (add_response default_positionX default_positionY new_id data w)).
Proof.
  intros (Hsc & He & Hone).
  unfold add_response, try_catch, add_response_body. run_handler.
  repeat case_match; simplify_eq/=; try done.
  split; [|split].
  - intros cid c rid r Hcid Hrid Hresp. simpl in *.
    apply lookup_insert_Some in Hresp as [[<- <-]|[_ Hresp]]; [|by eapply Hsc].
    destruct (He cid c Hcid) as [[r1 H1] [r2 H2]].
    destruct Hrid as [->| ->]; congruence.
  - intros cid c Hcid. simpl in *.
    destruct (He cid c Hcid) as [H1 H2].
    rewrite !lookup_insert_is_Some'. auto.
  - done.
Qed.

Lemma create_connection_board new_id data w :
  board_invariant (db w) → board_invariant (db (create_connection new_id data w)).
Proof.
  intros (Hsc & He & Hone).
  destruct (create_connection_outcome new_id data w)
    as [[message ->]|(-> & _ & Hno & _ & Ha & Hb & _)]; [done|].
  destruct (connected_preserves new_id data w Hsc Hno Ha Hb) as [Hsc' Hone'].
  split; [done|]. split; [|by apply Hone'].
  intros cid c Hcid. simpl in *.
  apply lookup_insert_Some in Hcid as [[_ <-]|[_ Hcid]]; [|by apply (He cid)].
  unfold in_session in Ha, Hb. simpl. split.
  - by destruct (responses (db w) !! cc_fromResponseId data).
  - by destruct (responses (db w) !! cc_toResponseId data).
Qed.

Lemma remove_connection_board sessionId connectionId w :
  board_invariant (db w) →
  board_invariant (db (remove_connection sessionId connectionId w)).
Proof.
  intros (Hsc & He & Hone).
  destruct (remove_connection_outcome sessionId connectionId w) as [->| ->]; [done|].
  split; [|split].
  - intros cid c rid r Hcid. simpl in Hcid.
    apply lookup_delete_Some in Hcid as [_ Hcid]. by eapply Hsc.
  - intros cid c Hcid. simpl in Hcid.
    apply lookup_delete_Some in Hcid as [_ Hcid]. by apply (He cid).
  - intros cid1 c1 cid2 c2 H1 H2. simpl in H1, H2.
    apply lookup_delete_Some in H1 as [_ H1].
    apply lookup_delete_Some in H2 as [_ H2]. by eapply Hone.
Qed.

Lemma run_board c w : board_invariant (db w) → board_invariant (db (run c w)).
Proof.
  intros Hinv. pose proof (run_same_board c w) as Hsame.
  destruct c; try (by eapply same_board_invariant).
  - by apply add_response_board.
  - by apply create_connection_board.
  - by apply remove_connection_board.
Qed.

(** X17: after any sequence of commands on the empty store, both
    endpoints of every connection are responses of the store, of the
    session of the connection, and there is at most one connection per
    unordered pair of responses. *)
Theorem board_maintained cs : board_invariant (db (run_all cs)).
Proof.
  induction cs as [|c cs IH] using rev_ind.
  - split; [|split].
    + intros cid c rid r Hc. done.
    + intros cid c Hc. done.
    + intros cid1 c1 cid2 c2 H1. done.
  - rewrite run_all_snoc. by apply run_board.
Qed.












End invariants.

(** ** Connections, created and removed *)

Section connections.
Implicit Types (w : World) (d : Db) (data : CreateConnectionData).

Lemma find_connection (t : gmap Id Connection) sessionId connectionId :
  findFirst (λ x, x.1 = connectionId ∧ c_sessionId x.2 = sessionId) t
  = match t !! connectionId with
    | Some c => if decide (c_sessionId c = sessionId)
                then Some (connectionId, c) else None
    | None => None
    end.
Proof.
  destruct (t !! connectionId) as [c|] eqn:Hc.
  - case_decide as Hs.
    + apply findFirst_pinned; [done..|]. by intros k' v' _ [? _].
    + apply findFirst_None. intros k v Hk [? ?]. by simplify_eq/=.
  - apply findFirst_None. intros k v Hk [? ?]. simplify_eq/=.
Qed.

(** X19: a connection that was accepted can be removed by naming its
    session: the store is then the one before the connection was created,
    and [connection_removed] is broadcast.  Naming another session is
    answered with an [error] and removes nothing. *)
Theorem connect_then_remove new_id data w c :
  is_uuid new_id = true →
  emitted (create_connection new_id data w)
    = emitted w ++ [connection_created (cc_sessionId data) new_id c] →
  let w1 := create_connection new_id data w in
  let w2 := remove_connection (cc_sessionId data) new_id w1 in
  connections (db w1) !! new_id = Some (connection_of data) ∧
  db w2 = db w ∧
  emitted w2 = emitted w1 ++ [connection_removed (cc_sessionId data) new_id] ∧
  ∀ sessionId, sessionId ≠ cc_sessionId data →
    db (remove_connection sessionId new_id w1) = db w1 ∧
    rejected w1 (remove_connection sessionId new_id w1).
Proof.
  intros Hid Hacc w1 w2. subst w2 w1.
  destruct (create_connection_outcome new_id data w)
    as [[message Hw1]|(Hw1 & Hvalid & _ & _ & _ & _ & Hnew)]; rewrite Hw1 in *.
  { simpl in Hacc. apply app_inv_head in Hacc. discriminate. }
  assert (is_uuid (cc_sessionId data) = true) as Hsid.
  { unfold valid_connection in Hvalid. apply andb_prop in Hvalid as [Hvalid _].
    by apply andb_prop in Hvalid as [? _]. }
  split; [simpl; by rewrite lookup_insert_eq|].
  unfold remove_connection, try_catch, remove_connection_body, rejected.
  run_handler. rewrite Hid, Hsid. simpl.
  rewrite !find_connection. simpl. rewrite lookup_insert_eq. simpl.
  rewrite decide_True by done. simpl. split; [|split; [done|]].
  - unfold set_connections. simpl. rewrite delete_insert_eq, delete_id by done.
    by destruct (db w).
  - intros sessionId Hne.
    destruct (is_uuid sessionId); simpl; [|by eauto].
    rewrite find_connection. simpl. rewrite lookup_insert_eq. simpl.
    rewrite decide_False by done. simpl. eauto.
Qed.

(** On the initial board R1 and R2 are connected and disconnected again. *)
Lemma connect_then_remove_witness :
  let data := {| cc_sessionId := Fixture.S1; cc_fromResponseId := Fixture.R1;
                 cc_toResponseId := Fixture.R2 |} in
  db (remove_connection Fixture.S1 Fixture.NEW1
        (create_connection Fixture.NEW1 data Fixture.world)) = db Fixture.world.
Proof.
  intros data.
  apply (connect_then_remove Fixture.NEW1 data Fixture.world (connection_of data)
           eq_refl).
  vm_compute. reflexivity.
Defined.
End connections.

(** ** A response is added and voted for *)

Section added_response.
Variable default_positionX default_positionY : Z.
Implicit Types (w : World) (d : Db) (data : ResponseData).

Local Abbreviation add :=
  (add_response default_positionX default_positionY).

(** The row [add_response] stores. *)
Lemma add_response_accepted new_id data w r :
  emitted (add new_id data w) = emitted w ++ [response_added new_id r] →
  r = {| r_sessionId := rd_sessionId data; r_participantId := rd_participantId data;
         r_content := rd_content data; r_category := rd_category data;
         r_positionX := default_positionX; r_positionY := default_positionY;
         r_groupId := None |} ∧
  is_uuid (rd_sessionId data) = true ∧ is_uuid (rd_participantId data) = true ∧
  is_Some (sessions (db w) !! rd_sessionId data) ∧
  is_Some (participants (db w) !! rd_participantId data) ∧
  responses (db w) !! new_id = None ∧
  add new_id data w
  = {| db := set_responses (insert new_id r) (db w);
       emitted := emitted w ++ [response_added new_id r] |}.
Proof.
  unfold add_response, try_catch, add_response_body. run_handler.
  destruct (is_uuid (rd_sessionId data)); simpl;
    [|intros H; apply app_inv_head in H; discriminate].
  destruct (is_uuid (rd_participantId data)); simpl;
    [|intros H; apply app_inv_head in H; discriminate].
  destruct (length_between 1 500 (rd_content data)); simpl;
    [|intros H; apply app_inv_head in H; discriminate].
  destruct (sessions (db w) !! rd_sessionId data); simpl;
    [|intros H; apply app_inv_head in H; discriminate].
  destruct (participants (db w) !! rd_participantId data); simpl;
    [|intros H; apply app_inv_head in H; discriminate].
  destruct (responses (db w) !! new_id); simpl;
    [intros H; apply app_inv_head in H; discriminate|].
  intros H. apply app_inv_head in H. injection H as <-. done.
Qed.

Lemma allocated_nonneg sessionId participantId d :
  ledger_invariant d → 0 ≤ allocated sessionId participantId d.
Proof.
  intros [Hrows _]. apply sum_votes_nonneg. intros k v Hk.
  destruct (Hrows k v Hk) as (? & _). lia.
Qed.

Lemma resolve_fresh_individual sessionId responseId groupId w r s :
  responses (db w) !! responseId = Some r → r_groupId r = None →
  sessions (db w) !! sessionId = Some s → groups (db w) !! groupId = None →
  resolve_target sessionId (js "individual-" ++ responseId) groupId w
  = (Done groupId,
     {| db := set_responses (alter (set_groupId (Some groupId)) responseId)
                (set_groups
                   (insert groupId
                      {| g_sessionId := sessionId;
                         g_label := ellipsize 30 (r_content r);
                         g_color := category_color (r_category r);
                         g_positionX := r_positionX r; g_positionY := r_positionY r;
                         g_voteCount := 0 |}) (db w));
        emitted := emitted w ++
                   [connected_group_created sessionId groupId [responseId]] |}).
Proof.
  intros Hr Hnone Hs Hfresh. unfold resolve_target, group_create.
  rewrite individual_not_chain, individual_prefix, individual_id. run_handler.
  rewrite findFirst_None; cycle 1.
  { intros k g Hk [_ Hg]. simpl in Hg. rewrite Hr in Hg. simpl in Hg. congruence. }
  simpl. rewrite Hr. simpl. rewrite Hs. simpl. rewrite Hfresh. simpl.
  by rewrite Hr.
Qed.

Lemma settle_first_vote sessionId participantId groupId g voteCount w G :
  (∀ k v, votes (db w) !! k = Some v → k.2 ≠ g) →
  is_Some (sessions (db w) !! sessionId) →
  is_Some (participants (db w) !! participantId) →
  groups (db w) !! g = Some G →
  1 ≤ voteCount → allocated sessionId participantId (db w) + voteCount ≤ 4 →
  ∃ w', settle_vote sessionId participantId groupId g voteCount w = (Done tt, w') ∧
    groups (db w') !! g = Some (set_voteCount voteCount G) ∧
    votes (db w') !! (participantId, g)
      = Some {| v_sessionId := sessionId; v_voteCount := voteCount |} ∧
    responses (db w') = responses (db w) ∧
    ∃ progress, emitted w' = emitted w ++
                  [votes_updated sessionId groupId voteCount progress].
Proof.
  intros Hnone [s Hs] [p Hp] HG Hlo Hhi.
  assert (votes (db w) !! (participantId, g) = None) as Hrow.
  { destruct (votes (db w) !! _) as [v|] eqn:Hv; [|done].
    by destruct (Hnone _ _ Hv). }
  unfold settle_vote, vote_upsert. run_handler.
  unfold getExistingVoteCount. rewrite Hrow. simpl.
  destruct (_ >? 4) eqn:Hover; [lia|].
  destruct (voteCount =? 0) eqn:Hz; [lia|]. simpl.
  rewrite Hrow. simpl. rewrite Hs. simpl. rewrite Hp. simpl. rewrite HG. simpl.
  rewrite HG. simpl. eexists. split; [reflexivity|]. simpl.
  assert (group_total g
            (set_votes (insert (participantId, g)
                          {| v_sessionId := sessionId; v_voteCount := voteCount |})
                       (db w)) = voteCount) as Htotal.
  { unfold group_total. simpl. rewrite sum_votes_insert by done. simpl.
    rewrite delete_id by done.
    assert (sum_votes (λ x, x.1.2 = g) (votes (db w)) = 0) as ->; [|lia].
    unfold sum_votes.
    assert (filter (λ x, x.1.2 = g) (votes (db w)) = ∅) as ->; [|done].
    apply map_empty. intros k. apply map_lookup_filter_None.
    destruct (votes (db w) !! k) as [v|] eqn:Hk; [right|by left].
    intros v' ? Hkg. simplify_eq/=. by destruct (Hnone _ _ Hk). }
  rewrite !Htotal.
  split; [by rewrite lookup_alter_eq, HG|]. split; [by rewrite lookup_insert_eq|].
  split; [done|]. eauto.
Qed.

(** X20: a response that [add_response] has stored can be voted for under
    its identifier [individual-<id>]: within the budget, the [cast_vote]
    of its author creates a group of the session labelled with the
    content cut after 30 characters, coloured by the category and placed
    at the default position, puts the response in it and records the
    votes, which are the votes of the group. *)
Theorem added_response_can_be_voted responseId data w r groupId voteCount :
  ledger_invariant (db w) →
  emitted (add responseId data w) = emitted w ++ [response_added responseId r] →
  groups (db w) !! groupId = None →
  1 ≤ voteCount →
  allocated (rd_sessionId data) (rd_participantId data) (db w) + voteCount ≤ 4 →
  let w1 := add responseId data w in
  let w2 := cast_vote groupId
              {| vd_sessionId := rd_sessionId data;
                 vd_participantId := rd_participantId data;
                 vd_groupId := js "individual-" ++ responseId;
                 vd_voteCount := voteCount |} w1 in
  groups (db w2) !! groupId
    = Some {| g_sessionId := rd_sessionId data;
              g_label := ellipsize 30 (rd_content data);
              g_color := category_color (rd_category data);
              g_positionX := default_positionX; g_positionY := default_positionY;
              g_voteCount := voteCount |} ∧
  responses (db w2) !! responseId = Some (set_groupId (Some groupId) r) ∧
  votes (db w2) !! (rd_participantId data, groupId)
    = Some {| v_sessionId := rd_sessionId data; v_voteCount := voteCount |} ∧
  ∃ progress,
    emitted w2 = emitted w1 ++
      [connected_group_created (rd_sessionId data) groupId [responseId];
       votes_updated (rd_sessionId data) (js "individual-" ++ responseId)
         voteCount progress].
Proof.
  intros Hinv Hadd Hfresh Hlo Hhi w1 w2.
  destruct (add_response_accepted _ _ _ _ Hadd)
    as (Hr & Hsid & Hpid & [s Hs] & [p Hp] & Hnew & Hw1).
  pose proof (allocated_nonneg (rd_sessionId data) (rd_participantId data) _ Hinv)
    as Hnonneg.
  pose proof Hinv as [Hrows _].
  assert (∀ k v, votes (db w) !! k = Some v → k.2 ≠ groupId) as Hnone.
  { intros k v Hk Hk2. destruct (Hrows _ _ Hk) as (_ & [G HG] & _). congruence. }
  assert (resolve_target (rd_sessionId data) (js "individual-" ++ responseId)
            groupId w1
          = (Done groupId,
             {| db := set_responses (alter (set_groupId (Some groupId)) responseId)
                        (set_groups
                           (insert groupId
                              {| g_sessionId := rd_sessionId data;
                                 g_label := ellipsize 30 (r_content r);
                                 g_color := category_color (r_category r);
                                 g_positionX := r_positionX r;
                                 g_positionY := r_positionY r;
                                 g_voteCount := 0 |}) (db w1));
                emitted := emitted w1 ++
                  [connected_group_created (rd_sessionId data) groupId
                     [responseId]] |})) as Hres.
  { apply (resolve_fresh_individual _ _ _ _ _ s); subst w1; rewrite ?Hw1; simpl.
    - by rewrite lookup_insert_eq.
    - by rewrite Hr.
    - done.
    - done. }
  match type of Hres with _ = (_, ?w) => set (w1' := w) in * end.
  subst w2.
  rewrite (cast_vote_resolved groupId _ w1 groupId w1'); [|simpl|exact Hres].
  2:{ unfold valid_vote. simpl. rewrite Hsid, Hpid. simpl.
      apply andb_true_intro. split; apply Z.leb_le; lia. }
  cbn [vd_sessionId vd_participantId vd_groupId vd_voteCount].
  destruct (settle_first_vote (rd_sessionId data) (rd_participantId data)
              (js "individual-" ++ responseId) groupId voteCount w1'
              {| g_sessionId := rd_sessionId data;
                 g_label := ellipsize 30 (r_content r);
                 g_color := category_color (r_category r);
                 g_positionX := r_positionX r; g_positionY := r_positionY r;
                 g_voteCount := 0 |})
    as (w' & Hsettle & Hgroup & Hvote & Hresp & progress & Hev).
  - subst w1' w1. rewrite Hw1. simpl. exact Hnone.
  - subst w1' w1. rewrite Hw1. simpl. by rewrite Hs.
  - subst w1' w1. rewrite Hw1. simpl. by rewrite Hp.
  - subst w1'. simpl. by rewrite lookup_insert_eq.
  - done.
  - subst w1' w1. rewrite Hw1. simpl. exact Hhi.
  - unfold try_catch. rewrite Hsettle.
    split; [rewrite Hgroup; by rewrite Hr|].
    split.
    { rewrite Hresp. subst w1' w1. rewrite Hw1. simpl.
      by rewrite lookup_alter_eq, lookup_insert_eq. }
    split; [done|]. exists progress. rewrite Hev. subst w1'. simpl.
    by rewrite <- app_assoc.
Qed.

End added_response.

(** Alice adds a response and gives it two votes. *)
Lemma added_response_can_be_voted_witness :
  let data := {| rd_sessionId := Fixture.S1; rd_participantId := Fixture.ALICE;
                 rd_content := js "Demo went well"; rd_category := WENT_WELL |} in
  let w1 := add_response 0 0 Fixture.NEW1 data Fixture.world in
  let w2 := cast_vote Fixture.NEW2
              {| vd_sessionId := Fixture.S1; vd_participantId := Fixture.ALICE;
                 vd_groupId := js "individual-" ++ Fixture.NEW1;
                 vd_voteCount := 2 |} w1 in
  g_voteCount <$> groups (db w2) !! Fixture.NEW2 = Some 2.
Proof.
  intros data w1 w2.
  destruct (added_response_can_be_voted 0 0 Fixture.NEW1 data Fixture.world
              {| r_sessionId := Fixture.S1; r_participantId := Fixture.ALICE;
                 r_content := js "Demo went well"; r_category := WENT_WELL;
                 r_positionX := 0; r_positionY := 0; r_groupId := None |}
              Fixture.NEW2 2) as (Hgroup & _).
  - split.
    + intros k v Hk. vm_compute in Hk. discriminate.
    + intros gid g Hg. unfold Fixture.world, Fixture.board in Hg. simpl in Hg.
      apply lookup_insert_Some in Hg as [[_ <-]|[_ Hg]]; [reflexivity|].
      apply lookup_singleton_Some in Hg as [_ <-]. reflexivity.
  - vm_compute. reflexivity.
  - vm_compute. reflexivity.
  - lia.
  - vm_compute. discriminate.
  - apply (f_equal (fmap g_voteCount)) in Hgroup. exact Hgroup.
Defined.

(** ** Participant routes *)

Section participant_routes.
Implicit Types (d : Db).

Lemma foldl_sum {A} (f : A → Z) (l : list A) (acc : Z) :
  foldl (λ sum x, sum + f x) acc l = acc + foldr (λ x sum, f x + sum) 0 l.
Proof.
  revert acc. induction l as [|x l IH]; intros acc; simpl; [lia|].
  rewrite IH. lia.
Qed.

Lemma total_is_allocated sessionId participantId d :
  (∀ g v, votes d !! (participantId, g) = Some v → v_sessionId v = sessionId) →
  foldr (λ row sum, v_voteCount row.2 + sum) 0
    (findMany (λ x, x.1.1 = participantId) (votes d))
  = allocated sessionId participantId d.
Proof.
  intros Hrows. unfold allocated, sum_votes, findMany.
  rewrite map_fold_foldr.
  assert (filter (λ x, x.1.1 = participantId) (votes d)
          = filter (λ x, v_sessionId x.2 = sessionId ∧ x.1.1 = participantId)
              (votes d)) as ->.
  { apply map_filter_ext. intros [p g] v Hk. simpl. split; [|tauto].
    intros ->. split; [|done]. by eapply Hrows. }
  generalize (map_to_list
    (filter (λ x, v_sessionId x.2 = sessionId ∧ x.1.1 = participantId) (votes d))).
  intros l. induction l as [|[k v] l IH]; simpl; [done|]. simpl in IH. lia.
Qed.

(** X21: [GET /api/participants/:participantId/votes] answers, for any
    participant id that is a UUID, with the Vote rows of the participant
    in all sessions, each once, with the sum of their counts and with
    [max(0, 4 - sum)].  When the rows of the participant are all in one
    session, the sum is the allocation that [cast_vote] checks for that
    session, and the remaining votes are those of the [votes_updated]
    broadcast as long as these are not negative. *)
Theorem get_votes_agrees sessionId participantId d :
  is_uuid participantId = true →
  ∃ rows,
    let total := foldr (λ row sum, v_voteCount row.2 + sum) 0 rows in
    get_votes_route participantId d = votes_ok rows total (Z.max 0 (4 - total)) ∧
    NoDup rows ∧
    (∀ k v, (k, v) ∈ rows ↔ votes d !! k = Some v ∧ k.1 = participantId) ∧
    ((∀ g v, votes d !! (participantId, g) = Some v → v_sessionId v = sessionId) →
     total = allocated sessionId participantId d ∧
     ∀ p, participants d !! participantId = Some p → p_sessionId p = sessionId →
          total ≤ 4 →
          participantProgress sessionId d !! participantId
          = Some (Z.max 0 (4 - total))).
Proof.
  intros Hid. unfold get_votes_route. rewrite Hid. simpl.
  exists (findMany (λ x, x.1.1 = participantId) (votes d)). cbv zeta.
  split; [|split; [|split]].
  - rewrite foldl_sum. by rewrite Z.add_0_l.
  - apply NoDup_map_to_list.
  - intros k v. apply findMany_elem.
  - intros Hrows. rewrite (total_is_allocated sessionId participantId d Hrows).
    split; [done|]. intros p Hp Hsid Hle. unfold participantProgress.
    rewrite map_lookup_imap, Hp. simpl. rewrite decide_True by done.
    f_equal. unfold allocated in *. lia.
Qed.

(** Alice, with three votes on G1, has one vote left. *)
Lemma get_votes_agrees_witness :
  ∃ rows, get_votes_route Fixture.ALICE Fixture.board_voted = votes_ok rows 3 1.
Proof.
  destruct (get_votes_agrees Fixture.S1 Fixture.ALICE Fixture.board_voted eq_refl)
    as (rows & Hreply & _ & _ & Hone).
  destruct Hone as [Htotal _].
  - intros g v Hv. unfold Fixture.board_voted in Hv. simpl in Hv.
    apply lookup_singleton_Some in Hv as [_ <-]. reflexivity.
  - exists rows. etrans; [exact Hreply|]. rewrite Htotal.
    f_equal; vm_compute; reflexivity.
Defined.

Variable equals_insensitive : jsstring → jsstring → bool.

(** X22: [PATCH /api/participants/:participantId] changes nothing but the
    display name and the avatar of the participant it names: the session,
    the role, the connection and the time of last activity stay, and so
    do every other participant and every other table.  A name that
    another participant of the session has, in the comparison of the
    store, is refused with 400 and nothing is written. *)
Theorem patch_participant_profile_only participantId data d :
  let result := patch_participant_route equals_insensitive participantId data d in
  set_participants (λ _, participants d) result.2 = d ∧
  (∀ k, k ≠ participantId → participants result.2 !! k = participants d !! k) ∧
  (∀ p', participants result.2 !! participantId = Some p' →
     ∃ p, participants d !! participantId = Some p ∧
       p_sessionId p' = p_sessionId p ∧ p_isHost p' = p_isHost p ∧
       p_socketId p' = p_socketId p ∧ p_lastActive p' = p_lastActive p) ∧
  (∀ displayName p other q,
     up_displayName data = Some displayName →
     participants d !! participantId = Some p →
     participants d !! other = Some q → other ≠ participantId →
     p_sessionId q = p_sessionId p →
     equals_insensitive (p_displayName q) displayName = true →
     result.2 = d ∧ ∃ message, result.1 = participant_error 400 message).
Proof.
  intros result. subst result. unfold patch_participant_route.
  assert (∀ reply : ParticipantReply,
    set_participants (λ _, participants d) (reply, d).2 = d ∧
    (∀ k, k ≠ participantId → participants (reply, d).2 !! k = participants d !! k) ∧
    (∀ p', participants (reply, d).2 !! participantId = Some p' →
       ∃ p, participants d !! participantId = Some p ∧
         p_sessionId p' = p_sessionId p ∧ p_isHost p' = p_isHost p ∧
         p_socketId p' = p_socketId p ∧ p_lastActive p' = p_lastActive p))
    as Hsame.
  { intros reply. simpl. split; [by destruct d|]. split; [done|].
    intros p' Hp'. by exists p'. }
  assert (∀ p,
    participants d !! participantId = Some p →
    let d' := set_participants (insert participantId (set_profile data p)) d in
    set_participants (λ _, participants d) d' = d ∧
    (∀ k, k ≠ participantId → participants d' !! k = participants d !! k) ∧
    (∀ p', participants d' !! participantId = Some p' →
       ∃ p, participants d !! participantId = Some p ∧
         p_sessionId p' = p_sessionId p ∧ p_isHost p' = p_isHost p ∧
         p_socketId p' = p_socketId p ∧ p_lastActive p' = p_lastActive p))
    as Hupdated.
  { intros p Hp d'. subst d'. simpl. split; [by destruct d|]. split.
    - intros k Hk. by rewrite lookup_insert_ne.
    - intros p'. rewrite lookup_insert_eq. intros [= <-]. by exists p. }
  destruct (negb _) eqn:Hvalid.
  { destruct (Hsame (participant_error 400 "Invalid request data"))
      as (H1 & H2 & H3).
    do 3 (split; [done|]). intros; first [congruence | split; [done|eexists; reflexivity]]. }
  destruct (up_displayName data) as [displayName|] eqn:Hname.
  - destruct (participants d !! participantId) as [p|] eqn:Hp.
    2:{ destruct (Hsame (participant_error 404 "Participant not found"))
          as (H1 & H2 & H3).
        do 3 (split; [done|]). intros; first [congruence | split; [done|eexists; reflexivity]]. }
    destruct (findFirst _ _) as [x|] eqn:Hfind.
    { destruct (Hsame (participant_error 400 "Display name already taken"))
        as (H1 & H2 & H3).
      do 3 (split; [done|]). intros; first [congruence | split; [done|eexists; reflexivity]]. }
    destruct (Hupdated p eq_refl) as (H1 & H2 & H3).
    destruct (up_avatarId data); simpl; (do 3 (split; [done|]));
      intros displayName' p0 other q [= <-] [= <-] Hq Hne Hsid Heq;
      by destruct (findFirst_None_inv _ _ Hfind other q Hq).
  - destruct (up_avatarId data) as [avatarId|] eqn:Havatar.
    2:{ destruct (Hsame (participant_error 400 "No update data provided"))
          as (H1 & H2 & H3).
        do 3 (split; [done|]). done. }
    destruct (participants d !! participantId) as [p|] eqn:Hp.
    2:{ destruct (Hsame (participant_error 500 "Failed to update participant"))
          as (H1 & H2 & H3).
        do 3 (split; [done|]). done. }
    destruct (Hupdated p eq_refl) as (H1 & H2 & H3).
    do 3 (split; [done|]). done.
Qed.

(** X23: [PATCH /api/participants/:participantId] for a participant that
    does not exist is answered 404 when a display name is given, and 500
    when only an avatar is given: the existence check is part of the name
    check.  Nothing is written in either case. *)
Theorem patch_participant_missing participantId data d :
  is_uuid participantId = true →
  from_option (length_between 1 50) true (up_displayName data) = true →
  from_option (length_between 1 20) true (up_avatarId data) = true →
  participants d !! participantId = None →
  patch_participant_route equals_insensitive participantId data d
  = (match up_displayName data, up_avatarId data with
     | Some _, _ => participant_error 404 "Participant not found"
     | None, Some _ => participant_error 500 "Failed to update participant"
     | None, None => participant_error 400 "No update data provided"
     end, d).
Proof.
  intros Hid Hname Havatar Hnone. unfold patch_participant_route.
  rewrite Hid, Hname, Havatar, Hnone. simpl.
  by destruct (up_displayName data), (up_avatarId data).
Qed.
End participant_routes.

(** Bob cannot take Alice's name; his avatar can change. *)
Lemma patch_participant_profile_only_witness :
  let same a b := bool_decide (a = b :> jsstring) in
  (patch_participant_route same Fixture.BOB
     {| up_displayName := Some (js "Alice"); up_avatarId := None |}
     Fixture.board).2 = Fixture.board.
Proof.
  intros same.
  apply (proj2 (proj2 (proj2 (patch_participant_profile_only same Fixture.BOB
           {| up_displayName := Some (js "Alice"); up_avatarId := None |}
           Fixture.board))) (js "Alice") Fixture.bob Fixture.ALICE Fixture.alice);
    try reflexivity.
  vm_compute. discriminate.
Defined.

(** An avatar for a participant that does not exist. *)
Lemma patch_participant_missing_witness :
  (patch_participant_route (λ a b, bool_decide (a = b)) Fixture.NEW1
     {| up_displayName := None; up_avatarId := Some (js "owl") |} Fixture.board).1
  = participant_error 500 "Failed to update participant".
Proof.
  by rewrite (patch_participant_missing (λ a b, bool_decide (a = b)) Fixture.NEW1
                {| up_displayName := None; up_avatarId := Some (js "owl") |}
                Fixture.board eq_refl eq_refl eq_refl eq_refl).
Defined.

(** ** Who may direct a session *)

Section reachable.
Variable toLowerCase : jsstring → jsstring.
Variable default_phase : SessionPhase.
Variable default_timerDuration : option Z.
Variable default_positionX default_positionY : Z.
Implicit Types (w : World) (d : Db).

Local Abbreviation reached :=
  (run_all toLowerCase default_phase default_timerDuration default_positionX
           default_positionY).

Lemma host_of_session d sessionId s socket_id :
  one_host d → sessions d !! sessionId = Some s →
  bound_to_host d sessionId socket_id
  ↔ p_socketId <$> participants d !! s_hostId s = Some (Some socket_id).
Proof.
  intros Hhost Hs. destruct (Hhost sessionId s Hs) as [(h & Hh & Hsid) Honly].
  split.
  - intros (pid & p & Hp & Hsid' & Hsock & Hrole).
    apply (Honly pid p Hp Hsid') in Hrole as ->. by rewrite Hp; simpl; rewrite Hsock.
  - rewrite Hh. simpl. intros [= Hsock]. exists (s_hostId s), h.
    repeat split; try done. by apply (Honly (s_hostId s) h Hh Hsid).
Qed.

(** X24: in the state after any sequence of commands on the empty store,
    the connections bound to a host participant of a session are exactly
    the connections of the participant named by the [hostId] of the
    session: [start_presentation] is broadcast from such a connection and
    answered "Unauthorized to start presentation" from any other. *)
Theorem reachable_host_authority cs socket_id sessionId s :
  let w := reached cs in
  sessions (db w) !! sessionId = Some s →
  (bound_to_host (db w) sessionId socket_id
   ↔ p_socketId <$> participants (db w) !! s_hostId s = Some (Some socket_id)) ∧
  (is_uuid sessionId = true →
   if decide (p_socketId <$> participants (db w) !! s_hostId s = Some (Some socket_id))
   then emitted (start_presentation socket_id sessionId w)
        = emitted w ++ [presentation_started sessionId]
   else rejected_with "Unauthorized to start presentation" w
          (start_presentation socket_id sessionId w)).
Proof.
  intros w Hs.
  assert (∀ cs', people_invariant toLowerCase (db (reached cs'))) as Hall.
  { clear. intros cs. induction cs as [|c cs IH] using rev_ind.
    - split; [|split; [|split]].
      + intros pid p Hp. done.
      + intros sid s' Hs'. done.
      + intros id1 s1 id2 s2 H1. done.
      + intros id1 p1 id2 p2 H1. done.
    - rewrite run_all_snoc. by apply run_people. }
  destruct (Hall cs) as (_ & Hhost & _). fold w in Hhost.
  pose proof (host_of_session (db w) sessionId s socket_id Hhost Hs) as Hiff.
  split; [done|]. intros Hid. case_decide as Hsock.
  - rewrite start_presentation_by_host; [done..|]. by apply Hiff.
  - unfold start_presentation, try_catch, start_presentation_body, rejected_with.
    run_handler. rewrite Hid. simpl.
    destruct (findFirst _ _) as [x|] eqn:Hf; [|done].
    destruct Hsock. apply Hiff, find_host_on. by rewrite Hf.
Qed.
End reachable.

(** Alice creates a session and joins it on her connection. *)
Lemma reachable_host_authority_witness :
  let created := {| cs_title := None; cs_hostName := js "Alice";
                    cs_hostAvatar := js "fox" |} in
  let w := run_all (λ s, s) (PhaseTag "INPUT") None 0 0
             [PostSession Fixture.S1 Fixture.ALICE (js "ABCDEFGH") 1 created;
              JoinSession Fixture.alice_socket 2 Fixture.S1 Fixture.ALICE] in
  bound_to_host (db w) Fixture.S1 Fixture.alice_socket.
Proof.
  intros created w.
  apply (proj1 (reachable_host_authority (λ s, s) (PhaseTag "INPUT") None 0 0
                  [PostSession Fixture.S1 Fixture.ALICE (js "ABCDEFGH") 1 created;
                   JoinSession Fixture.alice_socket 2 Fixture.S1 Fixture.ALICE]
                  Fixture.alice_socket Fixture.S1
                  {| s_inviteCode := js "ABCDEFGH"; s_hostId := Fixture.ALICE;
                     s_title := js "Retrospective";
                     s_currentPhase := PhaseTag "INPUT";
                     s_timerDuration := None; s_timerEndTime := None |}
                  ltac:(vm_compute; reflexivity))).
  vm_compute. reflexivity.
Defined.

(** ** Which command writes to which table *)

Section writers.
Variable toLowerCase : jsstring → jsstring.
Variable default_phase : SessionPhase.
Variable default_timerDuration : option Z.
Variable default_positionX default_positionY : Z.
Implicit Types (w : World) (c : Command).

(** X25: the sessions are written by [change_phase] and the routes
    [POST /] and [PATCH phase] only; the participants by [join_session],
    [disconnect] and the routes [POST /] and [POST /join]; the responses by
    [add_response], [update_response] and [cast_vote]; the connections by
    [create_connection] and [remove_connection]; the groups and the votes
    by [cast_vote].  No other command changes these tables, whatever its
    payload and outcome. *)
Theorem table_writers c w :
  let d := db w in
  let d' := db (run toLowerCase default_phase default_timerDuration
                  default_positionX default_positionY c w) in
  match c with
  | ChangePhase _ _ _ | PostSession _ _ _ _ _ | PatchPhase _ _ _ _ => True
  | _ => sessions d' = sessions d
  end ∧
  match c with
  | JoinSession _ _ _ _ | Disconnect _ _ | PostSession _ _ _ _ _ | PostJoin _ _ _ =>
      True
  | _ => participants d' = participants d
  end ∧
  match c with
  | AddResponse _ _ | UpdateResponse _ _ _ | CastVote _ _ => True
  | _ => responses d' = responses d
  end ∧
  match c with
  | CreateConnection _ _ | RemoveConnection _ _ => True
  | _ => connections d' = connections d
  end ∧
  match c with
  | CastVote _ _ => True
  | _ => groups d' = groups d ∧ votes d' = votes d
  end.
Proof.
  intros d d'. subst d d'.
  destruct c; simpl;
    try (destruct (cast_vote_frames new_id data w) as (Hs & Hp & Hc & _);
         by repeat split);
    unfold join_session, change_phase, typing_start, typing_stop, add_response,
      update_response, create_connection, remove_connection, start_presentation,
      end_presentation, navigate_presentation, disconnect, served, try_catch,
      try_log, join_session_body, change_phase_body, add_response_body,
      update_response_body, create_connection_body, remove_connection_body,
      start_presentation_body, end_presentation_body, navigate_presentation_body,
      disconnect_body, patch_phase_route, create_session_route, join_route;
    run_handler; repeat case_match; simplify_eq/=; by repeat split.
Qed.
End writers.

(** ** Targets that are not groups *)

Section targets.
Implicit Types (w : World) (d : Db) (data : VoteData).

Lemma split_go_nonempty sep skip cur s : split_go sep skip cur s ≠ [].
Proof.
  revert skip cur. induction s as [|c s IH]; intros skip cur; simpl; [done|].
  destruct skip; [|apply IH]. destruct (startsWith sep (c :: s)); [done|apply IH].
Qed.

(** X26: the list of ids read from a chain identifier is never empty, an
    empty string being split into one empty piece: of the two tests of
    the format check, [responseIds.length === 0] never holds, and the
    check is the test of the pieces against the UUID pattern. *)
Theorem chain_ids_nonempty groupId :
  chain_ids groupId ≠ [] ∧
  (length (chain_ids groupId) =? 0)%nat
    || existsb (λ id, negb (is_uuid id)) (chain_ids groupId)
  = existsb (λ id, negb (is_uuid id)) (chain_ids groupId).
Proof.
  assert (chain_ids groupId ≠ []) as Hne by apply split_go_nonempty.
  split; [done|]. by destruct (chain_ids groupId).
Qed.

(** X27: a [cast_vote] that names, by a plain identifier, a group that
    does not exist and on which the participant has no row is answered
    with an [error] and writes nothing; the group is looked for only by
    the writes that follow the quota check. *)
Theorem vote_on_unknown_group new_id data w :
  valid_vote data = true →
  startsWith (js "connected-") (vd_groupId data) = false →
  startsWith (js "individual-") (vd_groupId data) = false →
  groups (db w) !! vd_groupId data = None →
  votes (db w) !! (vd_participantId data, vd_groupId data) = None →
  let w' := cast_vote new_id data w in
  db w' = db w ∧ rejected w w'.
Proof.
  intros Hvalid Hchain Hsingle Hgroup Hrow w'. subst w'.
  assert (resolve_target (vd_sessionId data) (vd_groupId data) new_id w
          = (Done (vd_groupId data), w)) as Hres.
  { unfold resolve_target. by rewrite Hchain, Hsingle. }
  rewrite (cast_vote_resolved _ _ _ _ _ Hvalid Hres).
  unfold try_catch, settle_vote, vote_upsert, rejected. run_handler.
  destruct (_ >? 4); simpl; [by eauto|].
  destruct (vd_voteCount data =? 0); simpl.
  - rewrite Hgroup. simpl. split; [|by eauto].
    unfold set_votes. rewrite deleteMany_key, delete_id by done. by destruct (db w).
  - rewrite Hrow. simpl.
    destruct (sessions (db w) !! vd_sessionId data); simpl; [|by eauto].
    destruct (participants (db w) !! vd_participantId data); simpl; [|by eauto].
    rewrite Hgroup. simpl. by eauto.
Qed.

(** Alice votes for a group that does not exist. *)
Lemma vote_on_unknown_group_witness :
  let w' := cast_vote Fixture.NEW1 (Fixture.vote Fixture.ALICE Fixture.NEW2 1)
              Fixture.world in
  db w' = db Fixture.world ∧ rejected Fixture.world w'.
Proof.
  apply (vote_on_unknown_group Fixture.NEW1
           (Fixture.vote Fixture.ALICE Fixture.NEW2 1) Fixture.world);
    vm_compute; reflexivity.
Defined.
End targets.
